(** * Patience: corpus streaming, aggregation and scoring

    A shallow embedding of the Python sources
      - [Utils/file_process.py]  (line files, chunked transformer),
      - [Utils/text_cleaning.py] (the [TextCleaner] class),
      - [Utils/parser.py]        (the [SpacyParser] class),
      - [Utils/multiple_word_detect.py] (phrase joining),
      - [parse.py], [clean.py]   (the two users of the transformer),
      - [score.py]               (document aggregation, document frequency),
    followed by the properties established about them.

    Text is modelled as a list of 8-bit characters ([list ascii]); this is
    what the files hold and what [str] holds for ASCII text.  File paths
    are [string]s.  The file system is a finite map from paths to file
    contents, and every function that touches it, prints, or can raise
    lives in the monad [M] below. *)

From Stdlib Require Import Ascii String List Arith Lia DecimalString
  DecimalNat.
From stdpp Require Import base tactics option list strings gmap sets fin_maps.

Set Default Proof Using "Type".
#[local] Set Warnings "-abstract-large-number".

Abbreviation str := (list ascii).

(** Literals: [lit "a b"] is the text [a b]. *)
Definition lit (s : string) : str := list_ascii_of_string s.

(* ===================================================================== *)
(** * Python string primitives *)
(* ===================================================================== *)

Module Py.

Definition LF : ascii := "010"%char.
Definition CR : ascii := "013"%char.
Definition SP : ascii := " "%char.

Definition between (lo hi : nat) (c : ascii) : bool :=
  (lo <=? nat_of_ascii c) && (nat_of_ascii c <=? hi).

(** [c.isspace()], which is also the class [\s] of [re] and the separator
    set of [str.split()] and [str.strip()]: TAB LF VT FF CR, FS GS RS US
    and the blank. *)
Definition isspace (c : ascii) : bool := between 9 13 c || between 28 32 c.

(** [\d] *)
Definition isdigit (c : ascii) : bool := between 48 57 c.

(** [\w]: letters, digits and the underscore. *)
Definition isword (c : ascii) : bool :=
  between 97 122 c || between 65 90 c || isdigit c || (nat_of_ascii c =? 95).

(** [[^\w\s]] *)
Definition ispunct (c : ascii) : bool := negb (isword c) && negb (isspace c).

(** [c.lower()] *)
Definition lower_char (c : ascii) : ascii :=
  if between 65 90 c then ascii_of_nat (nat_of_ascii c + 32) else c.

(** [s.lower()] *)
Definition lower (s : str) : str := map lower_char s.

(** [s.lstrip(chars)], [s.rstrip(chars)] and [s.strip(chars)], the
    character set given as a predicate. *)
Fixpoint lstrip_chars (p : ascii → bool) (s : str) : str :=
  match s with
  | [] => []
  | c :: s' => if p c then lstrip_chars p s' else s
  end.

Definition rstrip_chars (p : ascii → bool) (s : str) : str :=
  rev (lstrip_chars p (rev s)).

Definition strip_chars (p : ascii → bool) (s : str) : str :=
  rstrip_chars p (lstrip_chars p s).

(** [s.strip()] *)
Definition strip (s : str) : str := strip_chars isspace s.

(** [s.strip("\n")] *)
Definition strip_LF (s : str) : str :=
  strip_chars (λ c, bool_decide (c = LF)) s.

(** The word under construction is kept reversed in [cur]; [flush]
    emits it when a separator or the end of the text is met. *)
Definition flush (cur : str) : list str :=
  match cur with
  | [] => []
  | _ :: _ => [rev cur]
  end.

(** [s.split()]: the maximal runs of non-whitespace characters. *)
Fixpoint split_go (cur : str) (s : str) : list str :=
  match s with
  | [] => flush cur
  | c :: s' =>
      if isspace c then flush cur ++ split_go [] s'
      else split_go (c :: cur) s'
  end.

Definition split (s : str) : list str := split_go [] s.

(** [s.split(sep)] for a one-character separator: never empty. *)
Fixpoint split_on (sep : ascii) (s : str) : list str :=
  match s with
  | [] => [[]]
  | c :: s' =>
      if bool_decide (c = sep) then [] :: split_on sep s'
      else match split_on sep s' with
           | w :: ws => (c :: w) :: ws
           | [] => [[c]]
           end
  end.

(** [sep.join(l)] *)
Fixpoint join (sep : str) (l : list str) : str :=
  match l with
  | [] => []
  | x :: l' =>
      match l' with
      | [] => x
      | _ :: _ => x ++ sep ++ join sep l'
      end
  end.

(** [s.replace(old, new)] for one-character [old] and [new]. *)
Definition replace (old new : ascii) (s : str) : str :=
  map (λ c, if bool_decide (c = old) then new else c) s.

(** Iterating over a file opened with [newline="\n"] or in binary mode:
    every line keeps its terminating LF; a last line without LF is
    yielded as it is. *)
Fixpoint readlines_go (cur : str) (s : str) : list str :=
  match s with
  | [] => flush cur
  | c :: s' =>
      if bool_decide (c = LF) then rev (c :: cur) :: readlines_go [] s'
      else readlines_go (c :: cur) s'
  end.

Definition readlines (s : str) : list str := readlines_go [] s.

(** [re.sub(r'\s+', ' ', s)]: every maximal run of whitespace becomes one
    blank.  [in_run] tells that the previous character was whitespace. *)
Fixpoint sub_spaces (in_run : bool) (s : str) : str :=
  match s with
  | [] => []
  | c :: s' =>
      if isspace c then
        if in_run then sub_spaces true s' else SP :: sub_spaces true s'
      else c :: sub_spaces false s'
  end.

(** [re.sub(r'\d+', '', s)] *)
Definition sub_digits (s : str) : str := filter (λ c, isdigit c = false) s.

(** [re.sub(r'[^\w\s]', ' ', s)] *)
Definition sub_punct (s : str) : str :=
  map (λ c, if ispunct c then SP else c) s.

(** [re.sub(r'([^\w\s])\1+', r'\1', s)]: a run of one repeated
    punctuation character is reduced to a single occurrence. *)
Fixpoint sub_repeated_punct (s : str) : str :=
  match s with
  | [] => []
  | c :: s' =>
      match s' with
      | c' :: _ =>
          if ispunct c && bool_decide (c = c') then sub_repeated_punct s'
          else c :: sub_repeated_punct s'
      | [] => [c]
      end
  end.

(** Reading in text mode with the default [newline=None]: each of CR LF,
    CR and LF ends a line and is handed over as LF. *)
Fixpoint universal_newlines (s : str) : str :=
  match s with
  | [] => []
  | c :: s' =>
      if bool_decide (c = CR) then
        LF :: match s' with
              | d :: s'' =>
                  if bool_decide (d = LF) then universal_newlines s''
                  else universal_newlines s'
              | [] => []
              end
      else c :: universal_newlines s'
  end.

(** [str(n)] for a natural number. *)
Definition str_of_nat (n : nat) : str :=
  lit (NilEmpty.string_of_uint (Nat.to_uint n)).

(** [itertools.zip_longest] applied to [n] references to one shared
    iterator, with the [None] padding filtered out again: the items of
    the iterator, [n] at a time, the last group shorter when the items
    run out.  With [n = 0] there is no iterator to draw from and nothing
    is yielded. *)
Fixpoint grouper_go {A} (fuel n : nat) (l : list A) : list (list A) :=
  match fuel with
  | 0 => []
  | S fuel' =>
      match l with
      | [] => []
      | _ :: _ => take n l :: grouper_go fuel' n (drop n l)
      end
  end.

Definition grouper {A} (n : nat) (l : list A) : list (list A) :=
  match n with
  | 0 => []
  | S _ => grouper_go (length l) n l
  end.

End Py.

(* ===================================================================== *)
(** * Files, standard output and exceptions *)
(* ===================================================================== *)

(** The exceptions met in the sources; [Exception] stands for any other
    exception a per-line function may raise, with its message. *)
Inductive exn : Type :=
| AssertionError (msg : string)
| FileNotFoundError (path : string)
| StopIteration
| IndexError
| UnboundLocalError (name : string)
| Exception (msg : str).

Inductive result (A : Type) : Type :=
| Ok (a : A)
| Raise (e : exn).
Arguments Ok {A} a.
Arguments Raise {A} e.

Record world : Type := World {
  files : gmap string (list ascii);
  stdout : list (list ascii)
}.

(** A computation runs in a world and leaves a world, with a value or an
    exception. *)
Definition M (A : Type) : Type := world → result A * world.

#[global] Instance M_ret : MRet M := λ A a w, (Ok a, w).

#[global] Instance M_bind : MBind M := λ A B f m w,
  match m w with
  | (Ok a, w') => f a w'
  | (Raise e, w') => (Raise e, w')
  end.

Definition raise {A} (e : exn) : M A := λ w, (Raise e, w).

(** A result computed without touching the world. *)
Definition lift {A} (r : result A) : M A := λ w, (r, w).

(** [assert cond, msg] *)
Definition assert (cond : bool) (msg : string) : M unit :=
  if cond then mret () else raise (AssertionError msg).

(** [try: body except OSError: pass] *)
Definition is_OSError (e : exn) : bool :=
  match e with
  | FileNotFoundError _ => true
  | _ => false
  end.

Definition try_except_pass (handled : exn → bool) (body : M unit) : M unit :=
  λ w, match body w with
       | (Raise e, w') => if handled e then (Ok (), w') else (Raise e, w')
       | (Ok a, w') => (Ok a, w')
       end.

(** [for x in l: body(x)] *)
Fixpoint for_each {A} (body : A → M unit) (l : list A) : M unit :=
  match l with
  | [] => mret ()
  | x :: l' => body x ;; for_each body l'
  end.

(** What a file holds; an absent file holds nothing. *)
Definition file_content (w : world) (path : string) : str :=
  default [] (files w !! path).

(** [os.remove(path)] *)
Definition os_remove (path : string) : M unit := λ w,
  match files w !! path with
  | Some _ => (Ok (), World (delete path (files w)) (stdout w))
  | None => (Raise (FileNotFoundError path), w)
  end.

(** [open(path).read()], also in binary mode. *)
Definition read_file (path : string) : M str := λ w,
  match files w !! path with
  | Some content => (Ok content, w)
  | None => (Raise (FileNotFoundError path), w)
  end.

(** [open(path, "w")]: the file is created or truncated. *)
Definition truncate_file (path : string) : M unit := λ w,
  (Ok (), World (<[path := []]> (files w)) (stdout w)).

(** [f.write(text)] on a file opened for writing or appending; opening in
    mode ["a"] creates a missing file. *)
Definition append_file (path : string) (text : str) : M unit := λ w,
  (Ok (), World (<[path := file_content w path ++ text]> (files w)) (stdout w)).

(** [print(text)] *)
Definition print (text : str) : M unit := λ w,
  (Ok (), World (files w) (stdout w ++ [text])).


(* ===================================================================== *)
(** * Utils/file_process.py *)
(* ===================================================================== *)

Module file_process.
Import Py.

(** [line_counter(a_file)]: the number of lines of a file read in binary
    mode. *)
Definition line_counter (a_file : string) : M nat :=
  content ← read_file a_file;
  mret (length (readlines content)).

(** [file_to_list(a_file)]: the lines of a file, each one stripped. *)
Definition file_to_list (a_file : string) : M (list str) :=
  content ← read_file a_file;
  mret (map strip (readlines content)).

(** [list_to_file(lst, a_file, validate)]; the elements are given as
    their [str(e)]. *)
Definition list_to_file (lst : list str) (a_file : string) (validate : bool)
  : M unit :=
  truncate_file a_file ;;
  for_each (λ e, let e := replace CR SP (replace LF SP e) in
                 append_file a_file (e ++ [LF])) lst ;;
  if validate then
    n ← line_counter a_file;
    assert (n =? length lst) "line_counter(a_file) == len(lst)"
  else mret ().

(** The per-line function handed to [process_large_file]: from a line and
    its identifier, what it prints and the pair it returns or the
    exception it raises. *)
Definition transform : Type := str → str → list str * result (str * str).

Definition call (function_name : transform) (line line_id : str)
  : M (str * str) := λ w,
  let '(printed, r) := function_name line line_id in
  (r, World (files w) (stdout w ++ printed)).

(** [for y in map(f, xs): ys.append(y)] *)
Fixpoint map_append {A B} (f : A → M B) (xs : list A) : M (list B) :=
  match xs with
  | [] => mret []
  | x :: xs' => y ← f x; ys ← map_append f xs'; mret (y :: ys)
  end.

(** Lines 144-152: on a fresh run the former output files are removed; an
    [OSError] of either removal leaves the [try] block. *)
Definition remove_outputs (output_file : string)
    (output_index_file : option string) (start_index : option nat)
  : M unit :=
  try_except_pass is_OSError
    (match start_index with
     | None =>
         os_remove output_file ;;
         match output_index_file with
         | Some p => os_remove p
         | None => mret ()
         end
     | Some _ => mret ()
     end).

(** Lines 157-165: the input is opened and, when resuming, both the lines
    and the identifiers are advanced to [start_index]; [next(f_in)] on
    an exhausted file raises [StopIteration]. *)
Definition open_input (input_file : string) (input_file_ids : list str)
    (start_index : option nat) : M (list str * list str) :=
  content ← read_file input_file;
  let f_in := readlines content in
  match start_index with
  | Some k =>
      if k <=? length f_in then mret (drop k f_in, drop k input_file_ids)
      else raise StopIteration
  | None => mret (f_in, input_file_ids)
  end.

(** Lines 170-189: one round of the loop.  The progress messages (a time
    stamp and the line counter) are left out. *)
Definition process_chunk (output_file : string)
    (output_index_file : option string) (function_name : transform)
    (chunk : list str * list str) : M unit :=
  let '(next_n_lines, next_n_line_ids) := chunk in
  outs ← map_append (λ '(line, line_id), call function_name line line_id)
                    (zip next_n_lines next_n_line_ids);
  let output_lines := join [LF] outs.*1 ++ [LF] in
  let output_line_ids := join [LF] outs.*2 ++ [LF] in
  append_file output_file output_lines ;;
  match output_index_file with
  | Some p => append_file p output_line_ids
  | None => mret ()
  end.

(** The chunks the loop of lines 166-169 runs over. *)
Definition chunks (chunk_size : nat) (f_in input_file_ids : list str)
  : list (list str * list str) :=
  zip (grouper chunk_size f_in) (grouper chunk_size input_file_ids).

Definition assert_msg : string :=
  "Make sure the input file has the same number of rows as the input ID file. ".

(** [process_large_file(input_file, output_file, input_file_ids,
    output_index_file, function_name, chunk_size, start_index)] *)
Definition process_large_file (input_file output_file : string)
    (input_file_ids : list str) (output_index_file : option string)
    (function_name : transform) (chunk_size : nat)
    (start_index : option nat) : M unit :=
  remove_outputs output_file output_index_file start_index ;;
  n ← line_counter input_file;
  assert (n =? length input_file_ids) assert_msg ;;
  '(f_in, input_file_ids) ← open_input input_file input_file_ids start_index;
  for_each (process_chunk output_file output_index_file function_name)
           (chunks chunk_size f_in input_file_ids).

(** [open(a_file)] in text mode followed by iteration or [readlines()]:
    the lines after newline translation. *)
Definition read_text_lines (a_file : string) : M (list str) :=
  content ← read_file a_file;
  mret (readlines (universal_newlines content)).

(** The loop of [read_large_file]: [block] is the block under
    construction; it is yielded when it reaches [block_size] lines, and
    at the end when it is not empty. *)
Fixpoint read_blocks (block_size : nat) (block : list str) (lines : list str)
  : list (list str) :=
  match lines with
  | [] =>
      match block with
      | [] => []
      | _ :: _ => [block]
      end
  | line :: lines' =>
      let block := block ++ [line] in
      if length block =? block_size then block :: read_blocks block_size [] lines'
      else read_blocks block_size block lines'
  end.

(** [read_large_file(a_file, block_size)]: the blocks the generator
    yields, in order. *)
Definition read_large_file (a_file : string) (block_size : nat)
  : M (list (list str)) :=
  lines ← read_text_lines a_file;
  mret (read_blocks block_size [] lines).

(** [merged_contents[field_key]] is extended by [content + ' '] when the
    key is present and set to [content] when it is not. *)
Fixpoint merge_content (merged_contents : list (list ascii * list ascii))
    (field_key content : str) : list (list ascii * list ascii) :=
  match merged_contents with
  | [] => [(field_key, content)]
  | (k, v) :: rest =>
      if decide (k = field_key) then (k, v ++ content ++ [SP]) :: rest
      else (k, v) :: merge_content rest field_key content
  end.

(** [''.join(filter(lambda x: not x.isdigit(), field.strip()))] *)
Definition field_key_of (field : str) : str :=
  filter (λ c, isdigit c = false) (strip field).

Definition merge_error : string :=
  "Field and content files do not have the same number of lines".

(** [merge_fields_and_contents(field_file, content_file,
    output_field_file, output_content_file)].  The [ValueError] is
    rendered as [Exception] with its message; written line ends are LF,
    as on POSIX systems. *)
Definition merge_fields_and_contents
    (field_file content_file output_field_file output_content_file : string)
  : M unit :=
  fields ← read_text_lines field_file;
  contents ← read_text_lines content_file;
  if negb (length fields =? length contents) then
    raise (Exception (lit merge_error))
  else
    let merged_contents :=
      foldl (λ merged '(field, content),
               merge_content merged (field_key_of field) (strip content))
            [] (zip fields contents) in
    truncate_file output_field_file ;;
    truncate_file output_content_file ;;
    for_each (λ '(field, content),
                append_file output_field_file (field ++ [LF]) ;;
                append_file output_content_file (content ++ [LF]))
             merged_contents.

End file_process.

(* ===================================================================== *)
(** * Utils/text_cleaning.py *)
(* ===================================================================== *)

Module text_cleaning.
Import Py.

(** The attributes of a [TextCleaner] instance. *)
Record TextCleaner : Type := {
  to_lower : bool;
  remove_num : bool;
  remove_punc : bool;
  remove_extra_punc : bool;
  remove_stop : bool;
  remove_single : bool;
  language : string;
  stops : gset (list ascii)
}.

(** [TextCleaner.__init__]; [nltk_words] stands for
    [nltk.corpus.stopwords.words]. *)
Definition init (nltk_words : string → list str)
    (to_lower remove_num remove_punc remove_extra_punc remove_stop
     remove_single : bool)
    (custom_stop : option (list str)) (language : string) : TextCleaner :=
  {| to_lower := to_lower;
     remove_num := remove_num;
     remove_punc := remove_punc;
     remove_extra_punc := remove_extra_punc;
     remove_stop := remove_stop;
     remove_single := remove_single;
     language := language;
     stops := if remove_stop then
                match custom_stop with
                | Some l => list_to_set l
                | None => list_to_set (nltk_words language)
                end
              else ∅ |}.

Definition _to_lower (text : str) : str := lower text.

Definition _remove_numbers (text : str) : str := sub_digits text.

Definition _remove_punctuation (text : str) : str := sub_punct text.

Definition _remove_extra_punctuation (text : str) : str :=
  sub_repeated_punct text.

Definition _remove_extra_whitespace (text : str) : str :=
  strip (sub_spaces false text).

(** The bracket tokens and the genitive that are always dropped with the
    stop words. *)
Definition extra_stops : gset (list ascii) :=
  list_to_set [lit "-lrb-"; lit "-rrb-"; lit "-lsb-"; lit "-rsb-"; lit "'s"].

Definition _remove_stopwords (self : TextCleaner) (text : str) : str :=
  join [SP] (filter (λ word, word ∉ stops self ∪ extra_stops) (split text)).

Definition _remove_single (text : str) : str :=
  let tokens := split text in
  let tokens := filter (λ word, 1 < length word) tokens in
  join [SP] tokens.

(** [TextCleaner.clean] *)
Definition clean (self : TextCleaner) (text : str) : str :=
  let text := if to_lower self then _to_lower text else text in
  let text := if remove_num self then _remove_numbers text else text in
  let text :=
    if remove_extra_punc self then _remove_extra_punctuation text else text in
  let text := if remove_punc self then _remove_punctuation text else text in
  let text := _remove_extra_whitespace text in
  let text := if remove_stop self then _remove_stopwords self text else text in
  let text := if remove_single self then _remove_single text else text in
  text.

End text_cleaning.

(* ===================================================================== *)
(** * Utils/parser.py *)
(* ===================================================================== *)

Module parser.
Import Py.

(** A spaCy token, with the attributes that [SpacyParser] reads. *)
Record Token : Type := {
  text : str;
  lemma_ : str;
  pos_ : str;
  ent_iob_ : str;
  ent_type_ : str
}.

(** What [self.nlp(text)] returns, as far as [SpacyParser] looks at it:
    the tokens of the [Doc] and the texts of its sentences
    ([sent.text for sent in doc.sents]).  The spaCy pipeline itself is
    not part of the sources. *)
Record Doc : Type := {
  tokens : list Token;
  sents : list str
}.

Definition pipeline : Type := str → Doc.

(** [SpacyParser.lemma(sentence)] *)
Definition lemma (nlp : pipeline) (sentence : str) : str :=
  join [SP] (map lemma_ (tokens (nlp sentence))).

(** The inner loop of [ner] and [ner_pos]: the texts of the tokens tagged
    [I] at the front of what is left of the [Doc], and what is left
    after them. *)
Fixpoint entity_tail (doc : list Token) : list str * list Token :=
  match doc with
  | [] => ([], [])
  | token :: rest =>
      if decide (ent_iob_ token = lit "I") then
        let '(ent_tokens, rest') := entity_tail rest in
        (text token :: ent_tokens, rest')
      else ([], doc)
  end.

(** The outer loop of [ner], on what is left of the [Doc] from index [i]
    on.  Every round moves [i] forward, so that as many rounds as there
    are tokens left are enough; [fuel] bounds the rounds. *)
Fixpoint ner_loop (fuel : nat) (doc : list Token) : list str :=
  match fuel with
  | 0 => []
  | S fuel =>
      match doc with
      | [] => []
      | token :: rest =>
          if decide (ent_iob_ token = lit "B") then
            let '(ent_tokens, rest') := entity_tail rest in
            let ent_tokens := text token :: ent_tokens in
            let ent_type := ent_type_ token in
            let merged_ent := join (lit "_") ent_tokens in
            (lit "[NER:" ++ ent_type ++ lit "]" ++ merged_ent)
              :: ner_loop fuel rest'
          else text token :: ner_loop fuel rest
      end
  end.

(** [SpacyParser.ner(sentence)] *)
Definition ner (nlp : pipeline) (sentence : str) : str :=
  let doc := tokens (nlp sentence) in
  join [SP] (ner_loop (length doc) doc).

(** [SpacyParser.pos(sentence)] *)
Definition pos (nlp : pipeline) (sentence : str) : str :=
  let doc := tokens (nlp sentence) in
  join [SP] (map (λ token, text token ++ lit "[POS:" ++ pos_ token ++ lit "]")
                 doc).

(** The outer loop of [ner_pos]. *)
Fixpoint ner_pos_loop (fuel : nat) (doc : list Token) : list str :=
  match fuel with
  | 0 => []
  | S fuel =>
      match doc with
      | [] => []
      | token :: rest =>
          if decide (ent_iob_ token = lit "B") then
            let '(ent_tokens, rest') := entity_tail rest in
            let ent_tokens := text token :: ent_tokens in
            let ent_type := ent_type_ token in
            let merged_ent := join (lit "_") ent_tokens in
            (lit "[NER:" ++ ent_type ++ lit "]" ++ merged_ent)
              :: ner_pos_loop fuel rest'
          else (text token ++ lit "[POS:" ++ pos_ token ++ lit "]")
                 :: ner_pos_loop fuel rest
      end
  end.

(** [SpacyParser.ner_pos(sentence)] *)
Definition ner_pos (nlp : pipeline) (sentence : str) : str :=
  let doc := tokens (nlp sentence) in
  join [SP] (ner_pos_loop (length doc) doc).

(** [SpacyParser.sentence_split(text, lemma, ner, pos)], the three
    keyword arguments as [with_lemma], [with_ner] and [with_pos]. *)
Definition sentence_split (nlp : pipeline) (text : str)
    (with_lemma with_ner with_pos : bool) : list (nat * str) :=
  let text := if with_lemma then lemma nlp text else text in
  let doc := nlp text in
  imap (λ idx sentence_text,
          let sentence_text :=
            if with_ner && with_pos then ner_pos nlp sentence_text
            else if with_ner then ner nlp sentence_text
            else if with_pos then pos nlp sentence_text
            else sentence_text in
          (idx, sentence_text))
       (sents doc).

End parser.

(* ===================================================================== *)
(** * parse.py *)
(* ===================================================================== *)

Module parse.
Import Py file_process.

(** What [parser.sentence_split(line, **kwargs)] does on a line: it
    returns the numbered sentences, or raises an exception [e] whose
    [str(e)] is given.  The spaCy pipeline behind it is not part of the
    sources. *)
Inductive split_outcome : Type :=
| Sentences (sent : list (nat * list ascii))
| Raises (message : list ascii).

(** [parse_line(line, line_id)], the closure of [parse_document].  The
    local variable [sent] is bound only when [sentence_split] returns;
    reading it unbound raises [UnboundLocalError]. *)
Definition parse_line (sentence_split : str → split_outcome) : transform :=
  λ line line_id,
  let '(printed, sent) :=
    match sentence_split line with
    | Sentences sent => ([], Some sent)
    | Raises e => ([e; lit "Exception in line: " ++ line_id], None)
    end in
  match sent with
  | None => (printed, Raise (UnboundLocalError "sent"))
  | Some sent =>
      let sentences :=
        map (λ item, strip_LF item.2) (filter (λ item, strip item.2 ≠ []) sent) in
      let sentence_ids :=
        map (λ item, line_id ++ lit "_" ++ str_of_nat item.1) sent in
      let processed_sentences := join [LF] sentences in
      let processed_sentence_ids := join [LF] sentence_ids in
      (printed, Ok (processed_sentences, processed_sentence_ids))
  end.

(** [parse_document(input_path, input_id, output_path, output_id)];
    [PARSE_CHUNK_SIZE] is 1000 in [global_options.py]. *)
Definition PARSE_CHUNK_SIZE : nat := 1000.

Definition parse_document (sentence_split : str → split_outcome)
    (input_path : string) (input_id : list str)
    (output_path output_id : string) : M unit :=
  process_large_file input_path output_path input_id (Some output_id)
    (parse_line sentence_split) PARSE_CHUNK_SIZE None.

End parse.

(* ===================================================================== *)
(** * clean.py *)
(* ===================================================================== *)

Module clean.
Import Py file_process text_cleaning.

(** [clean_file(input_path, output_path, **kwargs)], with the
    [TextCleaner] built from the keyword arguments. *)
Definition clean_file (input_path output_path : string)
    (a_text_cleaner : TextCleaner) : M unit :=
  total_lines ← line_counter input_path;
  let input_file_ids := map str_of_nat (seq 0 total_lines) in
  process_large_file input_path output_path input_file_ids None
    (λ line _id, ([], Ok (text_cleaning.clean a_text_cleaner line, _id)))
    20000 None.

End clean.

(* ===================================================================== *)
(** * Utils/multiple_word_detect.py *)
(* ===================================================================== *)

Module multiple_word_detect.
Import Py file_process.

(** What a [gensim] phrase model does to the words of a line:
    [bigram_phraser[words]]. *)
Definition phraser : Type := list str → list str.

(** [bigram_transform(line, bigram_phraser)] *)
Definition bigram_transform (line : str) (bigram_phraser : phraser) : str :=
  join [SP] (bigram_phraser (split line)).

(** [file_bigramer(input_path, output_path, model_path, threshold,
    scoring)], with [bigram_model] the phrase model loaded from
    [model_path] and set up with [threshold] and [scoring].  The creation
    of the parent directories is left out; written line ends are LF, as
    on POSIX systems. *)
Definition file_bigramer (input_path output_path : string)
    (bigram_model : phraser) : M unit :=
  input_data ← read_text_lines input_path;
  let data_bigram := map (λ l, bigram_transform l bigram_model) input_data in
  truncate_file output_path ;;
  append_file output_path (join [LF] data_bigram ++ [LF]) ;;
  n ← line_counter output_path;
  assert (length input_data =? n)
         "len(input_data) == file_process.line_counter(output_path)".

End multiple_word_detect.

(* ===================================================================== *)
(** * score.py *)
(* ===================================================================== *)

Module score.
Import Py file_process.

(** A [dict] with text keys, in insertion order. *)
Abbreviation dict := (list (list ascii * list ascii)).

(** [d[key] += text] on a [defaultdict(lambda: "")]: a key that is
    missing enters at the end with the default value, and the sum is
    stored at the key's position. *)
Fixpoint iadd (d : dict) (key text : str) : dict :=
  match d with
  | [] => [(key, [] ++ text)]
  | (k, v) :: d' =>
      if decide (k = key) then (k, v ++ text) :: d'
      else (k, v) :: iadd d' key text
  end.

(** [x.split("_")[0]] *)
Definition doc_id_of (x : str) : str := hd [] (split_on "_"%char x).

(** Lines 37-39: the loop over [enumerate(doc_ids)], entered at index
    [i] with the dictionary built so far. *)
Fixpoint concat_docs (id_doc_dict : dict) (i : nat) (doc_ids : list str)
    (sent_corpus : list str) : result dict :=
  match doc_ids with
  | [] => Ok id_doc_dict
  | id :: doc_ids' =>
      match sent_corpus !! i with
      | Some sentence =>
          concat_docs (iadd id_doc_dict id ([SP] ++ sentence)) (S i)
                      doc_ids' sent_corpus
      | None => Raise IndexError
      end
  end.

(** Lines 33-43 and 53-54, on the two lists read from the files. *)
Definition doc_level_corpus (sent_corpus sent_IDs : list str)
  : result (list str * list str * nat) :=
  if negb (length sent_IDs =? length sent_corpus) then
    Raise (AssertionError "len(sent_IDs) == len(sent_corpus)")
  else
    let doc_ids := map doc_id_of sent_IDs in
    match concat_docs [] 0 doc_ids sent_corpus with
    | Raise e => Raise e
    | Ok id_doc_dict =>
        let corpus := id_doc_dict.*2 in
        let doc_ids := id_doc_dict.*1 in
        if negb (length corpus =? length doc_ids) then
          Raise (AssertionError "len(corpus) == len(doc_ids)")
        else Ok (corpus, doc_ids, length corpus)
    end.

(** The two files the lists are dumped to:
    [Path(global_options.OUTPUT_FOLDER, "scores", "temp", name)], with
    [OUTPUT_FOLDER = "Outputs/"] in [global_options.py]. *)
Definition corpus_doc_level_pickle : string :=
  "Outputs/scores/temp/corpus_doc_level.pickle".

Definition doc_ids_pickle : string := "Outputs/scores/temp/doc_ids.pickle".

(** [with open(path, "wb") as out_f: pickle.dump(obj, out_f)]: the file
    is created or truncated and receives the bytes that [pickle] makes
    of the object, given by [dumps].  The directory of the file is taken
    to exist. *)
Definition pickle_dump {A} (dumps : A → str) (obj : A) (path : string)
  : M unit :=
  truncate_file path ;;
  append_file path (dumps obj).

(** [construct_doc_level_corpus(sent_corpus_file, sent_id_file)], with
    [dumps] the encoding of a list of texts by [pickle]: the message of
    line 29, the two files read, the aggregation, and the two lists
    dumped. *)
Definition construct_doc_level_corpus (dumps : list str → str)
    (sent_corpus_file sent_id_file : string)
  : M (list str * list str * nat) :=
  print (lit "Constructing doc level corpus") ;;
  sent_corpus ← file_to_list sent_corpus_file;
  sent_IDs ← file_to_list sent_id_file;
  '(corpus, doc_ids, N_doc) ← lift (doc_level_corpus sent_corpus sent_IDs);
  pickle_dump dumps corpus corpus_doc_level_pickle ;;
  pickle_dump dumps doc_ids doc_ids_pickle ;;
  mret (corpus, doc_ids, N_doc).

(** [df_dict[word] += 1] on a [defaultdict(int)]. *)
Definition incr (word : str) (df_dict : gmap (list ascii) nat)
  : gmap (list ascii) nat :=
  <[word := default 0 (df_dict !! word) + 1]> df_dict.

(** [calculate_df(corpus)]; the [pickle.dump] of the table is left out.
    The words of a document are visited in the order in which the set
    enumerates them. *)
Definition calculate_df (corpus : list str) : gmap (list ascii) nat :=
  foldl (λ df_dict doc,
           let doc_splited := split doc in
           let words_in_doc : gset (list ascii) := list_to_set doc_splited in
           set_fold incr df_dict words_in_doc)
        ∅ corpus.

End score.

(* ===================================================================== *)
(** * Utils/dictionary.py *)
(* ===================================================================== *)

Module dictionary.
Import Py.

(** Modelled from the spec: [Utils/dictionary.py], whose [score_tf] is
    called by [score.score_tf], is not among the sources.  The
    specification of term-frequency scoring reads: for each document and
    each category, sum the raw occurrence counts of that category's words
    in the document, and emit one score record per document.  A record
    holds the document identifier and one value per category; the words
    of a document are its whitespace-separated tokens. *)
Definition occurrences (word : str) (document : str) : nat :=
  length (filter (λ token, token = word) (split document)).

Definition score_one_document_tf (document : str)
    (expanded_words : list (list ascii * list (list ascii)))
  : list (list ascii * nat) :=
  map (λ '(category, words),
         (category, sum_list (map (λ word, occurrences word document) words)))
      expanded_words.

Definition score_tf (documents document_ids : list str)
    (expanded_words : list (list ascii * list (list ascii)))
  : list (list ascii * list (list ascii * nat)) :=
  map (λ '(document, doc_id),
         (doc_id, score_one_document_tf document expanded_words))
      (zip documents document_ids).

End dictionary.

(* ===================================================================== *)
(** * Vocabulary of the properties *)
(* ===================================================================== *)

Module Props.
Import Py file_process.

(** The number of line feeds of a text. *)
Definition count_LF (s : str) : nat := length (filter (λ c, c = LF) s).

(** The number of lines of a text, counted as [line_counter] counts the
    lines of a file. *)
Definition line_count (s : str) : nat := length (readlines s).


(** A per-line function keeps texts and identifiers aligned on the items
    of a run when, on each of these items on which it returns, the two
    texts it returns have the same number of line feeds, so that they
    hold the same number of lines once joined. *)
Definition aligned (function_name : transform) (items : list (str * str))
  : Prop :=
  Forall (λ item,
            match (function_name item.1 item.2).2 with
            | Ok (text, ids) => count_LF text = count_LF ids
            | Raise _ => True
            end) items.

(** What the calls of a per-line function on the items of one chunk
    print and return, one item after the other, up to the first
    exception. *)
Fixpoint calls (function_name : transform) (items : list (str * str))
  : list str * result (list (str * str)) :=
  match items with
  | [] => ([], Ok [])
  | (line, line_id) :: items' =>
      match function_name line line_id with
      | (printed, Raise e) => (printed, Raise e)
      | (printed, Ok y) =>
          match calls function_name items' with
          | (printed', Raise e) => (printed ++ printed', Raise e)
          | (printed', Ok ys) => (printed ++ printed', Ok (y :: ys))
          end
      end
  end.

(** The files after a round that ended normally. *)
Definition flushed (output_file : string) (output_index_file : option string)
    (outs : list (str * str)) (w : world) : gmap string (list ascii) :=
  let fs := <[output_file := file_content w output_file
                             ++ join [LF] outs.*1 ++ [LF]]> (files w) in
  match output_index_file with
  | Some p => <[p := default [] (fs !! p) ++ join [LF] outs.*2 ++ [LF]]> fs
  | None => fs
  end.


(** A splitter that fails on the line [bad] and takes every other line
    as one sentence. *)
Definition failing_on_bad (line : str) : parse.split_outcome :=
  if bool_decide (strip line = lit "bad") then parse.Raises (lit "boom")
  else parse.Sentences [(0, strip line)].

(** Every file of [w'] starts with what it held in [w]. *)
Definition extends (w w' : world) : Prop :=
  ∀ p, ∃ X : str, file_content w' p = file_content w p ++ X.

(** Two worlds that agree on what was printed and on every file but the
    identifier file [p]. *)
Definition agree_except (p : string) (u1 u2 : world) : Prop :=
  stdout u1 = stdout u2 ∧ ∀ q, q ≠ p → files u1 !! q = files u2 !! q.

(** A fresh run that is interrupted once [k] chunks have been processed
    and flushed: the loop of [process_large_file] stops after [k]
    rounds. *)
Definition interrupted_run (input_file output_file : string)
    (input_file_ids : list str) (output_index_file : option string)
    (function_name : transform) (chunk_size k : nat) : M unit :=
  remove_outputs output_file output_index_file None ;;
  n ← line_counter input_file;
  assert (n =? length input_file_ids) assert_msg ;;
  '(f_in, input_file_ids) ← open_input input_file input_file_ids None;
  for_each (process_chunk output_file output_index_file function_name)
           (take k (chunks chunk_size f_in input_file_ids)).

(** The keys of a list in the order of their first occurrence. *)
Fixpoint first_seen (l : list str) : list str :=
  match l with
  | [] => []
  | x :: l' => x :: filter (λ y, y ≠ x) (first_seen l')
  end.

(** The sentences of document [d], in the order of the sentence file. *)
Definition sentences_of (d : str) (doc_ids sent_corpus : list str)
  : list str :=
  (filter (λ p, p.1 = d) (zip doc_ids sent_corpus)).*2.

(** No whitespace at either end, and no two whitespace characters in a
    row. *)
Definition starts_clean (s : str) : Prop :=
  match s with
  | [] => True
  | c :: _ => isspace c = false
  end.

Fixpoint no_double_space (s : str) : Prop :=
  match s with
  | [] => True
  | c :: s' =>
      match s' with
      | [] => True
      | d :: _ => ¬ (isspace c = true ∧ isspace d = true)
      end ∧ no_double_space s'
  end.

Definition tidy (s : str) : Prop :=
  starts_clean s ∧ starts_clean (rev s) ∧ no_double_space s.

(** A word as [split] yields them: not empty and free of whitespace. *)
Definition word_like (word : str) : Prop :=
  word ≠ [] ∧ Forall (λ c, isspace c = false) word.

(** The number of documents in which a word occurs. *)
Definition documents_with (word : str) (corpus : list str) : nat :=
  length (filter (λ doc, word ∈ split doc) corpus).

(** What the loop of [construct_doc_level_corpus] appends for key [k]
    while it runs over the pairs [ps]. *)
Definition texts (k : str) (ps : list (str * str)) : str :=
  concat (map (λ s, SP :: s) (filter (λ p, p.1 = k) ps).*2).

(** The items of a chunk on which the sentence splitter raises. *)
Definition failing (sentence_split : str → parse.split_outcome)
    (item : str * str) : Prop :=
  ∃ message, sentence_split item.1 = parse.Raises message.

(** A per-line function that returns on every item, and what it
    returns. *)
Definition never_raises (function_name : transform) : Prop :=
  ∀ line line_id, ∃ y, (function_name line line_id).2 = Ok y.

Definition returned (function_name : transform) (item : str * str)
  : str * str :=
  match (function_name item.1 item.2).2 with
  | Ok y => y
  | Raise _ => ([], [])
  end.

(** The only whitespace of a text is the blank. *)
Definition blank_only (s : str) : Prop :=
  Forall (λ c, isspace c = true → c = SP) s.

(** The first four steps of [TextCleaner.clean], which work character by
    character. *)
Definition character_steps (self : text_cleaning.TextCleaner) (text : str)
  : str :=
  let text :=
    if text_cleaning.to_lower self then text_cleaning._to_lower text
    else text in
  let text :=
    if text_cleaning.remove_num self then text_cleaning._remove_numbers text
    else text in
  let text :=
    if text_cleaning.remove_extra_punc self
    then text_cleaning._remove_extra_punctuation text else text in
  let text :=
    if text_cleaning.remove_punc self
    then text_cleaning._remove_punctuation text else text in
  text.

(** The words [TextCleaner.clean] keeps. *)
Definition kept_words (self : text_cleaning.TextCleaner) (words : list str)
  : list str :=
  let words :=
    if text_cleaning.remove_stop self
    then filter (λ word, word ∉ text_cleaning.stops self
                                ∪ text_cleaning.extra_stops) words
    else words in
  if text_cleaning.remove_single self
  then filter (λ word, 1 < length word) words
  else words.

(** No two neighbours of a text are related by [R]. *)
Fixpoint no_adjacent (R : ascii → ascii → Prop) (s : str) : Prop :=
  match s with
  | [] => True
  | c :: s' =>
      match s' with
      | [] => True
      | d :: _ => ¬ R c d
      end ∧ no_adjacent R s'
  end.

(** A punctuation character followed by itself. *)
Definition repeated_punct (c d : ascii) : Prop := ispunct c = true ∧ c = d.

(** The contents merged under key [k] by [merge_fields_and_contents]:
    the first one as it is, each later one followed by a blank. *)
Definition later_contents (k : str) (ps : list (str * str)) : str :=
  concat (map (λ c, c ++ [SP]) (filter (λ p, p.1 = k) ps).*2).

Definition merged_text (k : str) (ps : list (str * str)) : str :=
  match (filter (λ p, p.1 = k) ps).*2 with
  | [] => []
  | c :: cs => c ++ concat (map (λ c, c ++ [SP]) cs)
  end.

(** A group of tokens that [ner] and [ner_pos] turn into one item: a
    token tagged [B] with tokens tagged [I] after it, or one token that
    is not tagged [B]. *)
Definition token_group (group : list parser.Token) : Prop :=
  match group with
  | [] => False
  | token :: inside =>
      if decide (parser.ent_iob_ token = lit "B")
      then Forall (λ t, parser.ent_iob_ t = lit "I") inside
      else inside = []
  end.

(** The item of a group: the tagged entity, or the token rendered by
    [plain]. *)
Definition item_of (plain : parser.Token → str)
    (group : list parser.Token) : str :=
  match group with
  | [] => []
  | token :: inside =>
      if decide (parser.ent_iob_ token = lit "B")
      then lit "[NER:" ++ parser.ent_type_ token ++ lit "]"
           ++ join (lit "_") (map parser.text group)
      else plain token
  end.

(** An entity group takes all the tokens tagged [I] that follow it: the
    group after it does not start with one. *)
Fixpoint maximal (groups : list (list parser.Token)) : Prop :=
  match groups with
  | [] => True
  | group :: groups' =>
      match group, groups' with
      | token :: _, (next :: _) :: _ =>
          parser.ent_iob_ token = lit "B" → parser.ent_iob_ next ≠ lit "I"
      | _, _ => True
      end ∧ maximal groups'
  end.

(** A token with its part-of-speech tag, as [pos] and [ner_pos] write
    it. *)
Definition tagged (token : parser.Token) : str :=
  parser.text token ++ lit "[POS:" ++ parser.pos_ token ++ lit "]".

End Props.

(* ===================================================================== *)
(** * Facts about the monad and the file operations *)
(* ===================================================================== *)

Section MonadFacts.

Lemma bind_unfold {A B} (m : M A) (f : A → M B) (w : world) :
  (m ≫= f) w =
  match m w with
  | (Ok a, w') => f a w'
  | (Raise e, w') => (Raise e, w')
  end.
Proof. reflexivity. Qed.

Lemma for_each_app {A} (body : A → M unit) (l1 l2 : list A) (w : world) :
  for_each body (l1 ++ l2) w = (for_each body l1 ;; for_each body l2) w.
Proof.
  revert w. induction l1 as [|x l1 IH]; intros w; simpl.
  - rewrite bind_unfold. reflexivity.
  - rewrite !bind_unfold. destruct (body x w) as [[[]|e] w1]; [|done].
    rewrite IH, bind_unfold. reflexivity.
Qed.

(** An invariant of the body is an invariant of the loop, whether it
    ends normally or not. *)
Lemma for_each_invariant {A} (I : world → Prop) (body : A → M unit)
    (l : list A) :
  (∀ x w, I w → I (body x w).2) →
  ∀ w, I w → I (for_each body l w).2.
Proof.
  intros Hbody. induction l as [|x l IH]; intros w Hw; simpl; [done|].
  rewrite bind_unfold. specialize (Hbody x w Hw).
  destruct (body x w) as [[[]|e] w1]; simpl in *; auto.
Qed.


(** Two loops whose bodies go in lockstep for a relation on worlds go in
    lockstep themselves. *)
Lemma for_each_lockstep {A} (R : world → world → Prop)
    (body1 body2 : A → M unit) (l : list A) :
  (∀ x w1 w2, R w1 w2 →
     (body1 x w1).1 = (body2 x w2).1 ∧ R (body1 x w1).2 (body2 x w2).2) →
  ∀ w1 w2, R w1 w2 →
    (for_each body1 l w1).1 = (for_each body2 l w2).1 ∧
    R (for_each body1 l w1).2 (for_each body2 l w2).2.
Proof.
  intros Hbody. induction l as [|x l IH]; intros w1 w2 HR; simpl; [done|].
  rewrite !bind_unfold. destruct (Hbody x w1 w2 HR) as [Hr Hw].
  destruct (body1 x w1) as [[[]|e1] u1], (body2 x w2) as [[[]|e2] u2];
    simpl in *; try discriminate; auto.
Qed.

Lemma file_content_insert (fs : gmap string (list ascii)) out (p : string)
    (text : str) :
  file_content (World (<[p := text]> fs) out) p = text.
Proof. unfold file_content. simpl. by rewrite lookup_insert_eq. Qed.

Lemma file_content_insert_ne (fs : gmap string (list ascii)) out
    (p q : string) (text : str) :
  p ≠ q →
  file_content (World (<[p := text]> fs) out) q = file_content (World fs out) q.
Proof. intros. unfold file_content. simpl. by rewrite lookup_insert_ne. Qed.

End MonadFacts.

(* ===================================================================== *)
(** * Facts about lines *)
(* ===================================================================== *)

Section LineFacts.
Import Py Props.

Lemma count_LF_app (s t : str) : count_LF (s ++ t) = count_LF s + count_LF t.
Proof. unfold count_LF. by rewrite filter_app, length_app. Qed.

Lemma count_LF_cons (c : ascii) (s : str) :
  count_LF (c :: s) = (if bool_decide (c = LF) then 1 else 0) + count_LF s.
Proof.
  unfold count_LF. rewrite filter_cons.
  case_bool_decide; destruct (decide (c = LF)); done.
Qed.

(** A line feed closes the line under construction, whatever precedes. *)
Lemma readlines_go_length (cur t rest : str) :
  length (readlines_go cur (t ++ LF :: rest)) = S (count_LF t) + line_count rest.
Proof.
  revert cur. induction t as [|c t IH]; intros cur; simpl.
  - reflexivity.
  - rewrite count_LF_cons. case_bool_decide; simpl; rewrite IH; lia.
Qed.


(** A text without line feed, followed by one, is read back as one line. *)
Lemma readlines_go_one (cur e rest : str) :
  LF ∉ e →
  readlines_go cur (e ++ LF :: rest) = (rev cur ++ e ++ [LF]) :: readlines rest.
Proof.
  revert cur. induction e as [|c e IH]; intros cur Hnot; simpl.
  - reflexivity.
  - rewrite bool_decide_eq_false_2 by set_solver.
    rewrite IH by set_solver. simpl. by rewrite <- app_assoc.
Qed.

Lemma readlines_terminated (es : list str) :
  Forall (λ e, LF ∉ e) es →
  readlines (concat (map (λ e, e ++ [LF]) es)) = map (λ e, e ++ [LF]) es.
Proof.
  induction 1 as [|e es He _ IH]; [done|]. simpl.
  unfold readlines at 1. rewrite <- app_assoc. simpl.
  rewrite readlines_go_one by done. by rewrite IH.
Qed.

Lemma replace_LF_CR_no_LF (e : str) : LF ∉ replace CR SP (replace LF SP e).
Proof.
  unfold replace. rewrite list_elem_of_fmap. intros (c & Hc & Hin).
  apply list_elem_of_fmap in Hin as (d & -> & _).
  repeat case_bool_decide; first [discriminate | congruence].
Qed.

Lemma join_cons_cons (sep x y : str) (l : list str) :
  join sep (x :: y :: l) = x ++ sep ++ join sep (y :: l).
Proof. reflexivity. Qed.


End LineFacts.

(* ===================================================================== *)
(** * list_to_file *)
(* ===================================================================== *)

Section ListToFile.
Import Py file_process Props.

Lemma for_each_append (p : string) (g : str → str) (l : list str)
    (fs : gmap string (list ascii)) (out : list str) (c : str) :
  fs !! p = Some c →
  for_each (λ e, append_file p (g e)) l (World fs out) =
  (Ok (), World (<[p := c ++ concat (map g l)]> fs) out).
Proof.
  revert fs c. induction l as [|e l IH]; intros fs c Hc; simpl.
  - rewrite app_nil_r, insert_id; done.
  - rewrite bind_unfold. unfold append_file at 1, file_content. simpl.
    rewrite Hc. simpl.
    rewrite (IH _ (c ++ g e)) by apply lookup_insert_eq.
    by rewrite insert_insert_eq, app_assoc.
Qed.

(** C8.  [list_to_file] with [validate=True] always returns normally:
    the file it leaves holds exactly one line per element of the list,
    namely the element with every LF and CR replaced by a blank, so the
    closing assertion on the line count holds. *)
Theorem list_to_file_one_line_per_element (lst : list str) (a_file : string)
    (w : world) :
  let line := λ e, replace CR SP (replace LF SP e) ++ [LF] in
  list_to_file lst a_file true w =
    (Ok (), World (<[a_file := concat (map line lst)]> (files w)) (stdout w))
  ∧ readlines (concat (map line lst)) = map line lst
  ∧ line_count (concat (map line lst)) = length lst.
Proof.
  intros line.
  assert (Hread : readlines (concat (map line lst)) = map line lst).
  { assert (Hline : map line lst =
      map (λ e, e ++ [LF]) (map (λ e, replace CR SP (replace LF SP e)) lst))
      by (by rewrite map_map).
    rewrite Hline. apply readlines_terminated.
    apply Forall_forall. intros e He.
      apply list_elem_of_fmap in He as (e' & -> & _).
      apply replace_LF_CR_no_LF. }
  split; [|split; [done|]].
  - unfold list_to_file. rewrite bind_unfold. unfold truncate_file at 1.
    rewrite bind_unfold.
    rewrite (for_each_append a_file line lst _ _ []) by apply lookup_insert_eq.
    rewrite insert_insert_eq. simpl.
    unfold line_counter, read_file. rewrite !bind_unfold. simpl.
    rewrite lookup_insert_eq. simpl.
    rewrite Hread, length_map, Nat.eqb_refl. reflexivity.
  - unfold line_count. by rewrite Hread, length_map.
Qed.

End ListToFile.

(* ===================================================================== *)
(** * The chunked transformer, step by step *)
(* ===================================================================== *)

Section TransformerSteps.
Import Py file_process Props.

Lemma map_append_calls (function_name : transform) (items : list (str * str))
    (w : world) :
  map_append (λ '(line, line_id), call function_name line line_id) items w =
  ((calls function_name items).2,
   World (files w) (stdout w ++ (calls function_name items).1)).
Proof.
  revert w. induction items as [|[line line_id] items IH]; intros [fs out]; simpl.
  - by rewrite app_nil_r.
  - rewrite bind_unfold. unfold call at 1. simpl.
    destruct (function_name line line_id) as [printed [y|e]]; simpl; [|done].
    rewrite bind_unfold, IH. simpl.
    destruct (calls function_name items) as [printed' [ys|e]]; simpl;
      by rewrite app_assoc.
Qed.

(** A round writes nothing unless every call of the round returned. *)
Lemma process_chunk_unfold (output_file : string)
    (output_index_file : option string) (function_name : transform)
    (lines ids : list str) (w : world) :
  process_chunk output_file output_index_file function_name (lines, ids) w =
  match calls function_name (zip lines ids) with
  | (printed, Raise e) => (Raise e, World (files w) (stdout w ++ printed))
  | (printed, Ok outs) =>
      (Ok (), World (flushed output_file output_index_file outs w)
                    (stdout w ++ printed))
  end.
Proof.
  unfold process_chunk. rewrite bind_unfold, map_append_calls.
  destruct (calls function_name (zip lines ids)) as [printed [outs|e]];
    simpl; [|done].
  rewrite bind_unfold. unfold append_file, flushed, file_content. simpl.
  destruct output_index_file; reflexivity.
Qed.

(** The removal step never fails and never prints. *)
Lemma remove_outputs_ok output_file output_index_file start_index w :
  (remove_outputs output_file output_index_file start_index w).1 = Ok () ∧
  stdout (remove_outputs output_file output_index_file start_index w).2
    = stdout w.
Proof.
  unfold remove_outputs, try_except_pass.
  destruct start_index; [done|]. rewrite bind_unfold. unfold os_remove.
  destruct (files w !! output_file); simpl; [|done].
  destruct output_index_file as [p|]; simpl; [|done].
  destruct (delete output_file (files w) !! p); done.
Qed.

Lemma remove_outputs_resume output_file output_index_file k w :
  remove_outputs output_file output_index_file (Some k) w = (Ok (), w).
Proof. reflexivity. Qed.

(** The removal step leaves a file as it is or, on a fresh run and for
    an output file, removes it. *)
Lemma remove_outputs_files output_file output_index_file start_index w p :
  let w1 := (remove_outputs output_file output_index_file start_index w).2 in
  files w1 !! p = files w !! p ∨
  (start_index = None ∧ (p = output_file ∨ output_index_file = Some p) ∧
   files w1 !! p = None).
Proof.
  unfold remove_outputs, try_except_pass.
  destruct start_index; [by left|]. rewrite bind_unfold. unfold os_remove.
  destruct (files w !! output_file) eqn:Hout; simpl; [|by left].
  destruct output_index_file as [q|]; simpl.
  - destruct (delete output_file (files w) !! q) eqn:Hq; simpl.
    + destruct (decide (p = q)) as [->|Hpq].
      { right. rewrite lookup_delete_eq. auto. }
      rewrite lookup_delete_ne by done.
      destruct (decide (p = output_file)) as [->|Hpo].
      { right. rewrite lookup_delete_eq. auto. }
      left. by rewrite lookup_delete_ne.
    + destruct (decide (p = output_file)) as [->|Hpo].
      { right. rewrite lookup_delete_eq. auto. }
      left. by rewrite lookup_delete_ne.
  - destruct (decide (p = output_file)) as [->|Hpo].
    { right. rewrite lookup_delete_eq. auto. }
    left. by rewrite lookup_delete_ne.
Qed.

(** [process_large_file] after its removal step: the checks, then the
    loop over the chunks. *)
Lemma process_large_file_unfold input_file output_file input_file_ids
    output_index_file function_name chunk_size start_index w :
  process_large_file input_file output_file input_file_ids output_index_file
    function_name chunk_size start_index w =
  let w1 := (remove_outputs output_file output_index_file start_index w).2 in
  match files w1 !! input_file with
  | None => (Raise (FileNotFoundError input_file), w1)
  | Some content =>
      let f_in := readlines content in
      if length f_in =? length input_file_ids then
        match start_index with
        | Some k =>
            if k <=? length f_in then
              for_each
                (process_chunk output_file output_index_file function_name)
                (chunks chunk_size (drop k f_in) (drop k input_file_ids)) w1
            else (Raise StopIteration, w1)
        | None =>
            for_each
              (process_chunk output_file output_index_file function_name)
              (chunks chunk_size f_in input_file_ids) w1
        end
      else (Raise (AssertionError assert_msg), w1)
  end.
Proof.
  unfold process_large_file. rewrite bind_unfold.
  destruct (remove_outputs_ok output_file output_index_file start_index w)
    as [Hok _].
  destruct (remove_outputs output_file output_index_file start_index w)
    as [r w1]. simpl in *. subst r.
  unfold line_counter, open_input, read_file. rewrite !bind_unfold.
  destruct (files w1 !! input_file) as [content|] eqn:Hc; simpl; [|done].
  destruct (length (readlines content) =? length input_file_ids); simpl;
    [|done].
  rewrite !bind_unfold. simpl. rewrite !bind_unfold, Hc. simpl.
  destruct start_index as [k|]; simpl; [|done].
  destruct (k <=? length (readlines content)); done.
Qed.

End TransformerSteps.

(* ===================================================================== *)
(** * Count mismatch *)
(* ===================================================================== *)

Section CountMismatch.
Import Py file_process Props.

(** C3, as the code has it.  When the input file and the identifier list
    differ in length, [process_large_file] raises the assertion error
    without reading a line, calling the per-line function, printing or
    writing: no file gains or changes content.  When [start_index] is
    given the world is left exactly as it was; on a fresh run the only
    change is that output files may have been removed, which happens
    before the check.  The corpus is assumed not to be one of its own
    output files. *)
Theorem count_mismatch_aborts (input_file output_file : string)
    (input_file_ids : list str) (output_index_file : option string)
    (function_name : transform) (chunk_size : nat)
    (start_index : option nat) (w : world) (content : str) :
  files w !! input_file = Some content →
  length (readlines content) ≠ length input_file_ids →
  input_file ≠ output_file →
  output_index_file ≠ Some input_file →
  ∃ w',
    process_large_file input_file output_file input_file_ids
      output_index_file function_name chunk_size start_index w
    = (Raise (AssertionError assert_msg), w') ∧
    stdout w' = stdout w ∧
    (∀ k, start_index = Some k → w' = w) ∧
    (∀ p, files w' !! p = files w !! p ∨
          (start_index = None ∧
           (p = output_file ∨ output_index_file = Some p) ∧
           files w' !! p = None)).
Proof.
  intros Hin Hlen Hio Hii.
  exists (remove_outputs output_file output_index_file start_index w).2.
  split; [|split; [|split]].
  - rewrite process_large_file_unfold. cbv zeta.
    destruct (remove_outputs_files output_file output_index_file
                start_index w input_file) as [Heq|(_ & [?|?] & _)];
      [|congruence..].
    rewrite Heq, Hin. by rewrite (proj2 (Nat.eqb_neq _ _) Hlen).
  - apply remove_outputs_ok.
  - by intros k ->.
  - apply remove_outputs_files.
Qed.

(** The hypotheses are met by a resumed run on a two-line corpus with
    one identifier. *)
Lemma count_mismatch_aborts_witness :
  let w := World (<["in" := lit "a
b
"]> (<["out" := lit "old
"]> ∅)) [] in
  ∃ w',
    process_large_file "in" "out" [lit "1"] (Some "idx")
      (λ _ line_id, ([], Ok (line_id, line_id))) 100 (Some 0) w
    = (Raise (AssertionError assert_msg), w') ∧
    stdout w' = stdout w ∧
    (∀ k, Some 0 = Some k → w' = w) ∧
    (∀ p, files w' !! p = files w !! p ∨
          (Some 0 = @None nat ∧ (p = "out" ∨ Some "idx" = Some p) ∧
           files w' !! p = None)).
Proof.
  intros w.
  apply (count_mismatch_aborts "in" "out" [lit "1"] (Some "idx") _ 100
           (Some 0) w (lit "a
b
")).
  - reflexivity.
  - vm_compute. lia.
  - discriminate.
  - discriminate.
Defined.

(** C3 as stated fails on a fresh run: the former output files are
    removed before the count is checked. *)
Lemma count_mismatch_removes_outputs :
  let w := World (<["in" := lit "a
b
"]> (<["out" := lit "old
"]> (<["idx" := lit "0
"]> ∅))) [] in
  let run := process_large_file "in" "out" [lit "1"] (Some "idx")
               (λ _ line_id, ([], Ok (line_id, line_id))) 100 None w in
  run.1 = Raise (AssertionError assert_msg) ∧
  files w !! "out" = Some (lit "old
") ∧
  files run.2 !! "out" = None ∧
  files w !! "idx" = Some (lit "0
") ∧
  files run.2 !! "idx" = None.
Proof. vm_compute. repeat split. Qed.

(** The two removals share one [try] block: when there is no output
    corpus to remove, a former identifier file is not removed either and
    the fresh run appends to it. *)
Example stale_index_file_survives :
  let w := World (<["in" := lit "a
"]> (<["idx" := lit "stale
"]> ∅)) [] in
  let run := process_large_file "in" "out" [lit "1"] (Some "idx")
               (λ line line_id, ([], Ok (strip line, line_id))) 100 None w in
  run.1 = Ok () ∧
  files run.2 !! "out" = Some (lit "a
") ∧
  files run.2 !! "idx" = Some (lit "stale
1
").
Proof. vm_compute. repeat split. Qed.

End CountMismatch.

(* ===================================================================== *)
(** * Alignment of the two outputs *)
(* ===================================================================== *)

Section Alignment.
Import Py file_process Props.









End Alignment.

Section AlignmentExamples.
Import Py file_process Props.



End AlignmentExamples.

(* ===================================================================== *)
(** * parse_line *)
(* ===================================================================== *)

Section ParseLine.
Import Py file_process Props parse.

(** When the sentence splitter raises, [parse_line] prints the exception
    and the identifier of the line, and then raises itself: the local
    variable [sent] was never bound. *)
Lemma parse_line_raises (sentence_split : str → split_outcome)
    (line line_id message : str) :
  sentence_split line = Raises message →
  parse_line sentence_split line line_id =
  ([message; lit "Exception in line: " ++ line_id],
   Raise (UnboundLocalError "sent")).
Proof. intros H. unfold parse_line. by rewrite H. Qed.

(** Blank sentences are dropped from the text but keep their identifier:
    here one line of text comes with two identifiers. *)
Example parse_line_blank_sentence :
  parse_line (λ _, Sentences [(0, lit "Sold."); (1, lit " ")])
             (lit "Sold.  ") (lit "7")
  = ([], Ok (lit "Sold.", lit "7_0
7_1")).
Proof. reflexivity. Qed.

(** C4 on a three-line corpus whose second line makes the splitter
    fail.  The failure is printed with the identifier of the line, but
    the run then ends with [UnboundLocalError]: nothing is written, not
    even the first line, and the third line is never processed. *)
Theorem parse_failure_aborts_run :
  let w := World (<["in" := lit "good
bad
last
"]> ∅) [] in
  let run := parse_document failing_on_bad "in"
               [lit "1"; lit "2"; lit "3"] "out" "idx" w in
  run.1 = Raise (UnboundLocalError "sent") ∧
  stdout run.2 = [lit "boom"; lit "Exception in line: 2"] ∧
  files run.2 !! "out" = None ∧
  files run.2 !! "idx" = None.
Proof. vm_compute. repeat split. Qed.

(** The same corpus in chunks of one line: the first line is flushed,
    the second ends the run, the third is lost. *)
Example parse_failure_loses_later_chunks :
  let w := World (<["in" := lit "good
bad
last
"]> ∅) [] in
  let run := process_large_file "in" "out" [lit "1"; lit "2"; lit "3"]
               (Some "idx") (parse_line failing_on_bad) 1 None w in
  run.1 = Raise (UnboundLocalError "sent") ∧
  files run.2 !! "out" = Some (lit "good
") ∧
  files run.2 !! "idx" = Some (lit "1_0
").
Proof. vm_compute. repeat split. Qed.

End ParseLine.

(* ===================================================================== *)
(** * Chunks *)
(* ===================================================================== *)

Section Chunks.
Import Py file_process Props.
Context {A : Type}.
Implicit Types l : list A.

Lemma grouper_go_fuel (n fuel1 fuel2 : nat) l :
  length l ≤ fuel1 → length l ≤ fuel2 →
  grouper_go fuel1 (S n) l = grouper_go fuel2 (S n) l.
Proof.
  revert fuel2 l. induction fuel1 as [|fuel1 IH]; intros fuel2 l H1 H2.
  - destruct l; [|simpl in H1; lia]. by destruct fuel2.
  - destruct l as [|x l]; [by destruct fuel2|].
    destruct fuel2 as [|fuel2]; [simpl in H2; lia|].
    simpl. f_equal. apply IH; rewrite length_drop; simpl in *; lia.
Qed.

Lemma grouper_nil (n : nat) : grouper n (@nil A) = [].
Proof. by destruct n. Qed.

(** Enough fuel is provided: a non-empty list yields its first [n] items
    and then the groups of the rest. *)
Lemma grouper_cons (n : nat) (x : A) l :
  grouper (S n) (x :: l) =
  take (S n) (x :: l) :: grouper (S n) (drop (S n) (x :: l)).
Proof.
  unfold grouper. simpl. f_equal.
  apply grouper_go_fuel; rewrite ?length_drop; lia.
Qed.

Lemma drop_grouper (k n : nat) l :
  drop k (grouper n l) = grouper n (drop (k * n) l).
Proof.
  destruct n as [|n]; [apply drop_nil|].
  revert l. induction k as [|k IH]; intros l; [done|].
  destruct l as [|x l]; [by rewrite drop_nil, grouper_nil|].
  rewrite grouper_cons. change (drop (S k) (?a :: ?r)) with (drop k r).
  by rewrite IH, drop_drop.
Qed.

Lemma drop_min (k : nat) l : drop (k `min` length l) l = drop k l.
Proof.
  destruct (decide (k ≤ length l)).
  - by rewrite Nat.min_l.
  - rewrite Nat.min_r, drop_all, drop_ge by lia. done.
Qed.

End Chunks.

Section ChunkPairs.
Import Py file_process Props.

Lemma drop_chunks (k chunk_size : nat) (f_in ids : list str) :
  drop k (chunks chunk_size f_in ids) =
  chunks chunk_size (drop (k * chunk_size) f_in) (drop (k * chunk_size) ids).
Proof. unfold chunks. by rewrite zip_with_drop, !drop_grouper. Qed.

End ChunkPairs.

(* ===================================================================== *)
(** * Resuming a run *)
(* ===================================================================== *)

Section Resume.
Import Py file_process Props.

(** A round touches the two output files only. *)
Lemma process_chunk_frame output_file output_index_file function_name
    chunk w (q : string) :
  q ≠ output_file → output_index_file ≠ Some q →
  files (process_chunk output_file output_index_file function_name chunk w).2
    !! q = files w !! q.
Proof.
  intros Hq Hidx. destruct chunk as [lines ids]. rewrite process_chunk_unfold.
  destruct (calls _ _) as [printed [outs|e]]; [|done].
  unfold flushed. simpl. destruct output_index_file as [p|].
  - rewrite !lookup_insert_ne; congruence.
  - by rewrite lookup_insert_ne.
Qed.

Lemma loop_frame output_file output_index_file function_name chunks w
    (q : string) :
  q ≠ output_file → output_index_file ≠ Some q →
  files (for_each (process_chunk output_file output_index_file function_name)
           chunks w).2 !! q = files w !! q.
Proof.
  intros Hq Hidx.
  apply (for_each_invariant (λ w', files w' !! q = files w !! q)); [|done].
  intros x u Hu. by rewrite process_chunk_frame.
Qed.

(** A round only appends. *)
Lemma process_chunk_extends output_file output_index_file function_name
    chunk w :
  extends w
    (process_chunk output_file output_index_file function_name chunk w).2.
Proof.
  intros q. destruct chunk as [lines ids]. rewrite process_chunk_unfold.
  destruct (calls _ _) as [printed [outs|e]]; simpl.
  2: { exists []. by rewrite app_nil_r. }
  unfold flushed, file_content. simpl.
  destruct output_index_file as [p|].
  - destruct (decide (p = q)) as [->|Hp].
    + rewrite lookup_insert_eq. simpl.
      destruct (decide (output_file = q)) as [->|Ho].
      * rewrite lookup_insert_eq. simpl. rewrite <- !app_assoc. eauto.
      * rewrite lookup_insert_ne by done. eauto.
    + rewrite lookup_insert_ne by done.
      destruct (decide (output_file = q)) as [->|Ho].
      * rewrite lookup_insert_eq. simpl. eauto.
      * rewrite lookup_insert_ne by done. exists []. by rewrite app_nil_r.
  - destruct (decide (output_file = q)) as [->|Ho].
    + rewrite lookup_insert_eq. simpl. eauto.
    + rewrite lookup_insert_ne by done. exists []. by rewrite app_nil_r.
Qed.

Lemma extends_trans (w1 w2 w3 : world) :
  extends w1 w2 → extends w2 w3 → extends w1 w3.
Proof.
  intros H12 H23 p. destruct (H12 p) as [X HX], (H23 p) as [Y HY].
  exists (X ++ Y). by rewrite HY, HX, app_assoc.
Qed.

Lemma loop_extends output_file output_index_file function_name chunks w :
  extends w
    (for_each (process_chunk output_file output_index_file function_name)
       chunks w).2.
Proof.
  apply (for_each_invariant (extends w)).
  - intros x u Hu. eapply extends_trans; [exact Hu|].
    apply process_chunk_extends.
  - intros p. exists []. by rewrite app_nil_r.
Qed.

Lemma interrupted_run_unfold input_file output_file input_file_ids
    output_index_file function_name chunk_size k w :
  interrupted_run input_file output_file input_file_ids output_index_file
    function_name chunk_size k w =
  let w1 := (remove_outputs output_file output_index_file None w).2 in
  match files w1 !! input_file with
  | None => (Raise (FileNotFoundError input_file), w1)
  | Some content =>
      let f_in := readlines content in
      if length f_in =? length input_file_ids then
        for_each (process_chunk output_file output_index_file function_name)
          (take k (chunks chunk_size f_in input_file_ids)) w1
      else (Raise (AssertionError assert_msg), w1)
  end.
Proof.
  unfold interrupted_run. rewrite bind_unfold.
  destruct (remove_outputs_ok output_file output_index_file None w)
    as [Hok _].
  destruct (remove_outputs output_file output_index_file None w)
    as [r w1]. simpl in *. subst r.
  unfold line_counter, open_input, read_file. rewrite !bind_unfold.
  destruct (files w1 !! input_file) as [content|] eqn:Hc; simpl; [|done].
  destruct (length (readlines content) =? length input_file_ids); simpl;
    [|done].
  rewrite !bind_unfold. simpl. by rewrite !bind_unfold, Hc.
Qed.

(** C5.  Take a fresh run that is interrupted when [k] chunks have been
    processed and flushed, leaving the world [w1].  Running
    [process_large_file] again on [w1] with [start_index] set to the
    number of input lines flushed so far, that is [k * chunk_size] or all
    the lines when there are fewer, ends exactly as the uninterrupted
    fresh run ends: the same result and the same world, hence the same
    content of every file, nothing duplicated and nothing missing.  The
    resumed run only appends: each file still starts with what it held
    before.  The corpus is assumed not to be one of its own output
    files. *)
Theorem resume_completes_fresh_run (input_file output_file : string)
    (input_file_ids : list str) (output_index_file : option string)
    (function_name : transform) (chunk_size k : nat) (w w1 : world) :
  input_file ≠ output_file →
  output_index_file ≠ Some input_file →
  interrupted_run input_file output_file input_file_ids output_index_file
    function_name chunk_size k w = (Ok (), w1) →
  let flushed_lines := (k * chunk_size) `min` length input_file_ids in
  let resumed :=
    process_large_file input_file output_file input_file_ids
      output_index_file function_name chunk_size (Some flushed_lines) w1 in
  resumed =
    process_large_file input_file output_file input_file_ids
      output_index_file function_name chunk_size None w
  ∧ extends w1 resumed.2.
Proof.
  intros Hio Hii Hrun flushed_lines resumed.
  rewrite interrupted_run_unfold in Hrun. cbv zeta in Hrun.
  set (w0 := (remove_outputs output_file output_index_file None w).2) in *.
  destruct (files w0 !! input_file) as [content|] eqn:Hc; [|done].
  destruct (length (readlines content) =? length input_file_ids) eqn:Hlen;
    [|done].
  apply Nat.eqb_eq in Hlen.
  set (body := process_chunk output_file output_index_file function_name)
    in *.
  set (all := chunks chunk_size (readlines content) input_file_ids) in *.
  assert (Hin1 : files w1 !! input_file = Some content).
  { rewrite <- Hc.
    replace w1 with (for_each body (take k all) w0).2 by (by rewrite Hrun).
    by apply loop_frame. }
  assert (Hres : resumed = for_each body (drop k all) w1).
  { subst resumed. rewrite process_large_file_unfold. cbv zeta.
    rewrite remove_outputs_resume. cbn [snd]. rewrite Hin1.
    rewrite (proj2 (Nat.eqb_eq _ _) Hlen).
    assert (Hle : flushed_lines ≤ length (readlines content))
      by (subst flushed_lines; lia).
    rewrite (proj2 (Nat.leb_le _ _) Hle).
    subst all flushed_lines. rewrite drop_chunks.
    rewrite <- Hlen at 1. by rewrite !drop_min. }
  split.
  - rewrite Hres, process_large_file_unfold. cbv zeta. fold w0.
    rewrite Hc, (proj2 (Nat.eqb_eq _ _) Hlen). fold body all.
    rewrite <- (take_drop k all) at 2.
    rewrite for_each_app, bind_unfold, Hrun. reflexivity.
  - rewrite Hres. apply loop_extends.
Qed.

End Resume.

Section ResumeExample.
Import Py file_process Props.

(** The hypotheses are met by a run over three lines in chunks of two
    that is interrupted after the first chunk. *)
Lemma resume_completes_fresh_run_witness :
  let f : transform := λ line line_id, ([], Ok (strip line, line_id)) in
  let ids := [lit "1"; lit "2"; lit "3"] in
  let w := World (<["in" := lit "a
b
c
"]> (<["out" := lit "stale
"]> ∅)) [] in
  let w1 := (interrupted_run "in" "out" ids (Some "idx") f 2 1 w).2 in
  let resumed :=
    process_large_file "in" "out" ids (Some "idx") f 2
      (Some ((1 * 2) `min` length ids)) w1 in
  resumed = process_large_file "in" "out" ids (Some "idx") f 2 None w
  ∧ extends w1 resumed.2.
Proof.
  intros f ids w w1.
  apply (resume_completes_fresh_run "in" "out" ids (Some "idx") f 2 1 w w1).
  - discriminate.
  - discriminate.
  - vm_compute. reflexivity.
Defined.

(** What the two runs of the witness leave in the output files. *)
Example resume_example_files :
  let f : transform := λ line line_id, ([], Ok (strip line, line_id)) in
  let ids := [lit "1"; lit "2"; lit "3"] in
  let w := World (<["in" := lit "a
b
c
"]> (<["out" := lit "stale
"]> ∅)) [] in
  let w1 := (interrupted_run "in" "out" ids (Some "idx") f 2 1 w).2 in
  let w2 := (process_large_file "in" "out" ids (Some "idx") f 2 (Some 2) w1).2 in
  files w1 !! "out" = Some (lit "a
b
") ∧
  files w2 !! "out" = Some (lit "a
b
c
") ∧
  files w2 !! "idx" = Some (lit "1
2
3
").
Proof. vm_compute. repeat split. Qed.

End ResumeExample.

(* ===================================================================== *)
(** * Running without an identifier file *)
(* ===================================================================== *)

Section NoIndexFile.
Import Py file_process Props.

Lemma remove_outputs_agree output_file (p : string) start_index w :
  agree_except p (remove_outputs output_file None start_index w).2
                 (remove_outputs output_file (Some p) start_index w).2.
Proof.
  unfold remove_outputs, try_except_pass.
  destruct start_index; [done|]. rewrite !bind_unfold. unfold os_remove.
  destruct (files w !! output_file); simpl; [|done].
  destruct (delete output_file (files w) !! p); simpl; [|done].
  split; [done|]. intros q Hq. simpl. by rewrite (lookup_delete_ne _ p q).
Qed.

Lemma process_chunk_agree output_file (p : string) function_name chunk u1 u2 :
  p ≠ output_file →
  agree_except p u1 u2 →
  (process_chunk output_file None function_name chunk u1).1 =
  (process_chunk output_file (Some p) function_name chunk u2).1 ∧
  agree_except p (process_chunk output_file None function_name chunk u1).2
                 (process_chunk output_file (Some p) function_name chunk u2).2.
Proof.
  intros Hp [Hout Hfiles]. destruct chunk as [lines ids].
  rewrite !process_chunk_unfold.
  destruct (calls _ _) as [printed [outs|e]]; simpl.
  - split; [done|]. split; simpl; [by rewrite Hout|].
    intros q Hq. unfold flushed, file_content.
    rewrite (lookup_insert_ne _ p q) by done.
    rewrite (Hfiles output_file) by done.
    destruct (decide (output_file = q)) as [->|Ho].
    + by rewrite !lookup_insert_eq.
    + rewrite !lookup_insert_ne by done. by apply Hfiles.
  - split; [done|]. split; simpl; [by rewrite Hout|done].
Qed.

Lemma clean_file_unfold input_path output_path a_text_cleaner w :
  clean.clean_file input_path output_path a_text_cleaner w =
  match files w !! input_path with
  | None => (Raise (FileNotFoundError input_path), w)
  | Some content =>
      process_large_file input_path output_path
        (map str_of_nat (seq 0 (length (readlines content)))) None
        (λ line _id, ([], Ok (text_cleaning.clean a_text_cleaner line, _id)))
        20000 None w
  end.
Proof.
  unfold clean.clean_file, line_counter, read_file. rewrite !bind_unfold.
  destruct (files w !! input_path); reflexivity.
Qed.

(** Without an identifier file only the output corpus can change. *)
Lemma no_index_frame input_file output_file input_file_ids function_name
    chunk_size start_index w (q : string) :
  q ≠ output_file →
  files (process_large_file input_file output_file input_file_ids None
           function_name chunk_size start_index w).2 !! q = files w !! q.
Proof.
  intros Hq. rewrite process_large_file_unfold. cbv zeta.
  destruct (remove_outputs_files output_file None start_index w q)
    as [Heq|(_ & [?|?] & _)]; [|done..].
  rewrite <- Heq.
  destruct (files _ !! input_file); [|done].
  destruct (_ =? _); [|done].
  destruct start_index as [k|]; [|by apply loop_frame].
  destruct (k <=? _); [by apply loop_frame|done].
Qed.

(** C10.  A run without identifier file ([output_index_file=None]) ends
    as the same run with an identifier file [p] ends, prints the same,
    and leaves the same output corpus; it changes no file but the output
    corpus.  [clean_file] is such a run, so it too changes no file but
    its output.  The identifier file of the run compared with is assumed
    to be neither the corpus nor the output corpus, and the corpus not to
    be its own output. *)
Theorem index_file_is_optional (input_file output_file p : string)
    (input_file_ids : list str) (function_name : transform)
    (chunk_size : nat) (start_index : option nat) (w : world) :
  p ≠ output_file →
  p ≠ input_file →
  input_file ≠ output_file →
  let without :=
    process_large_file input_file output_file input_file_ids None
      function_name chunk_size start_index w in
  let with_index :=
    process_large_file input_file output_file input_file_ids (Some p)
      function_name chunk_size start_index w in
  without.1 = with_index.1 ∧
  stdout without.2 = stdout with_index.2 ∧
  files without.2 !! output_file = files with_index.2 !! output_file ∧
  (∀ q, q ≠ output_file → files without.2 !! q = files w !! q) ∧
  (∀ a_text_cleaner q, q ≠ output_file →
     files (clean.clean_file input_file output_file a_text_cleaner w).2 !! q
     = files w !! q).
Proof.
  intros Hpo Hpi _ without with_index.
  assert (Hboth : without.1 = with_index.1 ∧
                  agree_except p without.2 with_index.2).
  { subst without with_index. rewrite !process_large_file_unfold. cbv zeta.
    pose proof (remove_outputs_agree output_file p start_index w) as Hag.
    set (u1 := (remove_outputs output_file None start_index w).2) in *.
    set (u2 := (remove_outputs output_file (Some p) start_index w).2) in *.
    assert (Hloop : ∀ l,
      (for_each (process_chunk output_file None function_name) l u1).1 =
      (for_each (process_chunk output_file (Some p) function_name) l u2).1 ∧
      agree_except p
        (for_each (process_chunk output_file None function_name) l u1).2
        (for_each (process_chunk output_file (Some p) function_name) l u2).2).
    { intros l. apply for_each_lockstep; [|done].
      intros x v1 v2 Hv. by apply process_chunk_agree. }
    rewrite <- (proj2 Hag input_file) by done.
    destruct (files u1 !! input_file); [|done].
    destruct (_ =? _); [|done].
    destruct start_index as [k|]; [|apply Hloop].
    destruct (k <=? _); [apply Hloop|done]. }
  destruct Hboth as [Hres [Hout Hfiles]].
  split; [done|]. split; [done|]. split; [by apply Hfiles|]. split.
  - intros q Hq. by apply no_index_frame.
  - intros a_text_cleaner q Hq. rewrite clean_file_unfold.
    destruct (files w !! input_file); [|done]. by apply no_index_frame.
Qed.

(** The hypotheses are met by three distinct paths. *)
Lemma index_file_is_optional_witness :
  let f : transform := λ line line_id, ([], Ok (strip line, line_id)) in
  let ids := [lit "1"; lit "2"] in
  let w := World (<["in" := lit "a
b
"]> ∅) [] in
  let without := process_large_file "in" "out" ids None f 1 None w in
  let with_index := process_large_file "in" "out" ids (Some "idx") f 1 None w in
  without.1 = with_index.1 ∧
  stdout without.2 = stdout with_index.2 ∧
  files without.2 !! "out" = files with_index.2 !! "out" ∧
  (∀ q, q ≠ "out" → files without.2 !! q = files w !! q) ∧
  (∀ a_text_cleaner q, q ≠ "out" →
     files (clean.clean_file "in" "out" a_text_cleaner w).2 !! q
     = files w !! q).
Proof.
  intros f ids w.
  apply (index_file_is_optional "in" "out" "idx" ids f 1 None w);
    discriminate.
Defined.

End NoIndexFile.

(* ===================================================================== *)
(** * TextCleaner.clean *)
(* ===================================================================== *)

Section Tidy.
Import Py Props text_cleaning.

Lemma no_double_space_app (a b : str) :
  no_double_space (a ++ b) → no_double_space a ∧ no_double_space b.
Proof.
  induction a as [|c a IH]; simpl; [done|].
  intros [Hhead Htail]. destruct (IH Htail) as [Ha Hb].
  split; [|done]. split; [|done].
  destruct a as [|d a]; [done|]. exact Hhead.
Qed.

Lemma no_double_space_cons (c : ascii) (s : str) :
  isspace c = false ∨ starts_clean s →
  no_double_space s → no_double_space (c :: s).
Proof.
  intros Hc Hs. simpl. split; [|done].
  destruct s as [|d s]; [done|]. simpl in Hc. intros [H1 H2].
  destruct Hc; congruence.
Qed.

Lemma no_double_space_word (word s : str) :
  Forall (λ c, isspace c = false) word →
  no_double_space s → no_double_space (word ++ s).
Proof.
  induction 1 as [|c word Hc _ IH]; intros Hs; [done|].
  change ((c :: word) ++ s) with (c :: (word ++ s)).
  apply no_double_space_cons; auto.
Qed.

(** Ending clean is a property of the last character. *)
Lemma ends_clean_last (s : str) :
  starts_clean (rev s) ↔
  match last s with Some c => isspace c = false | None => True end.
Proof.
  destruct s as [|c s] using rev_ind; [done|].
  by rewrite rev_unit, last_snoc.
Qed.

Lemma lstrip_chars_suffix (p : ascii → bool) (s : str) :
  ∃ dropped, s = dropped ++ lstrip_chars p s.
Proof.
  induction s as [|c s [dropped IH]]; simpl; [by exists []|].
  destruct (p c).
  - exists (c :: dropped). simpl. by f_equal.
  - by exists [].
Qed.

Lemma lstrip_chars_head (p : ascii → bool) (s : str) :
  match lstrip_chars p s with
  | [] => True
  | c :: _ => p c = false
  end.
Proof.
  induction s as [|c s IH]; simpl; [done|].
  destruct (p c) eqn:Hc; [done|]. exact Hc.
Qed.

Lemma rstrip_chars_prefix (p : ascii → bool) (s : str) :
  ∃ dropped, s = rstrip_chars p s ++ dropped.
Proof.
  unfold rstrip_chars. destruct (lstrip_chars_suffix p (rev s)) as [d Hd].
  exists (rev d). rewrite <- rev_app_distr, <- Hd. by rewrite rev_involutive.
Qed.

(** Stripping a text without doubled whitespace leaves a tidy text. *)
Lemma strip_tidy (s : str) : no_double_space s → tidy (strip s).
Proof.
  intros Hs. unfold strip, strip_chars.
  destruct (lstrip_chars_suffix isspace s) as [d1 H1].
  pose proof (lstrip_chars_head isspace s) as Hhead.
  set (t := lstrip_chars isspace s) in *.
  destruct (rstrip_chars_prefix isspace t) as [d2 H2].
  pose proof (lstrip_chars_head isspace (rev t)) as Hlast.
  rewrite H1 in Hs. apply no_double_space_app in Hs as [_ Ht].
  rewrite H2 in Ht. apply no_double_space_app in Ht as [Hr _].
  split; [|split; [|done]].
  - rewrite H2 in Hhead. destruct (rstrip_chars isspace t); done.
  - unfold rstrip_chars. rewrite rev_involutive.
    destruct (lstrip_chars isspace (rev t)); done.
Qed.

Lemma sub_spaces_spec (in_run : bool) (s : str) :
  no_double_space (sub_spaces in_run s) ∧
  (in_run = true → starts_clean (sub_spaces in_run s)).
Proof.
  revert in_run. induction s as [|c s IH]; intros in_run; [done|].
  simpl. destruct (isspace c) eqn:Hc.
  - destruct in_run.
    + apply IH.
    + split; [|done]. destruct (IH true) as [Hnd Hst].
      apply no_double_space_cons; auto.
  - split; [|by intros _].
    apply no_double_space_cons; [by left|]. apply IH.
Qed.

Lemma remove_extra_whitespace_tidy (text : str) :
  tidy (_remove_extra_whitespace text).
Proof. apply strip_tidy, sub_spaces_spec. Qed.

Lemma flush_word_like (cur : str) :
  Forall (λ c, isspace c = false) cur → Forall word_like (flush cur).
Proof.
  intros Hcur. destruct cur as [|c cur]; [constructor|].
  constructor; [|constructor]. split.
  - simpl. by destruct (rev cur).
  - by apply Forall_rev.
Qed.

Lemma split_go_word_like (cur s : str) :
  Forall (λ c, isspace c = false) cur → Forall word_like (split_go cur s).
Proof.
  revert cur. induction s as [|c s IH]; intros cur Hcur; simpl.
  - by apply flush_word_like.
  - destruct (isspace c) eqn:Hc.
    + apply Forall_app. split; [by apply flush_word_like|]. by apply IH.
    + apply IH. by constructor.
Qed.

Lemma split_word_like (s : str) : Forall word_like (split s).
Proof. by apply split_go_word_like. Qed.

(** Words joined by single blanks make a tidy text. *)
Lemma join_tidy (words : list str) :
  Forall word_like words → tidy (join [SP] words).
Proof.
  induction 1 as [|word words [Hne Hword] Hrest IH]; [done|].
  destruct Hrest as [|word' words Hw' Hrest].
  { simpl. split; [|split].
    - destruct Hword; done.
    - apply ends_clean_last. destruct word as [|c word] using rev_ind; [done|].
      rewrite last_snoc. by apply Forall_app in Hword as [_ [? _]%Forall_cons].
    - rewrite <- (app_nil_r word). by apply no_double_space_word. }
  rewrite join_cons_cons. destruct IH as (Hstart & Hend & Hnd).
  set (rest := join [SP] (word' :: words)) in *.
  assert (Hrest_ne : rest ≠ []).
  { subst rest. destruct Hw' as [Hne' _]. simpl.
    destruct words; [done|]. by destruct word'. }
  split; [|split].
  - destruct Hword; done.
  - apply ends_clean_last. apply ends_clean_last in Hend.
    rewrite !last_app. destruct (last rest) eqn:Hl; [done|].
    apply last_None in Hl. done.
  - apply no_double_space_word; [done|]. simpl.
    apply no_double_space_cons; auto.
Qed.

Lemma join_filter_split_tidy (P : str → Prop) `{∀ x, Decision (P x)}
    (text : str) :
  tidy (join [SP] (filter P (split text))).
Proof.
  apply join_tidy, Forall_forall. intros word Hin.
  apply list_elem_of_filter in Hin as [_ Hin].
  revert word Hin. apply Forall_forall, split_word_like.
Qed.

(** C9.  For every [TextCleaner] and every text, the result of [clean]
    begins and ends with a non-whitespace character, when it is not
    empty, and nowhere holds two whitespace characters in a row. *)
Theorem clean_is_tidy (self : TextCleaner) (text : str) :
  tidy (clean self text).
Proof.
  unfold clean. cbv zeta.
  destruct (remove_single self).
  { apply (join_filter_split_tidy (λ word, 1 < length word)). }
  destruct (remove_stop self).
  { apply (join_filter_split_tidy (λ word, word ∉ stops self ∪ extra_stops)). }
  apply remove_extra_whitespace_tidy.
Qed.

End Tidy.

(* ===================================================================== *)
(** * calculate_df *)
(* ===================================================================== *)

Section DocumentFrequency.
Import Py Props score.

Lemma incr_lookup (word other : str) (df_dict : gmap (list ascii) nat) :
  incr word df_dict !! other =
  if decide (word = other) then Some (default 0 (df_dict !! other) + 1)
  else df_dict !! other.
Proof.
  unfold incr. destruct (decide (word = other)) as [->|Hne].
  - by rewrite lookup_insert_eq.
  - by rewrite lookup_insert_ne.
Qed.

(** Counting the words of a list without repetition, whatever the
    order. *)
Lemma foldr_incr_lookup (words : list str) (df_dict : gmap (list ascii) nat)
    (word : str) :
  NoDup words →
  foldr incr df_dict words !! word =
  if decide (word ∈ words) then Some (default 0 (df_dict !! word) + 1)
  else df_dict !! word.
Proof.
  induction 1 as [|w words Hnotin Hnodup IH]; simpl.
  - destruct (decide (word ∈ [])) as [Hin|]; [|done].
    by apply not_elem_of_nil in Hin.
  - rewrite incr_lookup. destruct (decide (w = word)) as [->|Hne].
    + rewrite decide_True by apply list_elem_of_here.
      rewrite IH, decide_False by done. reflexivity.
    + rewrite IH. destruct (decide (word ∈ words)) as [Hin|Hnin].
      * rewrite decide_True; [done|]. by apply list_elem_of_further.
      * rewrite decide_False; [done|].
        intros [?|?]%elem_of_cons; congruence.
Qed.

(** One document: the counter of each of its words goes up by one. *)
Lemma count_document (doc : str) (df_dict : gmap (list ascii) nat)
    (word : str) :
  set_fold incr df_dict (list_to_set (split doc) : gset (list ascii)) !! word =
  if decide (word ∈ split doc) then Some (default 0 (df_dict !! word) + 1)
  else df_dict !! word.
Proof.
  unfold set_fold. simpl. rewrite foldr_incr_lookup by apply NoDup_elements.
  destruct (decide (word ∈ split doc)) as [Hin|Hnin].
  - rewrite decide_True; [done|].
    by apply elem_of_elements, elem_of_list_to_set.
  - rewrite decide_False; [done|].
    by rewrite elem_of_elements, elem_of_list_to_set.
Qed.

Lemma count_documents (corpus : list str) (df_dict : gmap (list ascii) nat)
    (word : str) :
  foldl (λ df_dict doc,
           set_fold incr df_dict (list_to_set (split doc) : gset (list ascii)))
        df_dict corpus !! word =
  match documents_with word corpus with
  | 0 => df_dict !! word
  | S n => Some (default 0 (df_dict !! word) + S n)
  end.
Proof.
  revert df_dict. unfold documents_with.
  induction corpus as [|doc corpus IH]; intros df_dict; [done|].
  simpl. rewrite IH, count_document, filter_cons.
  destruct (decide (word ∈ split doc)); [|done]. simpl.
  destruct (length _); simpl; f_equal; lia.
Qed.

(** C6.  The table returned by [calculate_df] maps a word to the number
    of documents whose words include it, however often it occurs in each
    of them, and holds exactly the words that occur in some document. *)
Theorem calculate_df_counts_documents (corpus : list str) (word : str) :
  calculate_df corpus !! word =
    (if documents_with word corpus =? 0 then None
     else Some (documents_with word corpus))
  ∧ default 0 (calculate_df corpus !! word) = documents_with word corpus
  ∧ (is_Some (calculate_df corpus !! word) ↔
     ∃ doc, doc ∈ corpus ∧ word ∈ split doc).
Proof.
  assert (Hlookup : calculate_df corpus !! word =
    if documents_with word corpus =? 0 then None
    else Some (documents_with word corpus)).
  { unfold calculate_df. rewrite count_documents, lookup_empty.
    by destruct (documents_with word corpus). }
  split; [done|]. split.
  - rewrite Hlookup. by destruct (documents_with word corpus).
  - rewrite Hlookup. unfold documents_with.
    destruct (filter _ corpus) as [|doc rest] eqn:Hf; simpl.
    + split; [by intros [? ?]|]. intros (doc & Hin & Hword).
      assert (doc ∈ filter (λ doc, word ∈ split doc) corpus)
        by (by apply list_elem_of_filter).
      rewrite Hf in *. by apply not_elem_of_nil in H.
    + split; [|by eauto]. intros _. exists doc.
      assert (Hd : doc ∈ filter (λ doc, word ∈ split doc) corpus)
        by (rewrite Hf; apply list_elem_of_here).
      apply list_elem_of_filter in Hd as [? ?]. done.
Qed.

(** A word that occurs three times in one document and once in another
    is counted twice. *)
Example calculate_df_example :
  calculate_df [lit "to be or not to be to"; lit "to do"; lit "done"]
    !! lit "to" = Some 2.
Proof. vm_compute. reflexivity. Qed.

End DocumentFrequency.

(* ===================================================================== *)
(** * Term-frequency scoring *)
(* ===================================================================== *)

Section TermFrequency.
Import Py Props dictionary.

(** C7.  Scoring by term frequency yields one record per document, in
    the order of the documents; the record of a document carries its
    identifier and, for each category of the dictionary, the sum over
    the category's words of the number of times the word occurs among the
    words of the document.  The document [motivated motivated sale]
    scored against [Urgency: motivated] receives 2. *)
Theorem score_tf_sums_occurrences (documents document_ids : list str)
    (expanded_words : list (list ascii * list (list ascii))) :
  length documents = length document_ids →
  length (score_tf documents document_ids expanded_words) = length documents
  ∧ (∀ i document doc_id,
       documents !! i = Some document →
       document_ids !! i = Some doc_id →
       score_tf documents document_ids expanded_words !! i =
       Some (doc_id,
             map (λ '(category, words),
                    (category,
                     sum_list (map (λ word,
                        length (filter (λ token, token = word)
                                       (split document))) words)))
                 expanded_words))
  ∧ score_tf [lit "motivated motivated sale"] [lit "doc"]
             [(lit "Urgency", [lit "motivated"])]
    = [(lit "doc", [(lit "Urgency", 2)])].
Proof.
  intros Hlen. unfold score_tf. split; [|split].
  - rewrite length_map, length_zip_with. lia.
  - intros i document doc_id Hdoc Hid.
    rewrite list_lookup_fmap.
    assert (Hzip : zip documents document_ids !! i = Some (document, doc_id)).
    { rewrite lookup_zip_with, Hdoc. simpl. by rewrite Hid. }
    rewrite Hzip. reflexivity.
  - reflexivity.
Qed.

(** The hypothesis is met by two documents with two identifiers. *)
Lemma score_tf_sums_occurrences_witness :
  let documents := [lit "act fast"; lit "quiet street"] in
  let document_ids := [lit "1"; lit "2"] in
  let expanded_words := [(lit "Urgency", [lit "fast"; lit "act"])] in
  length (score_tf documents document_ids expanded_words) = length documents
  ∧ (∀ i document doc_id,
       documents !! i = Some document →
       document_ids !! i = Some doc_id →
       score_tf documents document_ids expanded_words !! i =
       Some (doc_id,
             map (λ '(category, words),
                    (category,
                     sum_list (map (λ word,
                        length (filter (λ token, token = word)
                                       (split document))) words)))
                 expanded_words))
  ∧ score_tf [lit "motivated motivated sale"] [lit "doc"]
             [(lit "Urgency", [lit "motivated"])]
    = [(lit "doc", [(lit "Urgency", 2)])].
Proof.
  intros documents document_ids expanded_words.
  apply (score_tf_sums_occurrences documents document_ids expanded_words).
  reflexivity.
Defined.

End TermFrequency.

(* ===================================================================== *)
(** * construct_doc_level_corpus *)
(* ===================================================================== *)

Section Aggregation.
Import Py Props file_process score.

Lemma iadd_new (d : dict) (key text : str) :
  key ∉ d.*1 → iadd d key text = d ++ [(key, text)].
Proof.
  induction d as [|[k v] d IH]; simpl; [done|].
  intros Hnotin. apply not_elem_of_cons in Hnotin as [Hne Hnotin].
  rewrite decide_False by done. by rewrite IH.
Qed.

Lemma iadd_old (d : dict) (key text : str) :
  NoDup d.*1 → key ∈ d.*1 →
  iadd d key text =
  map (λ e, (e.1, if decide (e.1 = key) then e.2 ++ text else e.2)) d.
Proof.
  induction d as [|[k v] d IH]; simpl.
  { intros _ Hin. by apply not_elem_of_nil in Hin. }
  intros [Hk Hnodup]%NoDup_cons Hin.
  destruct (decide (k = key)) as [->|Hne].
  - f_equal. symmetry. rewrite <- (map_id d) at 2. apply map_ext_in.
    intros [k' v'] Hin'. simpl. rewrite decide_False; [done|].
    intros ->. apply Hk. apply list_elem_of_fmap. exists (key, v').
    split; [done|]. by apply list_elem_of_In.
  - f_equal. apply IH; [done|].
    apply elem_of_cons in Hin as [?|?]; [congruence|done].
Qed.

Lemma iadd_old_keys (d : dict) (key text : str) :
  (map (λ e : str * str,
          (e.1, if decide (e.1 = key) then e.2 ++ text else e.2)) d).*1
  = d.*1.
Proof. induction d as [|e d IH]; simpl; [done|]. f_equal. exact IH. Qed.

Lemma texts_cons (k key sentence : str) (ps : list (str * str)) :
  texts k ((key, sentence) :: ps) =
  if decide (key = k) then (SP :: sentence) ++ texts k ps else texts k ps.
Proof.
  unfold texts. rewrite filter_cons. simpl.
  destruct (decide (key = k)); done.
Qed.

Lemma first_seen_subseteq (l : list str) (x : str) :
  x ∈ first_seen l → x ∈ l.
Proof.
  induction l as [|y l IH]; simpl; [done|].
  intros [->|Hin]%elem_of_cons; [apply list_elem_of_here|].
  apply list_elem_of_filter in Hin as [_ Hin].
  by apply list_elem_of_further, IH.
Qed.

(** The dictionary after the loop has run over [ps]: the former entries,
    each extended by the texts of its key, then the new keys in the
    order of their first occurrence. *)
Lemma foldl_iadd (ps : list (str * str)) (d : dict) :
  NoDup d.*1 →
  foldl (λ d p, iadd d p.1 (SP :: p.2)) d ps =
  map (λ e, (e.1, e.2 ++ texts e.1 ps)) d ++
  map (λ k, (k, texts k ps)) (filter (λ k, k ∉ d.*1) (first_seen ps.*1)).
Proof.
  revert d. induction ps as [|[key sentence] ps IH]; intros d Hnodup.
  { simpl. rewrite app_nil_r. rewrite <- (map_id d) at 1.
    apply map_ext. intros [k v]. simpl. by rewrite app_nil_r. }
  cbn [foldl fst snd fmap list_fmap first_seen].
  destruct (decide (key ∈ d.*1)) as [Hin|Hnotin].
  - rewrite IH.
    2: { by rewrite iadd_old, iadd_old_keys. }
    rewrite iadd_old by done.
    rewrite filter_cons, decide_False by (by intros Hn; apply Hn).
    f_equal.
    + rewrite map_map. apply map_ext. intros [k v]. simpl.
      rewrite texts_cons.
      destruct (decide (k = key)) as [->|Hne].
      * rewrite decide_True by done. by rewrite <- app_assoc.
      * rewrite decide_False by congruence. done.
    + rewrite iadd_old_keys, list_filter_filter.
      assert (Hfilter :
        filter (λ k, k ∉ d.*1) (first_seen ps.*1) =
        filter (λ k, (k ∉ d.*1) ∧ k ≠ key) (first_seen ps.*1)).
      { apply list_filter_iff. intros k. split; [|tauto].
        intros Hk. split; [done|]. by intros ->. }
      rewrite Hfilter. apply map_ext_in. intros k Hk.
      apply list_elem_of_In, list_elem_of_filter in Hk as [[_ Hne] _].
      rewrite texts_cons, decide_False by congruence. done.
  - rewrite IH.
    2: { rewrite iadd_new by done. rewrite fmap_app. simpl.
         apply NoDup_app. split; [done|]. split; [|apply NoDup_singleton].
         intros x Hx ->%list_elem_of_singleton. done. }
    rewrite iadd_new by done.
    rewrite filter_cons, decide_True by done.
    rewrite map_app, <- app_assoc. simpl. f_equal.
    + apply map_ext_in. intros [k v] Hk. simpl.
      rewrite texts_cons, decide_False; [done|].
      intros ->. apply Hnotin, list_elem_of_fmap. exists (k, v).
      split; [done|]. by apply list_elem_of_In.
    + rewrite texts_cons, decide_True by done. f_equal.
      rewrite fmap_app. simpl. rewrite list_filter_filter.
      assert (Hfilter :
        filter (λ k, k ∉ d.*1 ++ [key]) (first_seen ps.*1) =
        filter (λ k, (k ∉ d.*1) ∧ k ≠ key) (first_seen ps.*1)).
      { apply list_filter_iff. intros k.
        rewrite elem_of_app, list_elem_of_singleton. tauto. }
      rewrite Hfilter. apply map_ext_in. intros k Hk.
      apply list_elem_of_In, list_elem_of_filter in Hk as [[_ Hne] _].
      rewrite texts_cons, decide_False by congruence. done.
Qed.

(** The index never runs off the sentence list when there are enough
    sentences, and the loop is a fold over the paired lists. *)
Lemma concat_docs_foldl (doc_ids sent_corpus : list str) (d : dict) (i : nat) :
  i + length doc_ids ≤ length sent_corpus →
  concat_docs d i doc_ids sent_corpus =
  Ok (foldl (λ d p, iadd d p.1 (SP :: p.2)) d
            (zip doc_ids (drop i sent_corpus))).
Proof.
  revert d i. induction doc_ids as [|id doc_ids IH]; intros d i Hlen; [done|].
  simpl in *.
  destruct (lookup_lt_is_Some_2 sent_corpus i) as [sentence Hs]; [lia|].
  rewrite Hs, (drop_S _ _ _ Hs). simpl. apply IH. lia.
Qed.

Lemma concat_blank_join (ss : list str) :
  ss ≠ [] → concat (map (λ s, SP :: s) ss) = SP :: join [SP] ss.
Proof.
  induction ss as [|s ss IH]; [done|]. intros _.
  destruct ss as [|s' ss].
  - simpl. by rewrite app_nil_r.
  - rewrite join_cons_cons.
    change (concat (map (λ s, SP :: s) (s :: s' :: ss)))
      with ((SP :: s) ++ concat (map (λ s, SP :: s) (s' :: ss))).
    by rewrite IH.
Qed.

Lemma texts_join (k : str) (doc_ids sent_corpus : list str) :
  length doc_ids = length sent_corpus →
  k ∈ doc_ids →
  texts k (zip doc_ids sent_corpus) =
  SP :: join [SP] (sentences_of k doc_ids sent_corpus).
Proof.
  intros Hlen Hin. unfold texts. fold (sentences_of k doc_ids sent_corpus).
  assert (Hne : sentences_of k doc_ids sent_corpus ≠ []).
  { apply list_elem_of_lookup in Hin as [i Hi].
    destruct (lookup_lt_is_Some_2 sent_corpus i) as [s Hs].
    { rewrite <- Hlen. by eapply lookup_lt_Some. }
    assert (Hp : (k, s) ∈ filter (λ p, p.1 = k) (zip doc_ids sent_corpus)).
    { apply list_elem_of_filter. split; [done|].
      apply list_elem_of_lookup. exists i.
      rewrite lookup_zip_with, Hi. simpl. by rewrite Hs. }
    unfold sentences_of. intros Hnil.
    destruct (filter _ _); [by apply not_elem_of_nil in Hp|done]. }
  by apply concat_blank_join.
Qed.

End Aggregation.

Section AggregationTheorems.
Import Py Props file_process score.

Lemma first_seen_texts (doc_ids sent_corpus : list str) :
  length doc_ids = length sent_corpus →
  map (λ k, texts k (zip doc_ids sent_corpus)) (first_seen doc_ids) =
  map (λ k, SP :: join [SP] (sentences_of k doc_ids sent_corpus))
      (first_seen doc_ids).
Proof.
  intros Hlen. apply map_ext_in. intros k Hk.
  apply texts_join; [done|]. by apply first_seen_subseteq, list_elem_of_In.
Qed.

(** On lists of equal length: the identifiers in the order of their
    first occurrence and, for each, a blank followed by its sentences
    joined by blanks. *)
Lemma doc_level_corpus_spec (sent_corpus sent_IDs : list str) :
  length sent_IDs = length sent_corpus →
  let ids := map doc_id_of sent_IDs in
  doc_level_corpus sent_corpus sent_IDs =
  Ok (map (λ d, SP :: join [SP] (sentences_of d ids sent_corpus))
          (first_seen ids),
      first_seen ids, length (first_seen ids)).
Proof.
  intros Hlen ids. unfold doc_level_corpus.
  rewrite Hlen, Nat.eqb_refl. cbn [negb]. fold ids.
  assert (Hids : length ids = length sent_corpus)
    by (subst ids; by rewrite length_map).
  rewrite concat_docs_foldl by (simpl; lia).
  rewrite drop_0, foldl_iadd by constructor.
  cbn [map app fmap list_fmap].
  rewrite fst_zip by lia.
  assert (Hall : filter (λ k : str, k ∉ []) (first_seen ids) = first_seen ids).
  { induction (first_seen ids) as [|k l IH]; [done|].
    rewrite filter_cons_True by apply not_elem_of_nil. by rewrite IH. }
  change (@nil (list ascii * list ascii)).*1 with (@nil (list ascii)).
  rewrite Hall.
  rewrite <- !list_fmap_compose. unfold compose. cbn [fst snd].
  rewrite list_fmap_id.
  change (fmap (λ x, texts x (zip ids sent_corpus)) (first_seen ids))
    with (map (λ k, texts k (zip ids sent_corpus)) (first_seen ids)).
  rewrite first_seen_texts by done.
  rewrite !length_map, Nat.eqb_refl. reflexivity.
Qed.

(** What a dump leaves: the file holds the encoding of the object. *)
Lemma pickle_dump_world {A} (dumps : A → str) (obj : A) (path : string)
    (w : world) :
  pickle_dump dumps obj path w =
  (Ok (), World (<[path := dumps obj]> (files w)) (stdout w)).
Proof.
  unfold pickle_dump, truncate_file, append_file, file_content.
  rewrite bind_unfold. cbn [files stdout].
  by rewrite lookup_insert_eq, insert_insert_eq.
Qed.

(** C2, as the code has it.  [construct_doc_level_corpus] returns the
    document identifiers in the order of their first appearance in the
    sentence identifier file, and for each document one blank followed
    by its sentences, in the order of the sentence file, joined by
    single blanks; the third component is the number of documents.  The
    call prints its message and dumps the two lists to their files;
    nothing else is printed and no other file changes. *)
Theorem construct_doc_level_corpus_spec (dumps : list str → str)
    (sent_corpus_file sent_id_file : string)
    (w : world) (corpus_text id_text : str) :
  files w !! sent_corpus_file = Some corpus_text →
  files w !! sent_id_file = Some id_text →
  let sent_corpus := map strip (readlines corpus_text) in
  let sent_IDs := map strip (readlines id_text) in
  length sent_IDs = length sent_corpus →
  let ids := map doc_id_of sent_IDs in
  let corpus :=
    map (λ d, SP :: join [SP] (sentences_of d ids sent_corpus))
        (first_seen ids) in
  let doc_ids := first_seen ids in
  construct_doc_level_corpus dumps sent_corpus_file sent_id_file w =
  (Ok (corpus, doc_ids, length doc_ids),
   World (<[doc_ids_pickle := dumps doc_ids]>
            (<[corpus_doc_level_pickle := dumps corpus]> (files w)))
         (stdout w ++ [lit "Constructing doc level corpus"])).
Proof.
  intros Hcorpus Hids sent_corpus sent_IDs Hlen ids corpus doc_ids.
  unfold construct_doc_level_corpus, print, file_to_list, read_file, lift.
  rewrite !bind_unfold. cbn [files stdout].
  rewrite Hcorpus. cbn [mret M_ret].
  rewrite !bind_unfold. cbn [files stdout]. rewrite Hids. cbn [mret M_ret].
  fold sent_corpus sent_IDs. rewrite doc_level_corpus_spec by done.
  cbv zeta. fold ids. fold corpus. fold doc_ids. cbv beta iota.
  rewrite bind_unfold. cbv beta iota.
  rewrite bind_unfold, pickle_dump_world.
  rewrite bind_unfold, pickle_dump_world. reflexivity.
Qed.

(** The hypotheses are met by the three sentences [a], [b], [c] with
    identifiers [1_0], [1_1], [2_0]; the encoding that stands for
    [pickle] writes one text per line. *)
Lemma construct_doc_level_corpus_spec_witness :
  let dumps : list str → str := λ l, concat (map (λ e, e ++ [LF]) l) in
  let w := World (<["sentences" := lit "a
b
c
"]> (<["ids" := lit "1_0
1_1
2_0
"]> ∅)) [] in
  let sent_corpus := [lit "a"; lit "b"; lit "c"] in
  let ids := [lit "1"; lit "1"; lit "2"] in
  let corpus :=
    map (λ d, SP :: join [SP] (sentences_of d ids sent_corpus))
        (first_seen ids) in
  let doc_ids := first_seen ids in
  construct_doc_level_corpus dumps "sentences" "ids" w =
  (Ok (corpus, doc_ids, length doc_ids),
   World (<[doc_ids_pickle := dumps doc_ids]>
            (<[corpus_doc_level_pickle := dumps corpus]> (files w)))
         (stdout w ++ [lit "Constructing doc level corpus"])).
Proof.
  intros dumps w.
  apply (construct_doc_level_corpus_spec dumps "sentences" "ids" w
           (lit "a
b
c
") (lit "1_0
1_1
2_0
")); reflexivity.
Defined.

(** C2 as stated fails on its own example: every document text begins
    with a blank. *)
Lemma aggregation_example_leading_blank :
  let dumps : list str → str := λ l, concat (map (λ e, e ++ [LF]) l) in
  let w := World (<["sentences" := lit "a
b
c
"]> (<["ids" := lit "1_0
1_1
2_0
"]> ∅)) [] in
  let run := construct_doc_level_corpus dumps "sentences" "ids" w in
  run.1 = Ok ([lit " a b"; lit " c"], [lit "1"; lit "2"], 2)
  ∧ run.1 ≠ Ok ([lit "a b"; lit "c"], [lit "1"; lit "2"], 2)
  ∧ stdout run.2 = [lit "Constructing doc level corpus"]
  ∧ files run.2 !! corpus_doc_level_pickle = Some (lit " a b
 c
")
  ∧ files run.2 !! doc_ids_pickle = Some (lit "1
2
").
Proof.
  vm_compute. split; [reflexivity|]. split; [discriminate|].
  repeat split.
Qed.

End AggregationTheorems.

(* ===================================================================== *)
(** * A failing splitter ends every run *)
(* ===================================================================== *)

Section SplitterFailure.
Import Py file_process Props parse.

Variable sentence_split : str → split_outcome.

Lemma calls_parse_line_raise (items : list (str * str)) (e : exn) :
  (calls (parse_line sentence_split) items).2 = Raise e →
  e = UnboundLocalError "sent".
Proof.
  induction items as [|[line line_id] items IH]; simpl; [done|].
  unfold parse_line at 1.
  destruct (sentence_split line); simpl.
  - destruct (calls (parse_line sentence_split) items) as [pr [ys|e']];
      simpl in *; [done|]. intros [= <-]. by apply IH.
  - by intros [= <-].
Qed.

Lemma calls_parse_line_failing (items : list (str * str)) :
  Exists (failing sentence_split) items →
  (calls (parse_line sentence_split) items).2 =
  Raise (UnboundLocalError "sent").
Proof.
  induction 1 as [[line line_id] items [message Hfail]
                 |[line line_id] items _ IH]; simpl.
  - simpl in Hfail. unfold parse_line. by rewrite Hfail.
  - unfold parse_line at 1. destruct (sentence_split line); simpl; [|done].
    destruct (calls (parse_line sentence_split) items) as [pr [ys|e']];
      simpl in *; done.
Qed.

Lemma loop_parse_line_failing output_file output_index_file
    (chunks : list (list str * list str)) (w : world) :
  Exists (λ chunk, Exists (failing sentence_split) (zip chunk.1 chunk.2))
         chunks →
  (for_each (process_chunk output_file output_index_file
               (parse_line sentence_split)) chunks w).1
  = Raise (UnboundLocalError "sent").
Proof.
  revert w. induction chunks as [|[lines ids] chunks IH]; intros w Hex.
  { by apply Exists_nil in Hex. }
  cbn [for_each]. rewrite bind_unfold, process_chunk_unfold.
  destruct (calls (parse_line sentence_split) (zip lines ids))
    as [printed [outs|e]] eqn:Hcalls.
  - apply Exists_cons in Hex as [Hhead|Htail].
    + apply calls_parse_line_failing in Hhead. simpl in Hhead.
      rewrite Hcalls in Hhead. done.
    + by apply IH.
  - simpl. f_equal. apply (calls_parse_line_raise (zip lines ids)).
    by rewrite Hcalls.
Qed.

End SplitterFailure.

Section ChunksCover.
Import Py file_process Props.
Context {A B : Type}.

(** The chunks of two lists of equal length are the groups of the list
    of pairs. *)
Lemma zip_grouper_go (fuel n : nat) (a : list A) (b : list B) :
  length a = length b →
  map (λ chunk, zip chunk.1 chunk.2)
      (zip (grouper_go fuel n a) (grouper_go fuel n b))
  = grouper_go fuel n (zip a b).
Proof.
  revert a b. induction fuel as [|fuel IH]; intros a b Hlen; [done|].
  destruct a as [|x a], b as [|y b]; try done. simpl in Hlen.
  cbn [grouper_go zip zip_with map fst snd].
  rewrite IH by (rewrite !length_drop; simpl; lia).
  change ((x, y) :: zip a b) with (zip (x :: a) (y :: b)).
  by rewrite zip_with_take, zip_with_drop.
Qed.

Lemma concat_grouper_go (fuel n : nat) (l : list A) :
  length l ≤ fuel → concat (grouper_go fuel (S n) l) = l.
Proof.
  revert l. induction fuel as [|fuel IH]; intros l Hlen.
  - destruct l; [done|simpl in Hlen; lia].
  - destruct l as [|x l]; [done|].
    cbn [grouper_go concat]. rewrite IH.
    + apply take_drop.
    + rewrite length_drop. simpl in *. lia.
Qed.

End ChunksCover.

Section SplitterFailureRun.
Import Py file_process Props parse.

Lemma chunks_cover (n : nat) (lines ids : list str) :
  length lines = length ids →
  concat (map (λ chunk, zip chunk.1 chunk.2) (chunks (S n) lines ids))
  = zip lines ids.
Proof.
  intros Hlen. unfold chunks, grouper. rewrite <- Hlen.
  rewrite zip_grouper_go by done. apply concat_grouper_go.
  rewrite length_zip_with. lia.
Qed.

(** Whenever the splitter raises on some line of the corpus,
    [parse_document] ends with [UnboundLocalError]. *)
Lemma splitter_failure_ends_run (sentence_split : str → split_outcome)
    (input_path : string) (input_id : list str)
    (output_path output_id : string) (w : world)
    (content line message : str) :
  files w !! input_path = Some content →
  input_path ≠ output_path →
  input_path ≠ output_id →
  length (readlines content) = length input_id →
  line ∈ readlines content →
  sentence_split line = Raises message →
  (parse_document sentence_split input_path input_id output_path output_id
     w).1 = Raise (UnboundLocalError "sent").
Proof.
  intros Hin Hio Hii Hlen Hline Hfail.
  unfold parse_document. rewrite process_large_file_unfold. cbv zeta.
  destruct (remove_outputs_files output_path (Some output_id) None w
              input_path) as [Heq|(_ & [?|?] & _)]; [|congruence..].
  rewrite Heq, Hin, (proj2 (Nat.eqb_eq _ _) Hlen).
  apply loop_parse_line_failing.
  apply list_elem_of_lookup in Hline as [i Hi].
  destruct (lookup_lt_is_Some_2 input_id i) as [line_id Hid].
  { rewrite <- Hlen. by eapply lookup_lt_Some. }
  assert (Hitem : (line, line_id) ∈ zip (readlines content) input_id).
  { apply list_elem_of_lookup. exists i.
    rewrite lookup_zip_with, Hi. simpl. by rewrite Hid. }
  unfold PARSE_CHUNK_SIZE. change 1000 with (S 999).
  rewrite <- (chunks_cover 999) in Hitem by done.
  apply list_elem_of_In, in_concat in Hitem as (items & Hitems & Hin').
  apply in_map_iff in Hitems as (chunk & <- & Hchunk).
  apply Exists_exists. exists chunk. split; [by apply list_elem_of_In|].
  apply Exists_exists. exists (line, line_id).
  split; [by apply list_elem_of_In|]. by exists message.
Qed.

End SplitterFailureRun.

(* ===================================================================== *)
(** * Writing a list and reading it back *)
(* ===================================================================== *)

Section ListRoundTrip.
Import Py file_process Props.

Lemma strip_chars_snoc (p : ascii → bool) (s : str) (c : ascii) :
  p c = true → strip_chars p (s ++ [c]) = strip_chars p s.
Proof.
  intros Hc. unfold strip_chars. induction s as [|a s IH]; simpl.
  - rewrite Hc. reflexivity.
  - destruct (p a); [exact IH|].
    unfold rstrip_chars.
    change (a :: s ++ [c]) with ((a :: s) ++ [c]).
    rewrite rev_unit. simpl. by rewrite Hc.
Qed.

Lemma strip_line (e : str) : strip (e ++ [LF]) = strip e.
Proof. by apply strip_chars_snoc. Qed.

(** The world [list_to_file] leaves, with or without validation. *)
Lemma list_to_file_world (lst : list str) (a_file : string) (validate : bool)
    (w : world) :
  list_to_file lst a_file validate w =
  (Ok (),
   World (<[a_file :=
             concat (map (λ e, replace CR SP (replace LF SP e) ++ [LF]) lst)]>
            (files w)) (stdout w)).
Proof.
  set (line := λ e, replace CR SP (replace LF SP e) ++ [LF]).
  assert (Hread : readlines (concat (map line lst)) = map line lst).
  { assert (Hline : map line lst =
      map (λ e, e ++ [LF]) (map (λ e, replace CR SP (replace LF SP e)) lst))
      by (by rewrite map_map).
    rewrite Hline. apply readlines_terminated.
    apply Forall_forall. intros e He.
    apply list_elem_of_fmap in He as (e' & -> & _).
    apply replace_LF_CR_no_LF. }
  unfold list_to_file. rewrite bind_unfold. unfold truncate_file at 1.
  rewrite bind_unfold.
  rewrite (for_each_append a_file line lst _ _ []) by apply lookup_insert_eq.
  rewrite insert_insert_eq. simpl. destruct validate; [|done].
  unfold line_counter, read_file. rewrite !bind_unfold. simpl.
  rewrite lookup_insert_eq. simpl.
  rewrite Hread, length_map, Nat.eqb_refl. reflexivity.
Qed.

Lemma written_list_read_back (lst : list str) (a_file : string)
    (validate : bool) (w : world) :
  ((list_to_file lst a_file validate ;; file_to_list a_file) w).1 =
  Ok (map (λ e, strip (replace CR SP (replace LF SP e))) lst).
Proof.
  rewrite bind_unfold, list_to_file_world.
  unfold file_to_list, read_file. rewrite bind_unfold. simpl.
  rewrite lookup_insert_eq. simpl. f_equal.
  set (line := λ e, replace CR SP (replace LF SP e) ++ [LF]).
  assert (Hread : readlines (concat (map line lst)) = map line lst).
  { assert (Hline : map line lst =
      map (λ e, e ++ [LF]) (map (λ e, replace CR SP (replace LF SP e)) lst))
      by (by rewrite map_map).
    rewrite Hline. apply readlines_terminated.
    apply Forall_forall. intros e He.
    apply list_elem_of_fmap in He as (e' & -> & _).
    apply replace_LF_CR_no_LF. }
  rewrite Hread, map_map. apply map_ext. intros e. apply strip_line.
Qed.

(** X1.  Whatever the validation flag, a list written by [list_to_file]
    and read back by [file_to_list] comes back element by element, each
    element with its LF and CR replaced by blanks and then stripped. *)
Theorem list_to_file_then_file_to_list (lst : list str) (a_file : string)
    (validate : bool) (w : world) :
  ((list_to_file lst a_file validate ;; file_to_list a_file) w).1 =
  Ok (map (λ e, strip (replace CR SP (replace LF SP e))) lst).
Proof. apply written_list_read_back. Qed.

Lemma replace_absent (old new : ascii) (s : str) :
  old ∉ s → replace old new s = s.
Proof.
  induction s as [|c s IH]; [done|]. intros Hnot.
  apply not_elem_of_cons in Hnot as [Hc Hs]. simpl.
  rewrite bool_decide_eq_false_2 by congruence. f_equal. by apply IH.
Qed.

(** X2.  Elements without LF, CR and outer whitespace survive the round
    trip through a file unchanged. *)
Theorem list_file_round_trip (lst : list str) (a_file : string)
    (validate : bool) (w : world) :
  Forall (λ e, (LF ∉ e) ∧ (CR ∉ e) ∧ strip e = e) lst →
  ((list_to_file lst a_file validate ;; file_to_list a_file) w).1 = Ok lst.
Proof.
  intros Hall. rewrite written_list_read_back. f_equal.
  rewrite <- (map_id lst) at 2. apply map_ext_in. intros e He.
  apply list_elem_of_In in He.
  destruct (proj1 (Forall_forall _ _) Hall e He) as (HLF & HCR & Hstrip).
  by rewrite (replace_absent LF), (replace_absent CR).
Qed.

(** The hypothesis is met by a sentence identifier and a two-word
    line. *)
Lemma list_file_round_trip_witness :
  ((list_to_file [lit "1_0"; lit "two words"] "ids" true ;;
    file_to_list "ids") (World ∅ [])).1
  = Ok [lit "1_0"; lit "two words"].
Proof.
  apply (list_file_round_trip [lit "1_0"; lit "two words"] "ids" true
           (World ∅ [])).
  repeat constructor; vm_compute; try reflexivity;
    by intros ?%list_elem_of_In; simpl in *; intuition discriminate.
Defined.

End ListRoundTrip.

(* ===================================================================== *)
(** * read_large_file *)
(* ===================================================================== *)

Section Blocks.
Import Py file_process Props.
Context {A : Type}.
Implicit Types l : list A.

Lemma grouper_unfold (n : nat) l :
  l ≠ [] →
  grouper (S n) l = take (S n) l :: grouper (S n) (drop (S n) l).
Proof. destruct l as [|x l]; [done|]. intros _. apply grouper_cons. Qed.

(** The i-th group is the i-th slice of [n] items. *)
Lemma grouper_lookup (n i : nat) l :
  grouper (S n) l !! i =
  if decide (i * S n < length l) then Some (take (S n) (drop (i * S n) l))
  else None.
Proof.
  rewrite <- (Nat.add_0_r i), <- lookup_drop, Nat.add_0_r, drop_grouper.
  destruct (decide (i * S n < length l)) as [Hlt|Hge].
  - rewrite grouper_unfold; [done|].
    intros Hnil. apply (f_equal length) in Hnil.
    rewrite length_drop in Hnil. simpl in Hnil. lia.
  - rewrite drop_ge by lia. by rewrite grouper_nil.
Qed.

Lemma concat_grouper (n : nat) l : concat (grouper (S n) l) = l.
Proof. unfold grouper. by apply concat_grouper_go. Qed.

End Blocks.

Section ReadLargeFile.
Import Py file_process Props.

Lemma read_blocks_grouper (n : nat) (block lines : list str) :
  length block < S n →
  read_blocks (S n) block lines = grouper (S n) (block ++ lines).
Proof.
  revert block. induction lines as [|line lines IH]; intros block Hlen.
  - rewrite app_nil_r. destruct block as [|b block]; [done|].
    rewrite grouper_unfold by done.
    rewrite take_ge, drop_ge by lia. by rewrite grouper_nil.
  - cbn [read_blocks]. cbv zeta.
    destruct (length (block ++ [line]) =? S n) eqn:Hfull.
    + apply Nat.eqb_eq in Hfull.
      rewrite (IH []) by (simpl; lia).
      rewrite (grouper_unfold n (block ++ line :: lines))
        by (by destruct block).
      change (block ++ line :: lines) with (block ++ [line] ++ lines).
      rewrite app_assoc.
      rewrite take_app_length' by done.
      rewrite drop_app_length' by done. reflexivity.
    + apply Nat.eqb_neq in Hfull.
      rewrite IH.
      * by rewrite <- app_assoc.
      * rewrite length_app in *. simpl in *. lia.
Qed.

(** With a block size of zero no block is ever full: everything ends up
    in one block. *)
Lemma read_blocks_zero (block lines : list str) :
  read_blocks 0 block lines =
  match block ++ lines with
  | [] => []
  | _ :: _ => [block ++ lines]
  end.
Proof.
  revert block. induction lines as [|line lines IH]; intros block.
  - rewrite app_nil_r. by destruct block.
  - cbn [read_blocks]. cbv zeta.
    assert (Hne : (length (block ++ [line]) =? 0) = false).
    { apply Nat.eqb_neq. rewrite length_app. simpl. lia. }
    rewrite Hne, IH, <- app_assoc. simpl.
    by destruct block.
Qed.

(** X3.  For a block size of at least one, the blocks yielded by
    [read_large_file] put end to end are the lines of the file, the
    i-th block is the i-th slice of [block_size] lines, and there are
    as many blocks as it takes: no block is empty and only the last one
    can be short. *)
Theorem read_large_file_blocks (a_file : string) (block_size : nat)
    (w : world) (content : str) :
  files w !! a_file = Some content →
  1 ≤ block_size →
  let lines := readlines (universal_newlines content) in
  ∃ blocks,
    read_large_file a_file block_size w = (Ok blocks, w) ∧
    concat blocks = lines ∧
    (∀ i, blocks !! i =
          if decide (i * block_size < length lines)
          then Some (take block_size (drop (i * block_size) lines))
          else None) ∧
    Forall (λ block, 1 ≤ length block ≤ block_size) blocks.
Proof.
  intros Hfile Hsize lines.
  destruct block_size as [|n]; [lia|].
  exists (grouper (S n) lines).
  assert (Hlookup : ∀ i, grouper (S n) lines !! i =
          if decide (i * S n < length lines)
          then Some (take (S n) (drop (i * S n) lines)) else None)
    by (intros i; apply grouper_lookup).
  split; [|split; [|split]].
  - unfold read_large_file, read_text_lines, read_file.
    rewrite !bind_unfold, Hfile. cbn [mret M_ret]. fold lines.
    by rewrite read_blocks_grouper by (simpl; lia).
  - apply concat_grouper.
  - exact Hlookup.
  - apply Forall_lookup. intros i block Hi. rewrite Hlookup in Hi.
    destruct (decide (i * S n < length lines)); [|done].
    injection Hi as <-. rewrite length_take, length_drop. lia.
Qed.

(** The hypotheses are met by a file of three lines read in blocks of
    two. *)
Lemma read_large_file_blocks_witness :
  let w := World (<["corpus" := lit "a
b
c
"]> ∅) [] in
  let lines := readlines (universal_newlines (lit "a
b
c
")) in
  ∃ blocks,
    read_large_file "corpus" 2 w = (Ok blocks, w) ∧
    concat blocks = lines ∧
    (∀ i, blocks !! i =
          if decide (i * 2 < length lines)
          then Some (take 2 (drop (i * 2) lines))
          else None) ∧
    Forall (λ block, 1 ≤ length block ≤ 2) blocks.
Proof.
  intros w.
  apply (read_large_file_blocks "corpus" 2 w (lit "a
b
c
")).
  - reflexivity.
  - lia.
Defined.

(** X4.  With [block_size=0] the generator never cuts: a file that holds
    lines is yielded as one block with all of them, and an empty file
    yields no block. *)
Theorem read_large_file_zero_block_size (a_file : string) (w : world)
    (content : str) :
  files w !! a_file = Some content →
  let lines := readlines (universal_newlines content) in
  read_large_file a_file 0 w =
  (Ok (match lines with [] => [] | _ :: _ => [lines] end), w).
Proof.
  intros Hfile lines.
  unfold read_large_file, read_text_lines, read_file.
  rewrite !bind_unfold, Hfile. cbn [mret M_ret]. fold lines.
  by rewrite read_blocks_zero.
Qed.

(** The hypothesis is met by a file of three lines. *)
Lemma read_large_file_zero_block_size_witness :
  let w := World (<["corpus" := lit "a
b
c
"]> ∅) [] in
  let lines := readlines (universal_newlines (lit "a
b
c
")) in
  read_large_file "corpus" 0 w =
  (Ok (match lines with [] => [] | _ :: _ => [lines] end), w).
Proof.
  intros w.
  apply (read_large_file_zero_block_size "corpus" w (lit "a
b
c
")).
  reflexivity.
Defined.

End ReadLargeFile.

(* ===================================================================== *)
(** * What a run writes *)
(* ===================================================================== *)

Section RunOutput.
Import Py file_process Props.

Lemma calls_never_raises (function_name : transform)
    (items : list (str * str)) :
  never_raises function_name →
  (calls function_name items).2 = Ok (map (returned function_name) items).
Proof.
  intros Htotal. induction items as [|[line line_id] items IH]; [done|].
  simpl. unfold returned at 1. simpl.
  destruct (Htotal line line_id) as [y Hy].
  destruct (function_name line line_id) as [printed r]. simpl in Hy.
  subst r. destruct (calls function_name items) as [printed' r'].
  simpl in IH. subst r'. reflexivity.
Qed.

Lemma join_terminated (xs : list str) :
  xs ≠ [] → join [LF] xs ++ [LF] = concat (map (λ x, x ++ [LF]) xs).
Proof.
  induction xs as [|x xs IH]; [done|]. intros _.
  destruct xs as [|x' xs].
  - simpl. by rewrite app_nil_r.
  - rewrite join_cons_cons.
    change (concat (map (λ x, x ++ [LF]) (x :: x' :: xs)))
      with ((x ++ [LF]) ++ concat (map (λ x, x ++ [LF]) (x' :: xs))).
    rewrite <- IH by done. by rewrite <- !app_assoc.
Qed.

(** The items of the chunks, chunk by chunk. *)
Lemma chunk_items (n : nat) (lines ids : list str) :
  length lines = length ids →
  map (λ chunk, zip chunk.1 chunk.2) (chunks (S n) lines ids)
  = grouper (S n) (zip lines ids).
Proof.
  intros Hlen. unfold chunks, grouper. rewrite <- Hlen.
  rewrite zip_grouper_go by done.
  apply grouper_go_fuel; rewrite length_zip_with; lia.
Qed.

Lemma grouper_nonempty {A} (n : nat) (l : list A) :
  Forall (λ group, group ≠ []) (grouper (S n) l).
Proof.
  apply Forall_lookup. intros i group Hi. rewrite grouper_lookup in Hi.
  destruct (decide (i * S n < length l)); [|done]. injection Hi as <-.
  intros Hnil. apply (f_equal length) in Hnil.
  rewrite length_take, length_drop in Hnil. cbn [length] in Hnil. lia.
Qed.

(** The loop over chunks none of which is empty, for a per-line function
    that always returns: the loop ends normally and has appended one
    LF-terminated piece per item to each output. *)
Lemma loop_output (output_file : string) (output_index_file : option string)
    (function_name : transform) (chunks : list (list str * list str))
    (w : world) :
  never_raises function_name →
  output_index_file ≠ Some output_file →
  Forall (λ chunk, zip chunk.1 chunk.2 ≠ []) chunks →
  let items := concat (map (λ chunk, zip chunk.1 chunk.2) chunks) in
  let run :=
    for_each (process_chunk output_file output_index_file function_name)
      chunks w in
  run.1 = Ok () ∧
  file_content run.2 output_file =
    file_content w output_file ++
    concat (map (λ item, (returned function_name item).1 ++ [LF]) items) ∧
  (∀ p, output_index_file = Some p →
     file_content run.2 p =
       file_content w p ++
       concat (map (λ item, (returned function_name item).2 ++ [LF]) items)) ∧
  (chunks ≠ [] → is_Some (files run.2 !! output_file)).
Proof.
  intros Htotal Hdistinct Hne. revert w.
  induction Hne as [|[lines ids] chunks Hchunk _ IH]; intros w; cbv zeta.
  { simpl. rewrite !app_nil_r. split; [done|]. split; [done|].
    split; [|done]. intros p _. by rewrite app_nil_r. }
  cbn [for_each]. rewrite bind_unfold, process_chunk_unfold.
  pose proof (calls_never_raises function_name (zip lines ids) Htotal)
    as Hcalls.
  destruct (calls function_name (zip lines ids)) as [printed r].
  simpl in Hcalls. subst r. simpl in Hchunk.
  set (outs := map (returned function_name) (zip lines ids)).
  assert (Houts1 : outs.*1 ≠ [])
    by (subst outs; by destruct (zip lines ids)).
  assert (Houts2 : outs.*2 ≠ [])
    by (subst outs; by destruct (zip lines ids)).
  assert (Hpiece1 : join [LF] outs.*1 ++ [LF] =
    concat (map (λ item, (returned function_name item).1 ++ [LF])
                (zip lines ids))).
  { rewrite join_terminated by done.
    subst outs. rewrite <- list_fmap_compose. by rewrite map_map. }
  assert (Hpiece2 : join [LF] outs.*2 ++ [LF] =
    concat (map (λ item, (returned function_name item).2 ++ [LF])
                (zip lines ids))).
  { rewrite join_terminated by done.
    subst outs. rewrite <- list_fmap_compose. by rewrite map_map. }
  set (w1 := World (flushed output_file output_index_file outs w)
                   (stdout w ++ printed)).
  destruct (IH w1) as (Hok & Hout & Hidx & Hsome).
  cbn [map concat fst snd]. rewrite !map_app, !concat_app.
  assert (Hout1 : file_content w1 output_file =
    file_content w output_file ++
    concat (map (λ item, (returned function_name item).1 ++ [LF])
                (zip lines ids))).
  { unfold w1, flushed, file_content at 1. simpl.
    destruct output_index_file as [p|].
    - rewrite lookup_insert_ne, lookup_insert_eq by congruence. simpl.
      by rewrite <- Hpiece1.
    - rewrite lookup_insert_eq. simpl. by rewrite <- Hpiece1. }
  split; [exact Hok|]. split; [|split].
  - rewrite Hout, Hout1. by rewrite <- app_assoc.
  - intros p ->. rewrite (Hidx p eq_refl).
    assert (Hidx1 : file_content w1 p =
      file_content w p ++
      concat (map (λ item, (returned function_name item).2 ++ [LF])
                  (zip lines ids))).
    { unfold w1, flushed, file_content at 1. simpl.
      rewrite lookup_insert_eq, lookup_insert_ne by congruence. simpl.
      by rewrite <- Hpiece2. }
    rewrite Hidx1. by rewrite <- app_assoc.
  - intros _. destruct chunks as [|chunk chunks].
    + simpl. unfold w1, flushed. simpl. destruct output_index_file as [p|].
      * rewrite lookup_insert_ne, lookup_insert_eq by congruence. eauto.
      * rewrite lookup_insert_eq. eauto.
    + by apply Hsome.
Qed.

End RunOutput.

Section RunOutputTheorems.
Import Py file_process Props.

Lemma remove_outputs_fresh (output_file : string)
    (output_index_file : option string) (w : world) :
  files (remove_outputs output_file output_index_file None w).2
    !! output_file = None.
Proof.
  unfold remove_outputs, try_except_pass. rewrite bind_unfold.
  unfold os_remove.
  destruct (files w !! output_file) eqn:Hout; simpl; [|done].
  destruct output_index_file as [p|]; simpl.
  - destruct (delete output_file (files w) !! p) eqn:Hp; simpl.
    + destruct (decide (p = output_file)) as [->|Hne].
      * by rewrite lookup_delete_eq.
      * by rewrite lookup_delete_ne, lookup_delete_eq.
    + by rewrite lookup_delete_eq.
  - by rewrite lookup_delete_eq.
Qed.

Lemma chunks_nonempty (n : nat) (lines ids : list str) :
  length lines = length ids →
  Forall (λ chunk, zip chunk.1 chunk.2 ≠ []) (chunks (S n) lines ids).
Proof.
  intros Hlen.
  pose proof (grouper_nonempty n (zip lines ids)) as Hne.
  rewrite <- chunk_items in Hne by done.
  apply Forall_forall. intros chunk Hchunk.
  apply (proj1 (Forall_forall _ _) Hne).
  apply list_elem_of_fmap. by exists chunk.
Qed.

(** What a fresh run that ends normally leaves in its outputs. *)
Lemma run_output (input_file output_file : string)
    (input_file_ids : list str) (output_index_file : option string)
    (function_name : transform) (chunk_size : nat) (w : world)
    (content : str) :
  files w !! input_file = Some content →
  length (readlines content) = length input_file_ids →
  input_file ≠ output_file →
  output_index_file ≠ Some input_file →
  output_index_file ≠ Some output_file →
  never_raises function_name →
  1 ≤ chunk_size →
  let items := zip (readlines content) input_file_ids in
  let w1 := (remove_outputs output_file output_index_file None w).2 in
  let run :=
    process_large_file input_file output_file input_file_ids
      output_index_file function_name chunk_size None w in
  run.1 = Ok () ∧
  files run.2 !! output_file =
    match items with
    | [] => None
    | _ :: _ =>
        Some (concat (map (λ item, (returned function_name item).1 ++ [LF])
                          items))
    end ∧
  (∀ p, output_index_file = Some p →
     file_content run.2 p =
       file_content w1 p ++
       concat (map (λ item, (returned function_name item).2 ++ [LF]) items)).
Proof.
  intros Hin Hlen Hio Hii Hoi Htotal Hsize items w1 run.
  destruct chunk_size as [|n]; [lia|].
  assert (Hrun : run =
    for_each (process_chunk output_file output_index_file function_name)
      (chunks (S n) (readlines content) input_file_ids) w1).
  { subst run. rewrite process_large_file_unfold. cbv zeta. fold w1.
    destruct (remove_outputs_files output_file output_index_file None w
                input_file) as [Heq|(_ & [?|?] & _)]; [|congruence..].
    fold w1 in Heq. by rewrite Heq, Hin, (proj2 (Nat.eqb_eq _ _) Hlen). }
  destruct (loop_output output_file output_index_file function_name
              (chunks (S n) (readlines content) input_file_ids) w1
              Htotal Hoi (chunks_nonempty n _ _ Hlen))
    as (Hok & Hout & Hidx & Hsome).
  rewrite chunks_cover in Hout, Hidx by done. fold items in Hout, Hidx.
  rewrite <- Hrun in Hok, Hout, Hidx, Hsome.
  assert (Hfresh : files w1 !! output_file = None)
    by apply remove_outputs_fresh.
  split; [exact Hok|]. split; [|exact Hidx].
  destruct items as [|item items'] eqn:Hitems.
  - assert (Hnil : chunks (S n) (readlines content) input_file_ids = []).
    { pose proof (chunk_items n _ _ Hlen) as Hci. fold items in Hci.
      subst items. rewrite Hitems in Hci.
      by apply fmap_nil_inv in Hci. }
    rewrite Hrun, Hnil. exact Hfresh.
  - destruct Hsome as [text Htext].
    { intros Hnil. pose proof (chunk_items n _ _ Hlen) as Hci.
      rewrite Hnil in Hci. fold items in Hci. subst items.
      rewrite Hitems in Hci. by rewrite grouper_unfold in Hci. }
    unfold file_content in Hout. rewrite Htext, Hfresh in Hout.
    simpl in Hout. by rewrite Htext, Hout.
Qed.

(** X5.  A fresh run with a per-line function that returns on every item
    and a chunk size of at least one ends normally, and what it leaves
    does not depend on the chunk size: the output corpus holds, for each
    input line in order, the returned text followed by LF, and the
    identifier file has gained, for each input line in order, the
    returned identifier text followed by LF.  On an empty corpus no
    output corpus exists afterwards.  The corpus and the two outputs are
    assumed to be three different files. *)
Theorem fresh_run_output (input_file output_file : string)
    (input_file_ids : list str) (output_index_file : option string)
    (function_name : transform) (chunk_size : nat) (w : world)
    (content : str) :
  files w !! input_file = Some content →
  length (readlines content) = length input_file_ids →
  input_file ≠ output_file →
  output_index_file ≠ Some input_file →
  output_index_file ≠ Some output_file →
  never_raises function_name →
  1 ≤ chunk_size →
  let items := zip (readlines content) input_file_ids in
  let w1 := (remove_outputs output_file output_index_file None w).2 in
  let run :=
    process_large_file input_file output_file input_file_ids
      output_index_file function_name chunk_size None w in
  run.1 = Ok () ∧
  files run.2 !! output_file =
    match items with
    | [] => None
    | _ :: _ =>
        Some (concat (map (λ item, (returned function_name item).1 ++ [LF])
                          items))
    end ∧
  (∀ p, output_index_file = Some p →
     file_content run.2 p =
       file_content w1 p ++
       concat (map (λ item, (returned function_name item).2 ++ [LF]) items)).
Proof. apply run_output. Qed.

(** The hypotheses are met by a two-line corpus processed one line at a
    time. *)
Lemma fresh_run_output_witness :
  let f : transform := λ line line_id, ([], Ok (strip line, line_id)) in
  let ids := [lit "1"; lit "2"] in
  let w := World (<["in" := lit "a
b
"]> ∅) [] in
  let items := zip (readlines (lit "a
b
")) ids in
  let w1 := (remove_outputs "out" (Some "idx") None w).2 in
  let run := process_large_file "in" "out" ids (Some "idx") f 1 None w in
  run.1 = Ok () ∧
  files run.2 !! "out" =
    match items with
    | [] => None
    | _ :: _ => Some (concat (map (λ item, (returned f item).1 ++ [LF]) items))
    end ∧
  (∀ p, Some "idx" = Some p →
     file_content run.2 p =
       file_content w1 p ++
       concat (map (λ item, (returned f item).2 ++ [LF]) items)).
Proof.
  intros f ids w.
  apply (fresh_run_output "in" "out" ids (Some "idx") f 1 w (lit "a
b
")).
  - reflexivity.
  - reflexivity.
  - discriminate.
  - discriminate.
  - discriminate.
  - intros line line_id. by eexists.
  - lia.
Defined.

(** X6.  With [chunk_size=0] the loop has nothing to run over: once the
    counts are checked the run ends normally without calling the
    per-line function or writing anything, so that a fresh run only
    removes the former outputs. *)
Theorem zero_chunk_size_processes_nothing (input_file output_file : string)
    (input_file_ids : list str) (output_index_file : option string)
    (function_name : transform) (w : world) (content : str) :
  files w !! input_file = Some content →
  length (readlines content) = length input_file_ids →
  input_file ≠ output_file →
  output_index_file ≠ Some input_file →
  process_large_file input_file output_file input_file_ids
    output_index_file function_name 0 None w
  = (Ok (), (remove_outputs output_file output_index_file None w).2)
  ∧ files (remove_outputs output_file output_index_file None w).2
      !! output_file = None.
Proof.
  intros Hin Hlen Hio Hii. split; [|apply remove_outputs_fresh].
  rewrite process_large_file_unfold. cbv zeta.
  destruct (remove_outputs_files output_file output_index_file None w
              input_file) as [Heq|(_ & [?|?] & _)]; [|congruence..].
  by rewrite Heq, Hin, (proj2 (Nat.eqb_eq _ _) Hlen).
Qed.

(** The hypotheses are met by a one-line corpus and a former output. *)
Lemma zero_chunk_size_processes_nothing_witness :
  let f : transform := λ line line_id, ([], Ok (strip line, line_id)) in
  let w := World (<["in" := lit "a
"]> (<["out" := lit "former
"]> ∅)) [] in
  process_large_file "in" "out" [lit "1"] None f 0 None w
  = (Ok (), (remove_outputs "out" None None w).2)
  ∧ files (remove_outputs "out" None None w).2 !! "out" = None.
Proof.
  intros f w.
  apply (zero_chunk_size_processes_nothing "in" "out" [lit "1"] None f w
           (lit "a
")).
  - reflexivity.
  - reflexivity.
  - discriminate.
  - discriminate.
Defined.

(** X7.  Resuming beyond the last line: when the counts match and
    [start_index] exceeds the number of lines, the run raises
    [StopIteration] and leaves the world as it was. *)
Theorem resume_beyond_end_stops (input_file output_file : string)
    (input_file_ids : list str) (output_index_file : option string)
    (function_name : transform) (chunk_size start_index : nat) (w : world)
    (content : str) :
  files w !! input_file = Some content →
  length (readlines content) = length input_file_ids →
  length input_file_ids < start_index →
  process_large_file input_file output_file input_file_ids
    output_index_file function_name chunk_size (Some start_index) w
  = (Raise StopIteration, w).
Proof.
  intros Hin Hlen Hstart.
  rewrite process_large_file_unfold. cbv zeta.
  rewrite remove_outputs_resume. cbn [snd].
  rewrite Hin, (proj2 (Nat.eqb_eq _ _) Hlen).
  by rewrite (proj2 (Nat.leb_gt _ _)) by lia.
Qed.

(** The hypotheses are met by a one-line corpus resumed at line two. *)
Lemma resume_beyond_end_stops_witness :
  let f : transform := λ line line_id, ([], Ok (strip line, line_id)) in
  let w := World (<["in" := lit "a
"]> ∅) [] in
  process_large_file "in" "out" [lit "1"] None f 10 (Some 2) w
  = (Raise StopIteration, w).
Proof.
  intros f w.
  apply (resume_beyond_end_stops "in" "out" [lit "1"] None f 10 2 w (lit "a
")).
  - reflexivity.
  - reflexivity.
  - simpl. lia.
Defined.

End RunOutputTheorems.

(* ===================================================================== *)
(** * Words and whitespace *)
(* ===================================================================== *)

Section Words.
Import Py Props text_cleaning.

Lemma split_go_word (word cur rest : str) :
  Forall (λ c, isspace c = false) word →
  split_go cur (word ++ rest) = split_go (rev word ++ cur) rest.
Proof.
  intros Hword. revert cur.
  induction Hword as [|c word Hc _ IH]; intros cur; [done|].
  simpl. rewrite Hc, IH. by rewrite <- app_assoc.
Qed.

Lemma flush_rev (word : str) : word ≠ [] → flush (rev word) = [word].
Proof.
  intros Hne. destruct (rev word) as [|c r] eqn:Hrev.
  - apply (f_equal (@rev ascii)) in Hrev.
    rewrite rev_involutive in Hrev. done.
  - unfold flush. by rewrite <- Hrev, rev_involutive.
Qed.

(** Splitting what was joined gives the words back. *)
Lemma split_join (words : list str) :
  Forall word_like words → split (join [SP] words) = words.
Proof.
  unfold split.
  induction 1 as [|word words [Hne Hword] Hrest IH]; [done|].
  destruct Hrest as [|word' words Hw' Hrest].
  - cbn [join]. rewrite <- (app_nil_r word) at 1.
    rewrite split_go_word by done. cbn [split_go]. rewrite app_nil_r.
    by apply flush_rev.
  - rewrite join_cons_cons. rewrite split_go_word by done.
    rewrite app_nil_r. cbn [app split_go].
    change (isspace SP) with true. cbv iota. rewrite IH.
    by rewrite flush_rev.
Qed.

Lemma split_sub_spaces (s : str) :
  (∀ cur, split_go cur (sub_spaces false s) = split_go cur s) ∧
  split_go [] (sub_spaces true s) = split_go [] s.
Proof.
  induction s as [|c s [IHfalse IHtrue]]; [done|]. simpl.
  destruct (isspace c) eqn:Hc; split; intros; simpl.
  - change (isspace SP) with true. cbv iota. by rewrite IHtrue.
  - exact IHtrue.
  - rewrite Hc. apply IHfalse.
  - rewrite Hc. apply IHfalse.
Qed.

Lemma split_lstrip (s : str) :
  split_go [] (lstrip_chars isspace s) = split_go [] s.
Proof.
  induction s as [|c s IH]; [done|]. simpl.
  destruct (isspace c) eqn:Hc; [done|]. simpl. by rewrite Hc.
Qed.

Lemma split_go_spaces (cur spaces : str) :
  Forall (λ c, isspace c = true) spaces →
  split_go cur spaces = flush cur.
Proof.
  intros Hsp. revert cur.
  induction Hsp as [|c spaces Hc _ IH]; intros cur; [done|].
  simpl. rewrite Hc, IH. simpl. by rewrite app_nil_r.
Qed.

Lemma split_go_trailing (cur s spaces : str) :
  Forall (λ c, isspace c = true) spaces →
  split_go cur (s ++ spaces) = split_go cur s.
Proof.
  intros Hsp. revert cur. induction s as [|c s IH]; intros cur; simpl.
  - by apply split_go_spaces.
  - destruct (isspace c); by rewrite IH.
Qed.

Lemma lstrip_chars_dropped (p : ascii → bool) (s : str) :
  ∃ dropped,
    s = dropped ++ lstrip_chars p s ∧ Forall (λ c, p c = true) dropped.
Proof.
  induction s as [|c s (dropped & IH & Hall)]; simpl.
  { exists []. by split. }
  destruct (p c) eqn:Hc.
  - exists (c :: dropped). split; [simpl; by f_equal|by constructor].
  - exists []. by split.
Qed.

Lemma rstrip_chars_dropped (p : ascii → bool) (s : str) :
  ∃ dropped,
    s = rstrip_chars p s ++ dropped ∧ Forall (λ c, p c = true) dropped.
Proof.
  unfold rstrip_chars.
  destruct (lstrip_chars_dropped p (rev s)) as (d & Hd & Hall).
  exists (rev d). split.
  - rewrite <- rev_app_distr, <- Hd. by rewrite rev_involutive.
  - by apply Forall_rev.
Qed.

(** Stripping does not change the words. *)
Lemma split_strip (s : str) : split (strip s) = split s.
Proof.
  unfold split, strip, strip_chars.
  destruct (rstrip_chars_dropped isspace (lstrip_chars isspace s))
    as (d & Hd & Hall).
  rewrite <- (split_lstrip s). rewrite Hd at 2.
  by rewrite split_go_trailing.
Qed.

Lemma split_remove_extra_whitespace (text : str) :
  split (_remove_extra_whitespace text) = split text.
Proof.
  unfold _remove_extra_whitespace. rewrite split_strip.
  apply (proj1 (split_sub_spaces text)).
Qed.

End Words.

Section Normalisation.
Import Py Props text_cleaning.

(** Joining the words of a text that holds single blanks between its
    words, and nothing else around them, gives the text back. *)
Lemma join_split_go (t cur : str) :
  no_double_space t → blank_only t → starts_clean (rev t) →
  (cur = [] → starts_clean t) →
  join [SP] (split_go cur t) = rev cur ++ t.
Proof.
  revert cur. induction t as [|c t IH]; intros cur Hnd Hblank Hend Hstart.
  { simpl. rewrite app_nil_r. by destruct cur. }
  destruct Hnd as [Hhead Hnd]. apply Forall_cons in Hblank as [Hc Hblank].
  assert (Hend' : starts_clean (rev t)).
  { apply ends_clean_last. apply ends_clean_last in Hend.
    destruct t as [|d t]; [done|]. by rewrite last_cons_cons in Hend. }
  simpl. destruct (isspace c) eqn:Hsp.
  - rewrite (Hc eq_refl) in *.
    destruct cur as [|a cur]; [by specialize (Hstart eq_refl)|].
    destruct t as [|d t].
    { apply ends_clean_last in Hend. simpl in Hend. congruence. }
    assert (Hd : isspace d = false).
    { destruct (isspace d) eqn:Hd; [|done]. by destruct Hhead. }
    specialize (IH [] Hnd Hblank Hend' (λ _, Hd)).
    cbn [flush app]. 
    destruct (split_go [] (d :: t)) as [|x l] eqn:Hsplit; [done|].
    rewrite join_cons_cons, IH. reflexivity.
  - rewrite IH; [|done..|done].
    simpl. by rewrite <- app_assoc.
Qed.

Lemma join_split (t : str) :
  tidy t → blank_only t → join [SP] (split t) = t.
Proof.
  intros (Hstart & Hend & Hnd) Hblank.
  by apply (join_split_go t []).
Qed.

Lemma sub_spaces_blank_only (in_run : bool) (s : str) :
  blank_only (sub_spaces in_run s).
Proof.
  revert in_run. induction s as [|c s IH]; intros in_run; [constructor|].
  simpl. destruct (isspace c) eqn:Hc.
  - destruct in_run; [apply IH|]. constructor; [done|apply IH].
  - constructor; [congruence|apply IH].
Qed.

Lemma strip_blank_only (s : str) : blank_only s → blank_only (strip s).
Proof.
  unfold strip, strip_chars, blank_only. intros Hs.
  destruct (lstrip_chars_suffix isspace s) as [d1 H1].
  destruct (rstrip_chars_prefix isspace (lstrip_chars isspace s))
    as [d2 H2].
  rewrite H1, H2 in Hs.
  by apply Forall_app in Hs as [_ [Hs _]%Forall_app].
Qed.

Lemma remove_extra_whitespace_blank_only (text : str) :
  blank_only (_remove_extra_whitespace text).
Proof. apply strip_blank_only, sub_spaces_blank_only. Qed.

(** Collapsing whitespace is splitting into words and joining them with
    single blanks. *)
Lemma remove_extra_whitespace_join_split (text : str) :
  _remove_extra_whitespace text = join [SP] (split text).
Proof.
  rewrite <- (split_remove_extra_whitespace text).
  symmetry. apply join_split.
  - apply remove_extra_whitespace_tidy.
  - apply remove_extra_whitespace_blank_only.
Qed.

Lemma filter_word_like (P : str → Prop) `{∀ x, Decision (P x)}
    (words : list str) :
  Forall word_like words → Forall word_like (filter P words).
Proof.
  intros Hw. apply Forall_forall. intros word Hin.
  apply list_elem_of_filter in Hin as [_ Hin].
  by apply (proj1 (Forall_forall _ _) Hw).
Qed.

Lemma kept_words_word_like (self : TextCleaner) (words : list str) :
  Forall word_like words → Forall word_like (kept_words self words).
Proof.
  intros Hw. unfold kept_words.
  destruct (remove_stop self), (remove_single self);
    repeat apply filter_word_like; done.
Qed.

(** [clean] in one expression: the words of the text after the
    character steps, the dropped ones left out, joined by single
    blanks. *)
Lemma clean_join_kept_words (self : TextCleaner) (text : str) :
  clean self text =
  join [SP] (kept_words self (split (character_steps self text))).
Proof.
  unfold clean, kept_words. cbv zeta. fold (character_steps self text).
  set (t := character_steps self text).
  unfold _remove_single, _remove_stopwords. cbv zeta.
  destruct (remove_stop self), (remove_single self).
  - rewrite split_join.
    + by rewrite split_remove_extra_whitespace.
    + apply filter_word_like, split_word_like.
  - by rewrite split_remove_extra_whitespace.
  - by rewrite split_remove_extra_whitespace.
  - apply remove_extra_whitespace_join_split.
Qed.

End Normalisation.

(* ===================================================================== *)
(** * What clean guarantees *)
(* ===================================================================== *)

Section CleanCharacters.
Import Py Props text_cleaning.

Variable Q : ascii → Prop.

Lemma split_go_chars (cur s : str) :
  Forall Q cur → Forall Q s → Forall (Forall Q) (split_go cur s).
Proof.
  intros Hcur Hs. revert cur Hcur.
  induction Hs as [|c s Hc _ IH]; intros cur Hcur; simpl.
  - destruct cur; repeat constructor. by apply Forall_rev.
  - destruct (isspace c).
    + apply Forall_app. split; [|by apply IH].
      destruct cur; repeat constructor. by apply Forall_rev.
    + apply IH. by constructor.
Qed.

Lemma join_chars (words : list str) :
  Q SP → Forall (Forall Q) words → Forall Q (join [SP] words).
Proof.
  intros HSP. induction 1 as [|word words Hword Hrest IH]; [constructor|].
  destruct words as [|word' words]; [done|].
  rewrite join_cons_cons. apply Forall_app. split; [done|].
  by constructor.
Qed.

Lemma kept_words_sublist (self : TextCleaner) (words : list str)
    (P : str → Prop) :
  Forall P words → Forall P (kept_words self words).
Proof.
  intros Hw. unfold kept_words.
  assert (Hfilter : ∀ (R : str → Prop) `{∀ x, Decision (R x)} l,
            Forall P l → Forall P (filter R l)).
  { intros R ? l Hl. apply Forall_forall. intros x Hx.
    apply list_elem_of_filter in Hx as [_ Hx].
    by apply (proj1 (Forall_forall _ _) Hl). }
  destruct (remove_stop self), (remove_single self); auto.
Qed.

(** A property of characters that the blank has and the text has after
    the character steps holds of the cleaned text. *)
Lemma clean_chars (self : TextCleaner) (text : str) :
  Q SP → Forall Q (character_steps self text) → Forall Q (clean self text).
Proof.
  intros HSP Hsteps. rewrite clean_join_kept_words.
  apply join_chars; [done|]. apply kept_words_sublist.
  by apply split_go_chars.
Qed.

Lemma sub_digits_chars (s : str) : Forall Q s → Forall Q (sub_digits s).
Proof.
  intros Hs. apply Forall_forall. intros c Hc.
  apply list_elem_of_filter in Hc as [_ Hc].
  by apply (proj1 (Forall_forall _ _) Hs).
Qed.

Lemma sub_repeated_punct_chars (s : str) :
  Forall Q s → Forall Q (sub_repeated_punct s).
Proof.
  induction 1 as [|c s Hc Hs IH]; [constructor|]. simpl.
  destruct s as [|d s]; [by constructor|].
  destruct (ispunct c && bool_decide (c = d)); [done|]. by constructor.
Qed.

Lemma sub_punct_chars (s : str) : Q SP → Forall Q s → Forall Q (sub_punct s).
Proof.
  intros HSP. induction 1 as [|c s Hc Hs IH]; [constructor|]. simpl.
  constructor; [|done]. by destruct (ispunct c).
Qed.

End CleanCharacters.

Section CleanGuarantees.
Import Py Props text_cleaning.

Lemma lower_char_not_upper (c : ascii) : between 65 90 (lower_char c) = false.
Proof. destruct c as [[] [] [] [] [] [] [] []]; reflexivity. Qed.

Lemma lower_not_upper (s : str) :
  Forall (λ c, between 65 90 c = false) (lower s).
Proof.
  induction s as [|c s IH]; constructor; [apply lower_char_not_upper|done].
Qed.

Lemma sub_digits_no_digit (s : str) :
  Forall (λ c, isdigit c = false) (sub_digits s).
Proof.
  apply Forall_forall. intros c Hc.
  by apply list_elem_of_filter in Hc as [Hc _].
Qed.

Lemma sub_punct_no_punct (s : str) :
  Forall (λ c, ispunct c = false) (sub_punct s).
Proof.
  induction s as [|c s IH]; constructor; [|done].
  by destruct (ispunct c) eqn:Hc.
Qed.

Lemma character_steps_not_upper (self : TextCleaner) (text : str) :
  to_lower self = true →
  Forall (λ c, between 65 90 c = false) (character_steps self text).
Proof.
  intros Hlower. unfold character_steps. rewrite Hlower. cbv zeta.
  unfold _to_lower, _remove_numbers, _remove_extra_punctuation,
    _remove_punctuation.
  pose proof (lower_not_upper text) as H0.
  destruct (remove_num self), (remove_extra_punc self), (remove_punc self);
    repeat first [ apply sub_punct_chars; [reflexivity|]
                 | apply sub_repeated_punct_chars
                 | apply sub_digits_chars ]; exact H0.
Qed.

Lemma character_steps_no_digit (self : TextCleaner) (text : str) :
  remove_num self = true →
  Forall (λ c, isdigit c = false) (character_steps self text).
Proof.
  intros Hnum. unfold character_steps. rewrite Hnum. cbv zeta.
  unfold _to_lower, _remove_numbers, _remove_extra_punctuation,
    _remove_punctuation.
  destruct (to_lower self), (remove_extra_punc self), (remove_punc self);
    repeat first [ apply sub_punct_chars; [reflexivity|]
                 | apply sub_repeated_punct_chars ];
    apply sub_digits_no_digit.
Qed.

Lemma character_steps_no_punct (self : TextCleaner) (text : str) :
  remove_punc self = true →
  Forall (λ c, ispunct c = false) (character_steps self text).
Proof.
  intros Hpunc. unfold character_steps. rewrite Hpunc. cbv zeta.
  apply sub_punct_no_punct.
Qed.

Lemma clean_blank_only (self : TextCleaner) (text : str) :
  blank_only (clean self text).
Proof.
  rewrite clean_join_kept_words. unfold blank_only.
  apply join_chars; [done|].
  apply (kept_words_sublist self _ (Forall (λ c, isspace c = true → c = SP))).
  apply Forall_forall. intros word Hword.
  pose proof (proj1 (Forall_forall _ _)
                (split_word_like (character_steps self text)) word Hword)
    as [_ Hns].
  eapply Forall_impl; [exact Hns|]. intros c Hc. simpl in Hc. congruence.
Qed.

(** X8.  The cleaned text holds no upper-case letter when [to_lower] is
    set, no digit when [remove_num] is set and no punctuation character
    when [remove_punc] is set; its only whitespace is the blank. *)
Theorem clean_characters (self : TextCleaner) (text : str) :
  (if to_lower self
   then Forall (λ c, between 65 90 c = false) (clean self text) else True) ∧
  (if remove_num self
   then Forall (λ c, isdigit c = false) (clean self text) else True) ∧
  (if remove_punc self
   then Forall (λ c, ispunct c = false) (clean self text) else True) ∧
  blank_only (clean self text).
Proof.
  split; [|split; [|split]].
  - destruct (to_lower self) eqn:H; [|done].
    apply clean_chars; [reflexivity|]. by apply character_steps_not_upper.
  - destruct (remove_num self) eqn:H; [|done].
    apply clean_chars; [reflexivity|]. by apply character_steps_no_digit.
  - destruct (remove_punc self) eqn:H; [|done].
    apply clean_chars; [reflexivity|]. by apply character_steps_no_punct.
  - apply clean_blank_only.
Qed.

End CleanGuarantees.

Section CleanWords.
Import Py Props text_cleaning.

(** X9.  Collapsing whitespace with the regular expression and stripping
    is the same as splitting the text into words and joining them with
    single blanks. *)
Theorem remove_extra_whitespace_is_join_split (text : str) :
  _remove_extra_whitespace text = join [SP] (split text).
Proof. apply remove_extra_whitespace_join_split. Qed.

(** X10.  Joining with single blanks and splitting are inverse to each
    other: splitting the joined words gives the words back, for words
    that are not empty and hold no whitespace, and joining the words of a
    text gives the text back when its whitespace consists of single
    blanks between words. *)
Theorem split_join_round_trips (words : list str) (text : str) :
  Forall word_like words →
  tidy text → blank_only text →
  split (join [SP] words) = words ∧ join [SP] (split text) = text.
Proof.
  intros Hwords Htidy Hblank. split.
  - by apply split_join.
  - by apply join_split.
Qed.

(** The hypotheses are met by two words and by a text of two words. *)
Lemma split_join_round_trips_witness :
  split (join [SP] [lit "quick"; lit "sale"]) = [lit "quick"; lit "sale"] ∧
  join [SP] (split (lit "act fast")) = lit "act fast".
Proof.
  apply (split_join_round_trips [lit "quick"; lit "sale"] (lit "act fast")).
  - repeat constructor; discriminate.
  - repeat split; vm_compute; intros [? ?]; discriminate.
  - repeat constructor; vm_compute; congruence.
Defined.

(** X11.  The words of the cleaned text are the words of the text after
    the character steps (lower-casing and the removal of digits and
    punctuation, as configured) from which the stop words and the
    one-character words are left out, as configured; the cleaned text is
    these words joined by single blanks. *)
Theorem clean_words (self : TextCleaner) (text : str) :
  split (clean self text) =
    kept_words self (split (character_steps self text)) ∧
  clean self text = join [SP] (split (clean self text)).
Proof.
  assert (Hwords : split (clean self text) =
                   kept_words self (split (character_steps self text))).
  { rewrite clean_join_kept_words. apply split_join.
    apply kept_words_word_like, split_word_like. }
  split; [exact Hwords|].
  rewrite Hwords. apply clean_join_kept_words.
Qed.

(** X12.  No word of the cleaned text is a stop word (of the configured
    set or one of the five fixed tokens) when [remove_stop] is set, and
    every word has at least two characters when [remove_single] is
    set. *)
Theorem clean_drops_words (self : TextCleaner) (text : str) :
  (if remove_stop self
   then Forall (λ word, word ∉ stops self ∪ extra_stops)
               (split (clean self text))
   else True) ∧
  (if remove_single self
   then Forall (λ word, 2 ≤ length word) (split (clean self text))
   else True).
Proof.
  assert (Hwords : split (clean self text) =
                   kept_words self (split (character_steps self text))).
  { rewrite clean_join_kept_words. apply split_join.
    apply kept_words_word_like, split_word_like. }
  rewrite Hwords. unfold kept_words.
  set (words := split (character_steps self text)).
  split.
  - destruct (remove_stop self); [|done].
    apply Forall_forall. intros word Hword.
    destruct (remove_single self).
    + apply list_elem_of_filter in Hword as [_ Hword].
      by apply list_elem_of_filter in Hword as [Hword _].
    + by apply list_elem_of_filter in Hword as [Hword _].
  - destruct (remove_single self); [|done].
    apply Forall_forall. intros word Hword.
    apply list_elem_of_filter in Hword as [Hword _]. lia.
Qed.

End CleanWords.

(* ===================================================================== *)
(** * Cleaning twice *)
(* ===================================================================== *)

Section NoAdjacent.
Import Py Props.

Variable R : ascii → ascii → Prop.

Lemma no_adjacent_app (a b : str) :
  no_adjacent R (a ++ b) → no_adjacent R a ∧ no_adjacent R b.
Proof.
  induction a as [|c a IH]; simpl; [done|].
  intros [Hhead Htail]. destruct (IH Htail) as [Ha Hb].
  split; [|done]. split; [|done].
  destruct a as [|d a]; [done|]. exact Hhead.
Qed.

Lemma no_adjacent_cons (c : ascii) (s : str) :
  (∀ d, ¬ R c d) → no_adjacent R s → no_adjacent R (c :: s).
Proof. intros Hc Hs. simpl. split; [|done]. destruct s; [done|]. apply Hc. Qed.

(** Two texts put together around a character that is related to
    nothing. *)
Lemma no_adjacent_around (a b : str) (x : ascii) :
  (∀ c, ¬ R c x) → (∀ d, ¬ R x d) →
  no_adjacent R a → no_adjacent R b → no_adjacent R (a ++ x :: b).
Proof.
  intros Hleft Hright Ha Hb. induction a as [|c a IH].
  - by apply no_adjacent_cons.
  - destruct Ha as [Hhead Ha]. simpl. split; [|by apply IH].
    destruct a as [|d a]; [apply Hleft|exact Hhead].
Qed.

Lemma split_go_no_adjacent (cur s : str) :
  no_adjacent R (rev cur ++ s) → Forall (no_adjacent R) (split_go cur s).
Proof.
  revert cur. induction s as [|c s IH]; intros cur Hall; simpl.
  - rewrite app_nil_r in Hall. destruct cur; repeat constructor. done.
  - destruct (isspace c).
    + apply no_adjacent_app in Hall as [Hcur Hs].
      change (c :: s) with ([c] ++ s) in Hs.
      apply no_adjacent_app in Hs as [_ Hs].
      apply Forall_app. split; [|by apply IH].
      destruct cur; repeat constructor. done.
    + apply IH. simpl. by rewrite <- app_assoc.
Qed.

Lemma join_no_adjacent (words : list str) :
  (∀ c, ¬ R c SP) → (∀ d, ¬ R SP d) →
  Forall (no_adjacent R) words → no_adjacent R (join [SP] words).
Proof.
  intros Hleft Hright. induction 1 as [|word words Hword Hrest IH]; [done|].
  destruct words as [|word' words]; [done|].
  rewrite join_cons_cons. by apply no_adjacent_around.
Qed.

End NoAdjacent.

Section Idempotence.
Import Py Props text_cleaning.

Lemma sub_repeated_punct_head (s : str) :
  head (sub_repeated_punct s) = head s.
Proof.
  induction s as [|c s IH]; [done|]. simpl.
  destruct s as [|d s]; [done|].
  destruct (ispunct c && bool_decide (c = d)) eqn:Hdup; [|done].
  apply andb_prop in Hdup as [_ Heq]. apply bool_decide_eq_true in Heq.
  rewrite IH. simpl. by subst.
Qed.

Lemma sub_repeated_punct_no_repeat (s : str) :
  no_adjacent repeated_punct (sub_repeated_punct s).
Proof.
  induction s as [|c s IH]; [done|]. simpl.
  destruct s as [|d s]; [done|].
  destruct (ispunct c && bool_decide (c = d)) eqn:Hdup; [exact IH|].
  split; [|exact IH].
  pose proof (sub_repeated_punct_head (d :: s)) as Hhead.
  destruct (sub_repeated_punct (d :: s)) as [|d' s']; [done|].
  simpl in Hhead. injection Hhead as ->.
  intros [Hp Heq]. rewrite Hp in Hdup. simpl in Hdup.
  by apply bool_decide_eq_false in Hdup.
Qed.

Lemma sub_repeated_punct_fixed (s : str) :
  no_adjacent repeated_punct s → sub_repeated_punct s = s.
Proof.
  induction s as [|c s IH]; [done|]. intros [Hhead Hs]. simpl.
  destruct s as [|d s]; [done|].
  destruct (ispunct c && bool_decide (c = d)) eqn:Hdup.
  - apply andb_prop in Hdup as [Hp Heq]. apply bool_decide_eq_true in Heq.
    by destruct Hhead.
  - f_equal. by apply IH.
Qed.

Lemma no_punct_no_repeat (s : str) :
  Forall (λ c, ispunct c = false) s → no_adjacent repeated_punct s.
Proof.
  induction 1 as [|c s Hc _ IH]; [done|]. simpl. split; [|done].
  destruct s; [done|]. intros [Hp _]. congruence.
Qed.

Lemma lower_fixed (s : str) :
  Forall (λ c, between 65 90 c = false) s → lower s = s.
Proof.
  induction 1 as [|c s Hc _ IH]; [done|]. simpl.
  unfold lower_char at 1. rewrite Hc. f_equal. exact IH.
Qed.

Lemma sub_digits_fixed (s : str) :
  Forall (λ c, isdigit c = false) s → sub_digits s = s.
Proof.
  induction 1 as [|c s Hc _ IH]; [done|]. unfold sub_digits in *.
  rewrite filter_cons_True by done. by rewrite IH.
Qed.

Lemma sub_punct_fixed (s : str) :
  Forall (λ c, ispunct c = false) s → sub_punct s = s.
Proof.
  induction 1 as [|c s Hc _ IH]; [done|]. simpl. rewrite Hc. f_equal.
  exact IH.
Qed.

Lemma character_steps_no_repeat (self : TextCleaner) (text : str) :
  remove_extra_punc self = true →
  no_adjacent repeated_punct (character_steps self text).
Proof.
  intros Hextra. unfold character_steps. rewrite Hextra. cbv zeta.
  destruct (remove_punc self).
  - apply no_punct_no_repeat, sub_punct_no_punct.
  - apply sub_repeated_punct_no_repeat.
Qed.

Lemma clean_no_repeat (self : TextCleaner) (text : str) :
  remove_extra_punc self = true →
  no_adjacent repeated_punct (clean self text).
Proof.
  intros Hextra. rewrite clean_join_kept_words.
  apply join_no_adjacent.
  - intros c [Hp ->]. discriminate.
  - intros d [Hp _]. discriminate.
  - apply kept_words_sublist. apply split_go_no_adjacent.
    by apply character_steps_no_repeat.
Qed.

Lemma filter_all {A} (P : A → Prop) `{∀ x, Decision (P x)} (l : list A) :
  Forall P l → filter P l = l.
Proof.
  induction 1 as [|x l Hx _ IH]; [done|].
  rewrite filter_cons_True by done. by rewrite IH.
Qed.

Lemma kept_words_idempotent (self : TextCleaner) (words : list str) :
  kept_words self (kept_words self words) = kept_words self words.
Proof.
  unfold kept_words.
  destruct (remove_stop self), (remove_single self); [|..|done].
  - rewrite (filter_all (λ word, word ∉ stops self ∪ extra_stops)).
    + apply filter_all. apply Forall_forall. intros word Hword.
      by apply list_elem_of_filter in Hword as [Hword _].
    + apply Forall_forall. intros word Hword.
      apply list_elem_of_filter in Hword as [_ Hword].
      by apply list_elem_of_filter in Hword as [Hword _].
  - apply filter_all. apply Forall_forall. intros word Hword.
    by apply list_elem_of_filter in Hword as [Hword _].
  - apply filter_all. apply Forall_forall. intros word Hword.
    by apply list_elem_of_filter in Hword as [Hword _].
Qed.

(** The character steps leave a cleaned text as it is. *)
Lemma character_steps_clean (self : TextCleaner) (text : str) :
  character_steps self (clean self text) = clean self text.
Proof.
  pose proof (clean_chars (λ c, between 65 90 c = false) self text eq_refl)
    as Hupper.
  pose proof (clean_chars (λ c, isdigit c = false) self text eq_refl)
    as Hdigit.
  pose proof (clean_chars (λ c, ispunct c = false) self text eq_refl)
    as Hpunct.
  pose proof (clean_no_repeat self text) as Hrepeat.
  pose proof (character_steps_not_upper self text) as Hupper'.
  pose proof (character_steps_no_digit self text) as Hdigit'.
  pose proof (character_steps_no_punct self text) as Hpunct'.
  set (r := clean self text) in *.
  unfold character_steps. cbv zeta.
  unfold _to_lower, _remove_numbers, _remove_extra_punctuation,
    _remove_punctuation.
  destruct (to_lower self);
    [rewrite (lower_fixed r) by auto|];
    (destruct (remove_num self);
       [rewrite (sub_digits_fixed r) by auto|]);
    (destruct (remove_extra_punc self);
       [rewrite (sub_repeated_punct_fixed r) by auto|]);
    (destruct (remove_punc self);
       [rewrite (sub_punct_fixed r) by auto|]); reflexivity.
Qed.

(** X13.  [clean] is idempotent: cleaning a cleaned text with the same
    [TextCleaner] changes nothing. *)
Theorem clean_idempotent (self : TextCleaner) (text : str) :
  clean self (clean self text) = clean self text.
Proof.
  rewrite (clean_join_kept_words self (clean self text)).
  rewrite character_steps_clean.
  rewrite (clean_join_kept_words self text) at 1.
  rewrite split_join by apply kept_words_word_like, split_word_like.
  rewrite kept_words_idempotent. symmetry. apply clean_join_kept_words.
Qed.

End Idempotence.

(* ===================================================================== *)
(** * Sentence identifiers and document identifiers *)
(* ===================================================================== *)

Section Identifiers.
Import Py Props file_process parse score.

Lemma split_on_nonempty (sep : ascii) (s : str) : split_on sep s ≠ [].
Proof.
  induction s as [|c s IH]; [done|]. simpl.
  case_bool_decide; [done|]. by destruct (split_on sep s).
Qed.

(** The first field ends at the first separator. *)
Lemma split_on_head_app (sep : ascii) (a b : str) :
  sep ∉ a → hd [] (split_on sep (a ++ sep :: b)) = a.
Proof.
  induction a as [|c a IH]; intros Hnot; simpl.
  - by rewrite bool_decide_eq_true_2.
  - apply not_elem_of_cons in Hnot as [Hc Ha].
    rewrite bool_decide_eq_false_2 by congruence.
    specialize (IH Ha).
    pose proof (split_on_nonempty sep (a ++ sep :: b)) as Hne.
    destruct (split_on sep (a ++ sep :: b)) as [|w ws]; [done|].
    simpl in *. by subst.
Qed.

Lemma split_on_head_whole (sep : ascii) (a : str) :
  sep ∉ a → hd [] (split_on sep a) = a.
Proof.
  induction a as [|c a IH]; intros Hnot; simpl; [done|].
  apply not_elem_of_cons in Hnot as [Hc Ha].
  rewrite bool_decide_eq_false_2 by congruence.
  specialize (IH Ha).
  pose proof (split_on_nonempty sep a) as Hne.
  destruct (split_on sep a) as [|w ws]; [done|].
  simpl in *. by subst.
Qed.

(** A text with a separator begins with a separator-free part followed
    by the separator. *)
Lemma first_separator (sep : ascii) (s : str) :
  sep ∈ s → ∃ a b, s = a ++ sep :: b ∧ sep ∉ a.
Proof.
  induction s as [|c s IH]; intros Hin.
  - by apply not_elem_of_nil in Hin.
  - destruct (decide (c = sep)) as [->|Hne].
    + exists [], s. split; [done|]. apply not_elem_of_nil.
    + apply elem_of_cons in Hin as [?|Hin]; [congruence|].
      destruct (IH Hin) as (a & b & -> & Ha).
      exists (c :: a), b. split; [done|].
      apply not_elem_of_cons. split; [congruence|done].
Qed.

(** X14.  The document identifier that the aggregation reads off a
    sentence identifier made by [parse_line] is the part of the document
    identifier given to [parse_line] that stands before its first
    underscore: it holds no underscore itself, it is the whole
    identifier when that holds none, and otherwise the identifier
    continues with an underscore after it.  Documents that share that
    part are therefore merged. *)
Theorem doc_id_of_sentence_id (line_id : str) (n : nat) :
  doc_id_of (line_id ++ lit "_" ++ str_of_nat n) = doc_id_of line_id ∧
  ("_"%char ∉ doc_id_of line_id) ∧
  (if decide ("_"%char ∈ line_id)
   then ∃ rest, line_id = doc_id_of line_id ++ "_"%char :: rest
   else doc_id_of line_id = line_id).
Proof.
  unfold doc_id_of.
  destruct (decide ("_"%char ∈ line_id)) as [Hin|Hnot].
  - destruct (first_separator _ _ Hin) as (a & b & -> & Ha).
    rewrite <- app_assoc. simpl.
    rewrite !split_on_head_app by done.
    split; [done|]. split; [done|]. by exists b.
  - rewrite (split_on_head_whole _ line_id) by done.
    change (lit "_" ++ str_of_nat n) with ("_"%char :: str_of_nat n).
    by rewrite split_on_head_app.
Qed.

End Identifiers.

(* ===================================================================== *)
(** * parse_line on well-formed sentences *)
(* ===================================================================== *)

Section ParseLineAligned.
Import Py Props file_process parse.

Lemma count_LF_absent (s : str) : LF ∉ s → count_LF s = 0.
Proof.
  induction s as [|c s IH]; [done|]. intros Hnot.
  apply not_elem_of_cons in Hnot as [Hc Hs].
  rewrite count_LF_cons, bool_decide_eq_false_2 by congruence. by apply IH.
Qed.

(** Texts without line feed, joined by line feeds, hold one line feed
    less than there are texts. *)
Lemma count_LF_join_lines (xs : list str) :
  Forall (λ x, LF ∉ x) xs → count_LF (join [LF] xs) = pred (length xs).
Proof.
  induction 1 as [|x xs Hx Hrest IH]; [done|].
  destruct xs as [|x' xs].
  - simpl. by apply count_LF_absent.
  - rewrite join_cons_cons, !count_LF_app, IH, (count_LF_absent x) by done.
    reflexivity.
Qed.

Lemma string_of_uint_no_LF (d : Decimal.uint) :
  LF ∉ lit (NilEmpty.string_of_uint d).
Proof.
  induction d; simpl;
    [apply not_elem_of_nil
    |apply not_elem_of_cons; split; [discriminate|exact IHd]..].
Qed.

Lemma str_of_nat_no_LF (n : nat) : LF ∉ str_of_nat n.
Proof. apply string_of_uint_no_LF. Qed.

(** X15.  When the splitter returns sentences none of which is blank or
    holds a line feed between its ends, and the line identifier holds no
    line feed, [parse_line] prints nothing and returns as many lines of
    text as lines of identifiers: one of each per sentence, or one empty
    line of each when there is no sentence. *)
Theorem parse_line_aligned (sentence_split : str → split_outcome)
    (line line_id : str) (sent : list (nat * list ascii)) :
  sentence_split line = Sentences sent →
  Forall (λ item, strip item.2 ≠ [] ∧ LF ∉ strip_LF item.2) sent →
  LF ∉ line_id →
  ∃ text ids,
    parse_line sentence_split line line_id = ([], Ok (text, ids)) ∧
    count_LF text = pred (length sent) ∧
    count_LF ids = pred (length sent) ∧
    line_count (text ++ [LF]) = line_count (ids ++ [LF]).
Proof.
  intros Hsplit Hsent Hid. unfold parse_line. rewrite Hsplit.
  eexists _, _. split; [reflexivity|].
  assert (Hfilter : filter (λ item : nat * str, strip item.2 ≠ []) sent = sent).
  { apply filter_all. eapply Forall_impl; [exact Hsent|]. by intros ? [? _]. }
  rewrite Hfilter.
  assert (Htext : count_LF (join [LF] (map (λ item : nat * str,
                     strip_LF item.2) sent)) = pred (length sent)).
  { rewrite count_LF_join_lines, length_map; [done|].
    apply Forall_forall. intros x Hx.
    apply list_elem_of_fmap in Hx as (item & -> & Hitem).
    by apply (proj1 (Forall_forall _ _) Hsent item). }
  assert (Hids : count_LF (join [LF] (map (λ item : nat * str,
                    line_id ++ lit "_" ++ str_of_nat item.1) sent))
                 = pred (length sent)).
  { rewrite count_LF_join_lines, length_map; [done|].
    apply Forall_forall. intros x Hx.
    apply list_elem_of_fmap in Hx as (item & -> & Hitem).
    rewrite !elem_of_app. intros [?|[Hu|Hn]]; [done| |].
    - apply list_elem_of_singleton in Hu. discriminate.
    - by apply str_of_nat_no_LF in Hn. }
  split; [exact Htext|]. split; [exact Hids|].
  unfold line_count, readlines.
  rewrite !readlines_go_length. by rewrite Htext, Hids.
Qed.

(** The hypotheses are met by a line of two sentences. *)
Lemma parse_line_aligned_witness :
  let sent := [(0, lit "Priced to sell."); (1, lit "Act fast.")] in
  ∃ text ids,
    parse_line (λ _, Sentences sent) (lit "Priced to sell. Act fast.")
               (lit "7")
    = ([], Ok (text, ids)) ∧
    count_LF text = pred (length sent) ∧
    count_LF ids = pred (length sent) ∧
    line_count (text ++ [LF]) = line_count (ids ++ [LF]).
Proof.
  intros sent.
  apply (parse_line_aligned (λ _, Sentences sent)
           (lit "Priced to sell. Act fast.") (lit "7") sent).
  - reflexivity.
  - repeat constructor; vm_compute; try discriminate;
      intros H%list_elem_of_In; simpl in H; intuition discriminate.
  - intros H%list_elem_of_In; simpl in H; intuition discriminate.
Defined.

End ParseLineAligned.

(* ===================================================================== *)
(** * Documents and their words *)
(* ===================================================================== *)

Section DocumentWords.
Import Py Props file_process score.

Lemma split_go_blank (cur a b : str) :
  split_go cur (a ++ SP :: b) = split_go cur a ++ split_go [] b.
Proof.
  revert cur. induction a as [|c a IH]; intros cur; simpl.
  - change (isspace SP) with true. reflexivity.
  - destruct (isspace c); rewrite IH; [|done]. by rewrite app_assoc.
Qed.

Lemma split_join_sentences (sentences : list str) :
  split (join [SP] sentences) = concat (map split sentences).
Proof.
  induction sentences as [|s sentences IH]; [done|].
  destruct sentences as [|s' sentences].
  - simpl. by rewrite app_nil_r.
  - rewrite join_cons_cons. unfold split at 1. cbn [app].
    rewrite split_go_blank. fold (split s).
    fold (split (join [SP] (s' :: sentences))). by rewrite IH.
Qed.

Lemma first_seen_NoDup (l : list str) : NoDup (first_seen l).
Proof.
  induction l as [|x l IH]; [constructor|]. simpl. constructor.
  - intros Hin. by apply list_elem_of_filter in Hin as [Hne _].
  - by apply NoDup_filter.
Qed.

Lemma first_seen_elem_of (l : list str) (x : str) :
  x ∈ first_seen l ↔ x ∈ l.
Proof.
  split; [apply first_seen_subseteq|].
  induction l as [|y l IH]; [done|]. simpl.
  intros [->|Hin]%elem_of_cons; [apply list_elem_of_here|].
  destruct (decide (x = y)) as [->|Hne]; [apply list_elem_of_here|].
  apply list_elem_of_further, list_elem_of_filter. split; [done|]. by apply IH.
Qed.

Lemma first_seen_length (l : list str) : length (first_seen l) ≤ length l.
Proof.
  induction l as [|x l IH]; [done|]. simpl.
  pose proof (length_filter (λ y, y ≠ x) (first_seen l)). lia.
Qed.

(** X16.  The outcome of the aggregation on two lists: with different
    lengths it is the assertion error; with equal lengths it returns
    as many texts as identifiers, the identifiers are pairwise distinct,
    they are exactly the document identifiers of the sentences, and
    there are at most as many documents as sentences.  No other error
    can occur. *)
Theorem doc_level_corpus_outcome (sent_corpus sent_IDs : list str) :
  match doc_level_corpus sent_corpus sent_IDs with
  | Ok (corpus, doc_ids, N_doc) =>
      length sent_IDs = length sent_corpus ∧
      length corpus = N_doc ∧ length doc_ids = N_doc ∧
      N_doc ≤ length sent_corpus ∧
      NoDup doc_ids ∧
      (∀ d, d ∈ doc_ids ↔ d ∈ map doc_id_of sent_IDs)
  | Raise e =>
      length sent_IDs ≠ length sent_corpus ∧
      e = AssertionError "len(sent_IDs) == len(sent_corpus)"
  end.
Proof.
  destruct (decide (length sent_IDs = length sent_corpus)) as [Hlen|Hlen].
  - rewrite doc_level_corpus_spec by done. cbv zeta.
    rewrite length_map. split; [done|]. split; [done|]. split; [done|].
    split; [|split].
    + rewrite <- Hlen, <- (length_map doc_id_of sent_IDs).
      apply first_seen_length.
    + apply first_seen_NoDup.
    + intros d. apply first_seen_elem_of.
  - unfold doc_level_corpus.
    by rewrite (proj2 (Nat.eqb_neq _ _) Hlen).
Qed.

(** X17.  The words of a document text returned by the aggregation are
    the words of its sentences, in the order of the sentences: the
    blanks added in front and in between change nothing for the stages
    that split the text into words. *)
Theorem document_words (sent_corpus sent_IDs : list str) :
  length sent_IDs = length sent_corpus →
  ∃ corpus doc_ids N_doc,
    doc_level_corpus sent_corpus sent_IDs = Ok (corpus, doc_ids, N_doc) ∧
    map split corpus =
    map (λ d, concat (map split
                (sentences_of d (map doc_id_of sent_IDs) sent_corpus)))
        doc_ids.
Proof.
  intros Hlen. rewrite doc_level_corpus_spec by done. cbv zeta.
  eexists _, _, _. split; [reflexivity|].
  rewrite map_map. apply map_ext. intros d.
  unfold split at 1. simpl. change (isspace SP) with true. cbv iota.
  apply split_join_sentences.
Qed.

(** The hypothesis is met by three sentences of two documents. *)
Lemma document_words_witness :
  let sent_corpus := [lit "quick sale"; lit "act fast"; lit "quiet street"] in
  let sent_IDs := [lit "1_0"; lit "1_1"; lit "2_0"] in
  ∃ corpus doc_ids N_doc,
    doc_level_corpus sent_corpus sent_IDs = Ok (corpus, doc_ids, N_doc) ∧
    map split corpus =
    map (λ d, concat (map split
                (sentences_of d (map doc_id_of sent_IDs) sent_corpus)))
        doc_ids.
Proof.
  intros sent_corpus sent_IDs.
  apply (document_words sent_corpus sent_IDs). reflexivity.
Defined.

End DocumentWords.

(* ===================================================================== *)
(** * More on document frequencies *)
(* ===================================================================== *)

Section DocumentFrequencyFacts.
Import Py Props score.

Lemma calculate_df_lookup (corpus : list str) (word : str) :
  calculate_df corpus !! word =
  match documents_with word corpus with
  | 0 => None
  | S n => Some (S n)
  end.
Proof.
  unfold calculate_df. rewrite count_documents, lookup_empty.
  by destruct (documents_with word corpus).
Qed.

(** X18.  Every count of the document-frequency table lies between one
    and the number of documents. *)
Theorem calculate_df_bounds (corpus : list str) (word : str) (n : nat) :
  calculate_df corpus !! word = Some n → 1 ≤ n ≤ length corpus.
Proof.
  rewrite calculate_df_lookup.
  pose proof (length_filter (λ doc, word ∈ split doc) corpus) as Hle.
  unfold documents_with in *.
  destruct (length (filter _ corpus)); [done|]. intros [= <-]. lia.
Qed.

(** The hypothesis is met by a word of two documents out of three. *)
Lemma calculate_df_bounds_witness :
  1 ≤ 2 ≤ length [lit "to be or not to be"; lit "to do"; lit "done"].
Proof.
  apply (calculate_df_bounds
           [lit "to be or not to be"; lit "to do"; lit "done"] (lit "to") 2).
  vm_compute. reflexivity.
Defined.

(** X19.  The table does not depend on the order of the documents. *)
Theorem calculate_df_permutation (corpus1 corpus2 : list str) :
  corpus1 ≡ₚ corpus2 → calculate_df corpus1 = calculate_df corpus2.
Proof.
  intros Hperm. apply map_eq. intros word.
  rewrite !calculate_df_lookup. unfold documents_with.
  by rewrite Hperm.
Qed.

(** The hypothesis is met by two documents in either order. *)
Lemma calculate_df_permutation_witness :
  calculate_df [lit "act fast"; lit "fast sale"] =
  calculate_df [lit "fast sale"; lit "act fast"].
Proof.
  apply (calculate_df_permutation [lit "act fast"; lit "fast sale"]
           [lit "fast sale"; lit "act fast"]).
  apply perm_swap.
Defined.

(** X20.  The count of a word in a corpus made of two parts is the sum
    of its counts in the parts, a missing entry counting as zero. *)
Theorem calculate_df_app (corpus1 corpus2 : list str) (word : str) :
  default 0 (calculate_df (corpus1 ++ corpus2) !! word) =
  default 0 (calculate_df corpus1 !! word) +
  default 0 (calculate_df corpus2 !! word).
Proof.
  rewrite !calculate_df_lookup. unfold documents_with.
  rewrite filter_app, length_app.
  by destruct (length (filter _ corpus1)), (length (filter _ corpus2)).
Qed.

End DocumentFrequencyFacts.

(* ===================================================================== *)
(** * file_bigramer *)
(* ===================================================================== *)

Section Bigramer.
Import Py Props file_process multiple_word_detect.

Lemma word_like_no_LF (word : str) : word_like word → LF ∉ word.
Proof.
  intros [_ Hns] Hin.
  by apply (proj1 (Forall_forall _ _) Hns) in Hin.
Qed.

Lemma bigram_transform_no_LF (line : str) (bigram_phraser : phraser) :
  (∀ words, Forall (λ t, LF ∉ t) words →
            Forall (λ t, LF ∉ t) (bigram_phraser words)) →
  LF ∉ bigram_transform line bigram_phraser.
Proof.
  intros Hmodel. unfold bigram_transform.
  assert (Hall : Forall (λ c, c ≠ LF)
                   (join [SP] (bigram_phraser (split line)))).
  { apply join_chars; [discriminate|].
    assert (Hwords : Forall (λ t, LF ∉ t) (bigram_phraser (split line))).
    { apply Hmodel. eapply Forall_impl; [apply split_word_like|].
      apply word_like_no_LF. }
    eapply Forall_impl; [exact Hwords|]. intros t Ht.
    apply Forall_forall. by intros c Hc ->. }
  intros Hin. by apply (proj1 (Forall_forall _ _) Hall) in Hin.
Qed.

Lemma truncate_append {A} (path : string) (text : str) (k : M A)
    (w : world) :
  (truncate_file path ;; append_file path text ;; k) w =
  k (World (<[path := text]> (files w)) (stdout w)).
Proof.
  rewrite bind_unfold. unfold truncate_file. rewrite bind_unfold.
  unfold append_file, file_content. simpl.
  by rewrite lookup_insert_eq, insert_insert_eq.
Qed.

Lemma line_counter_world (path : string) (w : world) (text : str) :
  files w !! path = Some text →
  line_counter path w = (Ok (length (readlines text)), w).
Proof.
  intros Hfile. unfold line_counter, read_file.
  by rewrite bind_unfold, Hfile.
Qed.

(** X21.  On an input file without lines [file_bigramer] fails its own
    closing assertion: it has written one empty line, so the output
    counts one line against none read. *)
Theorem file_bigramer_empty_input (input_path output_path : string)
    (bigram_model : phraser) (w : world) :
  files w !! input_path = Some [] →
  file_bigramer input_path output_path bigram_model w =
  (Raise (AssertionError
            "len(input_data) == file_process.line_counter(output_path)"),
   World (<[output_path := [LF]]> (files w)) (stdout w)).
Proof.
  intros Hin. unfold file_bigramer, read_text_lines, read_file.
  rewrite !bind_unfold, Hin. cbn [mret M_ret universal_newlines readlines
    readlines_go flush map join app].
  rewrite truncate_append, bind_unfold.
  rewrite (line_counter_world _ _ [LF]) by apply lookup_insert_eq.
  reflexivity.
Qed.

(** The hypothesis is met by an empty file. *)
Lemma file_bigramer_empty_input_witness :
  let w := World (<["unigram" := []]> ∅) [] in
  file_bigramer "unigram" "bigram" (λ words, words) w =
  (Raise (AssertionError
            "len(input_data) == file_process.line_counter(output_path)"),
   World (<["bigram" := [LF]]> (files w)) (stdout w)).
Proof.
  intros w.
  apply (file_bigramer_empty_input "unigram" "bigram" (λ words, words) w).
  reflexivity.
Defined.

(** X22.  On an input file that holds lines, and with a phrase model
    that makes no word with a line feed out of words without one,
    [file_bigramer] ends normally and writes one line per input line: the
    words of the line as the model regroups them, joined by single
    blanks. *)
Theorem file_bigramer_line_by_line (input_path output_path : string)
    (bigram_model : phraser) (w : world) (content : str) :
  files w !! input_path = Some content →
  readlines (universal_newlines content) ≠ [] →
  (∀ words, Forall (λ t, LF ∉ t) words →
            Forall (λ t, LF ∉ t) (bigram_model words)) →
  let written :=
    map (λ line, join [SP] (bigram_model (split line)) ++ [LF])
        (readlines (universal_newlines content)) in
  file_bigramer input_path output_path bigram_model w =
    (Ok (), World (<[output_path := concat written]> (files w)) (stdout w))
  ∧ readlines (concat written) = written.
Proof.
  intros Hin Hne Hmodel written.
  set (lines := readlines (universal_newlines content)) in *.
  set (data := map (λ l, bigram_transform l bigram_model) lines).
  assert (Hwritten : written = map (λ e, e ++ [LF]) data).
  { subst written data. by rewrite map_map. }
  assert (Hread : readlines (concat written) = written).
  { rewrite Hwritten. apply readlines_terminated.
    apply Forall_forall. intros e He.
    apply list_elem_of_fmap in He as (line & -> & _).
    by apply bigram_transform_no_LF. }
  split; [|exact Hread].
  unfold file_bigramer, read_text_lines, read_file.
  rewrite !bind_unfold, Hin. cbn [mret M_ret]. fold lines. fold data.
  rewrite truncate_append, bind_unfold.
  rewrite join_terminated by (subst data; by destruct lines).
  rewrite <- Hwritten.
  rewrite (line_counter_world _ _ (concat written)) by apply lookup_insert_eq.
  rewrite Hread.
  assert (Hlen : length written = length lines)
    by (subst written; apply length_map).
  by rewrite Hlen, Nat.eqb_refl.
Qed.

(** The hypotheses are met by a two-line file and the model that leaves
    the words as they are. *)
Lemma file_bigramer_line_by_line_witness :
  let w := World (<["unigram" := lit "quick  sale
act fast
"]> ∅) [] in
  let written :=
    map (λ line, join [SP] (split line) ++ [LF])
        (readlines (universal_newlines (lit "quick  sale
act fast
"))) in
  file_bigramer "unigram" "bigram" (λ words, words) w =
    (Ok (), World (<["bigram" := concat written]> (files w)) (stdout w))
  ∧ readlines (concat written) = written.
Proof.
  intros w.
  apply (file_bigramer_line_by_line "unigram" "bigram" (λ words, words) w
           (lit "quick  sale
act fast
")).
  - reflexivity.
  - vm_compute. discriminate.
  - intros words Hwords. exact Hwords.
Defined.

End Bigramer.

(* ===================================================================== *)
(** * merge_fields_and_contents *)
(* ===================================================================== *)

Section MergeLemmas.
Import Py Props file_process.

Lemma elem_of_rev_list (c : ascii) (s : str) : c ∈ rev s ↔ c ∈ s.
Proof. rewrite !list_elem_of_In. symmetry. apply in_rev. Qed.

Lemma readlines_go_shape (cur s : str) :
  LF ∉ cur →
  Forall (λ line, ∃ body, (LF ∉ body) ∧ (line = body ++ [LF] ∨ line = body))
         (readlines_go cur s).
Proof.
  revert cur. induction s as [|c s IH]; intros cur Hcur; simpl.
  - destruct cur as [|a cur]; [constructor|].
    constructor; [|constructor]. exists (rev (a :: cur)).
    split; [|by right]. by rewrite elem_of_rev_list.
  - case_bool_decide as Hc.
    + subst c. constructor.
      * exists (rev cur). split; [by rewrite elem_of_rev_list|]. by left.
      * apply IH, not_elem_of_nil.
    + apply IH. apply not_elem_of_cons. split; [congruence|done].
Qed.

Lemma strip_subseteq (s : str) (c : ascii) : c ∈ strip s → c ∈ s.
Proof.
  unfold strip, strip_chars. intros Hin.
  destruct (lstrip_chars_suffix isspace s) as [d1 H1].
  destruct (rstrip_chars_prefix isspace (lstrip_chars isspace s))
    as [d2 H2].
  rewrite H1, H2. rewrite !elem_of_app. auto.
Qed.

(** A stripped line of a file holds no line feed. *)
Lemma strip_line_no_LF (s line : str) :
  line ∈ readlines s → LF ∉ strip line.
Proof.
  intros Hin.
  pose proof (readlines_go_shape [] s (not_elem_of_nil _)) as Hshape.
  destruct (proj1 (Forall_forall _ _) Hshape line Hin)
    as (body & Hbody & [->| ->]).
  - rewrite strip_line. intros H. by apply strip_subseteq in H.
  - intros H. by apply strip_subseteq in H.
Qed.

Lemma merge_content_new (d : list (str * str)) (key content : str) :
  key ∉ d.*1 → merge_content d key content = d ++ [(key, content)].
Proof.
  induction d as [|[k v] d IH]; simpl; [done|].
  intros Hnotin. apply not_elem_of_cons in Hnotin as [Hne Hnotin].
  rewrite decide_False by done. by rewrite IH.
Qed.

Lemma merge_content_old (d : list (str * str)) (key content : str) :
  key ∈ d.*1 →
  merge_content d key content = score.iadd d key (content ++ [SP]).
Proof.
  induction d as [|[k v] d IH]; simpl.
  { intros Hin. by apply not_elem_of_nil in Hin. }
  intros Hin. destruct (decide (k = key)) as [->|Hne]; [done|].
  f_equal. apply IH. apply elem_of_cons in Hin as [?|?]; [congruence|done].
Qed.

Lemma later_contents_cons (k key content : str) (ps : list (str * str)) :
  later_contents k ((key, content) :: ps) =
  if decide (key = k) then (content ++ [SP]) ++ later_contents k ps
  else later_contents k ps.
Proof.
  unfold later_contents. rewrite filter_cons. simpl.
  destruct (decide (key = k)); done.
Qed.

Lemma merged_text_cons (k key content : str) (ps : list (str * str)) :
  merged_text k ((key, content) :: ps) =
  if decide (key = k) then content ++ later_contents k ps
  else merged_text k ps.
Proof.
  unfold merged_text, later_contents. rewrite filter_cons. simpl.
  destruct (decide (key = k)); done.
Qed.

(** The merged entries after the loop has run over [ps], started with
    the entries [d]. *)
Lemma foldl_merge_content (ps : list (str * str)) (d : list (str * str)) :
  NoDup d.*1 →
  foldl (λ d p, merge_content d p.1 p.2) d ps =
  map (λ e, (e.1, e.2 ++ later_contents e.1 ps)) d ++
  map (λ k, (k, merged_text k ps))
      (filter (λ k, k ∉ d.*1) (first_seen ps.*1)).
Proof.
  revert d. induction ps as [|[key content] ps IH]; intros d Hnodup.
  { simpl. rewrite app_nil_r. rewrite <- (map_id d) at 1.
    apply map_ext. intros [k v]. simpl. by rewrite app_nil_r. }
  cbn [foldl fst snd fmap list_fmap first_seen].
  destruct (decide (key ∈ d.*1)) as [Hin|Hnotin].
  - rewrite merge_content_old by done. rewrite IH.
    2: { by rewrite iadd_old, iadd_old_keys. }
    rewrite iadd_old by done.
    rewrite filter_cons, decide_False by (by intros Hn; apply Hn).
    f_equal.
    + rewrite map_map. apply map_ext. intros [k v]. simpl.
      rewrite later_contents_cons.
      destruct (decide (k = key)) as [->|Hne].
      * rewrite decide_True by done. by rewrite <- !app_assoc.
      * rewrite decide_False by congruence. done.
    + rewrite iadd_old_keys, list_filter_filter.
      assert (Hfilter :
        filter (λ k, k ∉ d.*1) (first_seen ps.*1) =
        filter (λ k, (k ∉ d.*1) ∧ k ≠ key) (first_seen ps.*1)).
      { apply list_filter_iff. intros k. split; [|tauto].
        intros Hk. split; [done|]. by intros ->. }
      rewrite Hfilter. apply map_ext_in. intros k Hk.
      apply list_elem_of_In, list_elem_of_filter in Hk as [[_ Hne] _].
      rewrite merged_text_cons, decide_False by congruence. done.
  - rewrite merge_content_new by done. rewrite IH.
    2: { rewrite fmap_app. simpl.
         apply NoDup_app. split; [done|]. split; [|apply NoDup_singleton].
         intros x Hx ->%list_elem_of_singleton. done. }
    rewrite filter_cons, decide_True by done.
    rewrite map_app, <- app_assoc. simpl. f_equal.
    + apply map_ext_in. intros [k v] Hk. simpl.
      rewrite later_contents_cons, decide_False; [done|].
      intros ->. apply Hnotin, list_elem_of_fmap. exists (k, v).
      split; [done|]. by apply list_elem_of_In.
    + rewrite merged_text_cons, decide_True by done. f_equal.
      rewrite fmap_app. simpl. rewrite list_filter_filter.
      assert (Hfilter :
        filter (λ k, k ∉ d.*1 ++ [key]) (first_seen ps.*1) =
        filter (λ k, (k ∉ d.*1) ∧ k ≠ key) (first_seen ps.*1)).
      { apply list_filter_iff. intros k.
        rewrite elem_of_app, list_elem_of_singleton. tauto. }
      rewrite Hfilter. apply map_ext_in. intros k Hk.
      apply list_elem_of_In, list_elem_of_filter in Hk as [[_ Hne] _].
      rewrite merged_text_cons, decide_False by congruence. done.
Qed.

(** Writing the entries: one line per entry in each file. *)
Lemma write_entries (output_field_file output_content_file : string)
    (entries : list (str * str)) (w : world) (a b : str) :
  output_field_file ≠ output_content_file →
  files w !! output_field_file = Some a →
  files w !! output_content_file = Some b →
  let run :=
    for_each (λ '(field, content),
                append_file output_field_file (field ++ [LF]) ;;
                append_file output_content_file (content ++ [LF]))
             entries w in
  run.1 = Ok () ∧ stdout run.2 = stdout w ∧
  files run.2 !! output_field_file =
    Some (a ++ concat (map (λ e, e.1 ++ [LF]) entries)) ∧
  files run.2 !! output_content_file =
    Some (b ++ concat (map (λ e, e.2 ++ [LF]) entries)) ∧
  (∀ q, q ≠ output_field_file → q ≠ output_content_file →
        files run.2 !! q = files w !! q).
Proof.
  intros Hne. revert w a b.
  induction entries as [|[field content] entries IH]; intros w a b Ha Hb.
  { simpl. by rewrite !app_nil_r. }
  assert (Hstep :
    (append_file output_field_file (field ++ [LF]) ;;
     append_file output_content_file (content ++ [LF])) w =
    (Ok (), World (<[output_content_file := b ++ content ++ [LF]]>
                     (<[output_field_file := a ++ field ++ [LF]]> (files w)))
                  (stdout w))).
  { rewrite bind_unfold. unfold append_file, file_content. simpl.
    rewrite Ha. simpl. by rewrite lookup_insert_ne, Hb. }
  cbv zeta. cbn [for_each]. rewrite bind_unfold. cbv beta iota.
  rewrite Hstep.
  set (w1 := World _ _).
  destruct (IH w1 (a ++ field ++ [LF]) (b ++ content ++ [LF]))
    as (Hok & Hout & Hf & Hc & Hframe).
  { subst w1. cbn [files]. by rewrite lookup_insert_ne, lookup_insert_eq. }
  { subst w1. cbn [files]. by rewrite lookup_insert_eq. }
  split; [exact Hok|]. split; [by rewrite Hout|].
  split; [|split].
  - rewrite Hf. cbn [map concat fst]. by rewrite <- !app_assoc.
  - rewrite Hc. cbn [map concat snd]. by rewrite <- !app_assoc.
  - intros q Hq1 Hq2. rewrite Hframe by done. subst w1. cbn [files].
    by rewrite !lookup_insert_ne.
Qed.

End MergeLemmas.

Section MergeTheorems.
Import Py Props file_process.

Lemma foldl_zip_keys (fields contents : list str) (d : list (str * str)) :
  foldl (λ merged '(field, content),
           merge_content merged (field_key_of field) (strip content))
        d (zip fields contents) =
  foldl (λ d p, merge_content d p.1 p.2) d
        (zip (map field_key_of fields) (map strip contents)).
Proof.
  revert contents d. induction fields as [|field fields IH];
    intros contents d; [done|].
  destruct contents as [|content contents]; [done|]. simpl. apply IH.
Qed.

(** The entries that [merge_fields_and_contents] writes. *)
Lemma merged_entries (fields contents : list str) :
  length fields = length contents →
  let keys := first_seen (map field_key_of fields) in
  let pairs := zip (map field_key_of fields) (map strip contents) in
  foldl (λ merged '(field, content),
           merge_content merged (field_key_of field) (strip content))
        [] (zip fields contents) =
  map (λ k, (k, merged_text k pairs)) keys.
Proof.
  intros Hlen keys pairs. rewrite foldl_zip_keys. fold pairs.
  rewrite foldl_merge_content by constructor. cbn [map app fmap list_fmap].
  assert (Hkeys : pairs.*1 = map field_key_of fields).
  { subst pairs. apply fst_zip. rewrite !length_map. lia. }
  rewrite Hkeys. fold keys. f_equal.
  induction keys as [|k l IH]; [done|].
  rewrite filter_cons_True by apply not_elem_of_nil. by rewrite IH.
Qed.

(** The outcome of [merge_fields_and_contents] on two existing files
    with as many fields as contents. *)
Lemma merge_world
    (field_file content_file output_field_file output_content_file : string)
    (w : world) (field_text content_text : str) :
  files w !! field_file = Some field_text →
  files w !! content_file = Some content_text →
  let fields := readlines (universal_newlines field_text) in
  let contents := readlines (universal_newlines content_text) in
  length fields = length contents →
  output_field_file ≠ output_content_file →
  let keys := first_seen (map field_key_of fields) in
  let pairs := zip (map field_key_of fields) (map strip contents) in
  let run :=
    merge_fields_and_contents field_file content_file output_field_file
      output_content_file w in
  run.1 = Ok () ∧ stdout run.2 = stdout w ∧
  files run.2 !! output_field_file =
    Some (concat (map (λ k, k ++ [LF]) keys)) ∧
  files run.2 !! output_content_file =
    Some (concat (map (λ k, merged_text k pairs ++ [LF]) keys)) ∧
  (∀ q, q ≠ output_field_file → q ≠ output_content_file →
        files run.2 !! q = files w !! q).
Proof.
  intros Hf Hc fields contents Hlen Hne keys pairs run.
  subst run. unfold merge_fields_and_contents, read_text_lines, read_file.
  rewrite !bind_unfold, Hf. cbn [mret M_ret]. rewrite !bind_unfold, Hc.
  cbn [mret M_ret]. fold fields contents.
  rewrite Hlen, Nat.eqb_refl. cbn [negb].
  rewrite merged_entries by done. fold keys pairs.
  rewrite bind_unfold. unfold truncate_file at 1.
  rewrite bind_unfold. unfold truncate_file at 1. cbn [files stdout].
  set (w2 := World (<[output_content_file := []]>
                      (<[output_field_file := []]> (files w))) (stdout w)).
  destruct (write_entries output_field_file output_content_file
              (map (λ k, (k, merged_text k pairs)) keys) w2 [] [] Hne)
    as (Hok & Hout & Hfield & Hcontent & Hframe).
  { subst w2. cbn [files]. by rewrite lookup_insert_ne, lookup_insert_eq. }
  { subst w2. cbn [files]. by rewrite lookup_insert_eq. }
  split; [exact Hok|]. split; [exact Hout|]. split; [|split].
  - etrans; [exact Hfield|]. by rewrite map_map.
  - etrans; [exact Hcontent|]. by rewrite map_map.
  - intros q Hq1 Hq2. etrans; [by apply Hframe|]. subst w2. cbn [files].
    by rewrite !lookup_insert_ne.
Qed.

(** X23.  When the two input files differ in their number of lines,
    [merge_fields_and_contents] raises its error before it opens an
    output file: the world is left as it was. *)
Theorem merge_mismatch_leaves_world
    (field_file content_file output_field_file output_content_file : string)
    (w : world) (field_text content_text : str) :
  files w !! field_file = Some field_text →
  files w !! content_file = Some content_text →
  length (readlines (universal_newlines field_text)) ≠
  length (readlines (universal_newlines content_text)) →
  merge_fields_and_contents field_file content_file output_field_file
    output_content_file w
  = (Raise (Exception (lit merge_error)), w).
Proof.
  intros Hf Hc Hlen.
  unfold merge_fields_and_contents, read_text_lines, read_file.
  rewrite !bind_unfold, Hf. cbn [mret M_ret]. rewrite !bind_unfold, Hc.
  cbn [mret M_ret]. by rewrite (proj2 (Nat.eqb_neq _ _) Hlen).
Qed.

(** The hypotheses are met by two fields and one content. *)
Lemma merge_mismatch_leaves_world_witness :
  let w := World (<["fields" := lit "A_1
A_2
"]> (<["contents" := lit "first
"]> ∅)) [] in
  merge_fields_and_contents "fields" "contents" "out_f" "out_c" w
  = (Raise (Exception (lit merge_error)), w).
Proof.
  intros w.
  apply (merge_mismatch_leaves_world "fields" "contents" "out_f" "out_c" w
           (lit "A_1
A_2
") (lit "first
")).
  - reflexivity.
  - reflexivity.
  - vm_compute. lia.
Defined.

(** X24.  On two files with as many fields as contents,
    [merge_fields_and_contents] ends normally and writes, for each field
    name without its digits in the order of first occurrence, one line
    with the name and one line with its contents: the first content as
    it is, directly followed by the later ones, each of which is
    followed by a blank.  No other file changes. *)
Theorem merge_outputs
    (field_file content_file output_field_file output_content_file : string)
    (w : world) (field_text content_text : str) :
  files w !! field_file = Some field_text →
  files w !! content_file = Some content_text →
  let fields := readlines (universal_newlines field_text) in
  let contents := readlines (universal_newlines content_text) in
  length fields = length contents →
  output_field_file ≠ output_content_file →
  let keys := first_seen (map field_key_of fields) in
  let pairs := zip (map field_key_of fields) (map strip contents) in
  let run :=
    merge_fields_and_contents field_file content_file output_field_file
      output_content_file w in
  run.1 = Ok () ∧ stdout run.2 = stdout w ∧
  files run.2 !! output_field_file =
    Some (concat (map (λ k, k ++ [LF]) keys)) ∧
  files run.2 !! output_content_file =
    Some (concat (map (λ k, merged_text k pairs ++ [LF]) keys)) ∧
  (∀ q, q ≠ output_field_file → q ≠ output_content_file →
        files run.2 !! q = files w !! q).
Proof. apply merge_world. Qed.

(** The hypotheses are met by three fields, two of which share a name. *)
Lemma merge_outputs_witness :
  let w := World (<["fields" := lit "A_1
B1
A_2
"]> (<["contents" := lit "first
other
second
"]> ∅)) [] in
  let fields := readlines (universal_newlines (lit "A_1
B1
A_2
")) in
  let contents := readlines (universal_newlines (lit "first
other
second
")) in
  let keys := first_seen (map field_key_of fields) in
  let pairs := zip (map field_key_of fields) (map strip contents) in
  let run := merge_fields_and_contents "fields" "contents" "out_f" "out_c" w in
  run.1 = Ok () ∧ stdout run.2 = stdout w ∧
  files run.2 !! "out_f" = Some (concat (map (λ k, k ++ [LF]) keys)) ∧
  files run.2 !! "out_c" =
    Some (concat (map (λ k, merged_text k pairs ++ [LF]) keys)) ∧
  (∀ q, q ≠ "out_f" → q ≠ "out_c" → files run.2 !! q = files w !! q).
Proof.
  intros w.
  apply (merge_outputs "fields" "contents" "out_f" "out_c" w (lit "A_1
B1
A_2
") (lit "first
other
second
")).
  - reflexivity.
  - reflexivity.
  - reflexivity.
  - discriminate.
Defined.

(** What the merge of the witness writes: the two contents of [A_] run
    together. *)
Example merge_example :
  let w := World (<["fields" := lit "A_1
B1
A_2
"]> (<["contents" := lit "first
other
second
"]> ∅)) [] in
  let run := merge_fields_and_contents "fields" "contents" "out_f" "out_c" w in
  files run.2 !! "out_f" = Some (lit "A_
B
") ∧
  files run.2 !! "out_c" = Some (lit "firstsecond 
other
").
Proof. vm_compute. repeat split. Qed.

End MergeTheorems.

Section MergeAlignment.
Import Py Props file_process.

Lemma field_key_no_LF (s field : str) :
  field ∈ readlines s → LF ∉ field_key_of field.
Proof.
  intros Hin Hkey. unfold field_key_of in Hkey.
  apply list_elem_of_filter in Hkey as [_ Hkey].
  by apply (strip_line_no_LF s field).
Qed.

Lemma merged_text_no_LF (k : str) (ps : list (str * str)) :
  Forall (λ p, LF ∉ p.2) ps → LF ∉ merged_text k ps.
Proof.
  intros Hps. unfold merged_text.
  assert (Hsel : Forall (λ c, LF ∉ c) (filter (λ p, p.1 = k) ps).*2).
  { apply Forall_forall. intros c Hc.
    apply list_elem_of_fmap in Hc as (p & -> & Hp).
    apply list_elem_of_filter in Hp as [_ Hp].
    by apply (proj1 (Forall_forall _ _) Hps). }
  destruct Hsel as [|c cs Hc Hcs]; [apply not_elem_of_nil|].
  rewrite elem_of_app. intros [?|Hin]; [done|].
  induction Hcs as [|c' cs Hc' _ IH]; [by apply not_elem_of_nil in Hin|].
  simpl in Hin. rewrite !elem_of_app in Hin.
  destruct Hin as [[?|Hsp]|?]; [done| |by apply IH].
  apply list_elem_of_singleton in Hsp. discriminate.
Qed.

(** X25.  After [merge_fields_and_contents] the two output files are
    aligned: each holds exactly one line per merged field name.  The
    names are pairwise distinct, hold no digit, and there are at most as
    many as input lines. *)
Theorem merge_outputs_aligned
    (field_file content_file output_field_file output_content_file : string)
    (w : world) (field_text content_text : str) :
  files w !! field_file = Some field_text →
  files w !! content_file = Some content_text →
  let fields := readlines (universal_newlines field_text) in
  let contents := readlines (universal_newlines content_text) in
  length fields = length contents →
  output_field_file ≠ output_content_file →
  let keys := first_seen (map field_key_of fields) in
  let run :=
    merge_fields_and_contents field_file content_file output_field_file
      output_content_file w in
  (line_counter output_field_file run.2).1 = Ok (length keys) ∧
  (line_counter output_content_file run.2).1 = Ok (length keys) ∧
  NoDup keys ∧
  Forall (Forall (λ c, isdigit c = false)) keys ∧
  length keys ≤ length fields.
Proof.
  intros Hf Hc fields contents Hlen Hne keys run.
  destruct (merge_world field_file content_file output_field_file
              output_content_file w field_text content_text Hf Hc Hlen Hne)
    as (_ & _ & Hfield & Hcontent & _).
  fold fields contents keys run in Hfield, Hcontent.
  set (pairs := zip (map field_key_of fields) (map strip contents)) in *.
  assert (Hkeys : Forall (λ k, LF ∉ k) keys).
  { apply Forall_forall. intros k Hk.
    apply first_seen_subseteq, list_elem_of_fmap in Hk as (field & -> & Hin).
    by apply (field_key_no_LF (universal_newlines field_text)). }
  assert (Hpairs : Forall (λ p : str * str, LF ∉ p.2) pairs).
  { apply Forall_forall. intros [k c] Hp. simpl.
    assert (Hc' : c ∈ map strip contents)
      by (subst pairs; by apply elem_of_zip_r in Hp).
    apply list_elem_of_fmap in Hc' as (line & -> & Hline).
    by apply (strip_line_no_LF (universal_newlines content_text)). }
  split; [|split; [|split; [|split]]].
  - rewrite (line_counter_world _ _ _ Hfield). cbn [fst]. f_equal.
    rewrite readlines_terminated by done. apply length_map.
  - rewrite (line_counter_world _ _ _ Hcontent). cbn [fst]. f_equal.
    assert (Hmap : map (λ k, merged_text k pairs ++ [LF]) keys =
                   map (λ e, e ++ [LF]) (map (λ k, merged_text k pairs) keys))
      by (by rewrite map_map).
    rewrite Hmap, readlines_terminated, !length_map; [done|].
    apply Forall_forall. intros e He.
    apply list_elem_of_fmap in He as (k & -> & _).
    by apply merged_text_no_LF.
  - apply first_seen_NoDup.
  - apply Forall_forall. intros k Hk.
    apply first_seen_subseteq, list_elem_of_fmap in Hk as (field & -> & _).
    apply Forall_forall. intros c Hin. unfold field_key_of in Hin.
    by apply list_elem_of_filter in Hin as [Hin _].
  - rewrite <- (length_map field_key_of fields). apply first_seen_length.
Qed.

(** The hypotheses are met by three fields, two of which share a name. *)
Lemma merge_outputs_aligned_witness :
  let w := World (<["fields" := lit "A_1
B1
A_2
"]> (<["contents" := lit "first
other
second
"]> ∅)) [] in
  let fields := readlines (universal_newlines (lit "A_1
B1
A_2
")) in
  let keys := first_seen (map field_key_of fields) in
  let run := merge_fields_and_contents "fields" "contents" "out_f" "out_c" w in
  (line_counter "out_f" run.2).1 = Ok (length keys) ∧
  (line_counter "out_c" run.2).1 = Ok (length keys) ∧
  NoDup keys ∧
  Forall (Forall (λ c, isdigit c = false)) keys ∧
  length keys ≤ length fields.
Proof.
  intros w.
  apply (merge_outputs_aligned "fields" "contents" "out_f" "out_c" w
           (lit "A_1
B1
A_2
") (lit "first
other
second
")).
  - reflexivity.
  - reflexivity.
  - reflexivity.
  - discriminate.
Defined.

End MergeAlignment.

(* ===================================================================== *)
(** * clean_file *)
(* ===================================================================== *)

Section CleanFile.
Import Py Props file_process text_cleaning.

Lemma clean_no_LF (self : TextCleaner) (text : str) : LF ∉ clean self text.
Proof.
  intros Hin.
  pose proof (proj1 (Forall_forall _ _) (clean_blank_only self text) LF Hin
                eq_refl). discriminate.
Qed.

(** X26.  [clean_file] on an existing corpus that is not its own output
    ends normally and leaves one cleaned line per line of the corpus, in
    the same order, so that the output stays aligned line by line with
    the input and with every identifier file of the input.  On an empty
    corpus it leaves no output file. *)
Theorem clean_file_line_by_line (input_path output_path : string)
    (a_text_cleaner : TextCleaner) (w : world) (content : str) :
  files w !! input_path = Some content →
  input_path ≠ output_path →
  let cleaned :=
    map (λ line, clean a_text_cleaner line ++ [LF]) (readlines content) in
  let run := clean.clean_file input_path output_path a_text_cleaner w in
  run.1 = Ok () ∧
  files run.2 !! output_path =
    match cleaned with
    | [] => None
    | _ :: _ => Some (concat cleaned)
    end ∧
  readlines (concat cleaned) = cleaned.
Proof.
  intros Hin Hio cleaned run.
  set (lines := readlines content) in *.
  set (ids := map str_of_nat (seq 0 (length lines))).
  set (f := (λ line _id, ([], Ok (clean a_text_cleaner line, _id)))
            : transform).
  assert (Hlen : length lines = length ids)
    by (subst ids; by rewrite length_map, length_seq).
  assert (Hrun : run =
    process_large_file input_path output_path ids None f 20000 None w).
  { subst run. rewrite clean_file_unfold, Hin. reflexivity. }
  destruct (run_output input_path output_path ids None f 20000 w content)
    as (Hok & Hout & _); try done.
  { intros line line_id. by eexists. }
  { change 20000 with (S 19999). lia. }
  rewrite <- Hrun in Hok, Hout. fold lines in Hout.
  assert (Hpieces :
    map (λ item, (returned f item).1 ++ [LF]) (zip lines ids) = cleaned).
  { subst cleaned. fold lines.
    rewrite <- (fst_zip lines ids) at 2 by lia.
    rewrite <- list_fmap_compose. reflexivity. }
  split; [exact Hok|]. split.
  - rewrite Hout. rewrite <- Hpieces.
    by destruct (zip lines ids).
  - subst cleaned.
    assert (Hmap : map (λ line, clean a_text_cleaner line ++ [LF]) lines =
                   map (λ e, e ++ [LF]) (map (clean a_text_cleaner) lines))
      by (by rewrite map_map).
    rewrite Hmap. apply readlines_terminated.
    apply Forall_forall. intros e He.
    apply list_elem_of_fmap in He as (line & -> & _). apply clean_no_LF.
Qed.

(** The hypotheses are met by a corpus of two lines. *)
Lemma clean_file_line_by_line_witness :
  let cleaner := init (λ _, []) true true true false false true None
                   "english" in
  let w := World (<["in" := lit "Quick  SALE!
Act fast, 2 offers.
"]> ∅) [] in
  let cleaned :=
    map (λ line, clean cleaner line ++ [LF]) (readlines (lit "Quick  SALE!
Act fast, 2 offers.
")) in
  let run := clean.clean_file "in" "out" cleaner w in
  run.1 = Ok () ∧
  files run.2 !! "out" =
    match cleaned with
    | [] => None
    | _ :: _ => Some (concat cleaned)
    end ∧
  readlines (concat cleaned) = cleaned.
Proof.
  intros cleaner w.
  apply (clean_file_line_by_line "in" "out" cleaner w (lit "Quick  SALE!
Act fast, 2 offers.
")).
  - reflexivity.
  - discriminate.
Defined.

(** What the cleaning of the witness writes. *)
Example clean_file_example :
  let cleaner := init (λ _, []) true true true false false true None
                   "english" in
  let w := World (<["in" := lit "Quick  SALE!
Act fast, 2 offers.
"]> ∅) [] in
  files (clean.clean_file "in" "out" cleaner w).2 !! "out" =
  Some (lit "quick sale
act fast offers
").
Proof. vm_compute. reflexivity. Qed.

End CleanFile.

(* ===================================================================== *)
(** * Running in place *)
(* ===================================================================== *)

Section InPlace.
Import Py Props file_process text_cleaning.

(** X27.  A fresh run whose output corpus is its input corpus loses the
    corpus: the file is removed as a former output before it is read, the
    run raises [FileNotFoundError], and the file is gone.  The same holds
    of [clean_file] called with one path for input and output. *)
Theorem in_place_run_removes_corpus (path : string)
    (input_file_ids : list str) (output_index_file : option string)
    (function_name : transform) (chunk_size : nat)
    (a_text_cleaner : TextCleaner) (w : world) (content : str) :
  files w !! path = Some content →
  let run :=
    process_large_file path path input_file_ids output_index_file
      function_name chunk_size None w in
  let cleaning := clean.clean_file path path a_text_cleaner w in
  run.1 = Raise (FileNotFoundError path) ∧
  files run.2 !! path = None ∧
  cleaning = (Raise (FileNotFoundError path),
              World (delete path (files w)) (stdout w)).
Proof.
  intros Hfile run cleaning.
  assert (Hgone : ∀ idx, files (remove_outputs path idx None w).2 !! path
                         = None) by (intros; apply remove_outputs_fresh).
  split; [|split].
  - subst run. rewrite process_large_file_unfold. cbv zeta.
    by rewrite Hgone.
  - subst run. rewrite process_large_file_unfold. cbv zeta.
    rewrite Hgone. cbn [snd]. apply Hgone.
  - subst cleaning. rewrite clean_file_unfold, Hfile.
    rewrite process_large_file_unfold. cbv zeta. rewrite Hgone.
    unfold remove_outputs, try_except_pass. rewrite bind_unfold.
    unfold os_remove at 1. by rewrite Hfile.
Qed.

(** The hypothesis is met by a corpus of one line. *)
Lemma in_place_run_removes_corpus_witness :
  let f : transform := λ line line_id, ([], Ok (strip line, line_id)) in
  let cleaner := init (λ _, []) true true true false false true None
                   "english" in
  let w := World (<["corpus" := lit "a line
"]> ∅) [] in
  let run := process_large_file "corpus" "corpus" [lit "1"] None f 100 None w in
  let cleaning := clean.clean_file "corpus" "corpus" cleaner w in
  run.1 = Raise (FileNotFoundError "corpus") ∧
  files run.2 !! "corpus" = None ∧
  cleaning = (Raise (FileNotFoundError "corpus"),
              World (delete "corpus" (files w)) (stdout w)).
Proof.
  intros f cleaner w.
  apply (in_place_run_removes_corpus "corpus" [lit "1"] None f 100 cleaner w
           (lit "a line
")).
  reflexivity.
Defined.

End InPlace.

(* ===================================================================== *)
(** * The spaCy parser *)
(* ===================================================================== *)

Section ParserFacts.
Import Py Props parser parse.

Lemma entity_tail_spec (doc : list Token) :
  ∃ inside, doc = inside ++ (entity_tail doc).2 ∧
    (entity_tail doc).1 = map text inside ∧
    Forall (λ t, ent_iob_ t = lit "I") inside ∧
    match (entity_tail doc).2 with
    | [] => True
    | next :: _ => ent_iob_ next ≠ lit "I"
    end.
Proof.
  induction doc as [|token rest IH].
  - exists []. simpl. auto.
  - cbn [entity_tail].
    destruct (decide (ent_iob_ token = lit "I")) as [HI|HI].
    + destruct IH as (inside & Hrest & Htexts & Hin & Hnext).
      destruct (entity_tail rest) as [ent_tokens rest'] eqn:Htail.
      cbn [fst snd] in *. exists (token :: inside). subst ent_tokens.
      split; [simpl; by f_equal|]. split; [done|].
      split; [by constructor|done].
    + exists []. cbn [fst snd]. auto.
Qed.

(** What the two loops do: they cut the tokens into groups, the same
    ones, and make one item of each. *)
Lemma loops_groups (fuel : nat) (doc : list Token) :
  length doc ≤ fuel →
  ∃ groups,
    concat groups = doc ∧ Forall token_group groups ∧ maximal groups ∧
    ner_loop fuel doc = map (item_of text) groups ∧
    ner_pos_loop fuel doc = map (item_of tagged) groups.
Proof.
  revert doc. induction fuel as [|fuel IH]; intros doc Hlen.
  - destruct doc; [|simpl in Hlen; lia]. by exists [].
  - destruct doc as [|token rest]; [by exists []|].
    cbn [ner_loop ner_pos_loop].
    destruct (decide (ent_iob_ token = lit "B")) as [HB|HB].
    + destruct (entity_tail_spec rest) as (inside & Hrest & Htexts & Hin & Hnext).
      destruct (entity_tail rest) as [ent_tokens rest'] eqn:Htail.
      cbn [fst snd] in *. subst ent_tokens.
      destruct (IH rest') as (groups & Hcat & Hgroups & Hmax & Hner & Hpos).
      { simpl in Hlen. rewrite Hrest, length_app in Hlen. lia. }
      exists ((token :: inside) :: groups).
      split; [simpl; by rewrite Hcat, <- Hrest|].
      split; [constructor; [simpl; by rewrite decide_True by done|done]|].
      split.
      { split; [|done]. destruct groups as [|[|next ?] ?]; try done.
        intros _. simpl in Hcat. rewrite <- Hcat in Hnext. exact Hnext. }
      cbv zeta. rewrite Hner, Hpos. cbn [map item_of].
      by rewrite !decide_True by done.
    + destruct (IH rest) as (groups & Hcat & Hgroups & Hmax & Hner & Hpos).
      { simpl in Hlen. lia. }
      exists ([token] :: groups).
      split; [simpl; by rewrite Hcat|].
      split; [constructor; [simpl; by rewrite decide_False by done|done]|].
      split.
      { split; [|done]. by destruct groups as [|[|next ?] ?]. }
      rewrite Hner, Hpos. cbn [map item_of].
      by rewrite !decide_False by done.
Qed.


Lemma loop_without_entities (fuel : nat) (doc : list Token) :
  length doc ≤ fuel →
  Forall (λ token, ent_iob_ token ≠ lit "B") doc →
  ner_loop fuel doc = map text doc ∧
  ner_pos_loop fuel doc = map tagged doc.
Proof.
  revert fuel. induction doc as [|token rest IH]; intros fuel Hlen Hall.
  - by destruct fuel.
  - destruct fuel as [|fuel]; [simpl in Hlen; lia|].
    apply Forall_cons in Hall as [HB Hall].
    cbn [ner_loop ner_pos_loop]. rewrite !decide_False by done.
    destruct (IH fuel) as [-> ->]; [simpl in Hlen; lia|done|done].
Qed.

Lemma str_of_nat_inj (m n : nat) : str_of_nat m = str_of_nat n → m = n.
Proof.
  unfold str_of_nat, lit. intros Heq.
  apply (f_equal string_of_list_ascii) in Heq.
  rewrite !string_of_list_ascii_of_string in Heq.
  apply (f_equal NilEmpty.uint_of_string) in Heq.
  rewrite !NilEmpty.usu in Heq. injection Heq as Heq.
  apply (f_equal Nat.of_uint) in Heq.
  by rewrite !DecimalNat.Unsigned.of_to in Heq.
Qed.

(** X28.  The sentences that [sentence_split] returns are numbered 0, 1,
    2, ... in order, one for each sentence that spaCy finds in the text
    (in the lemmatised text when [lemma] is set).  [parse_line]
    therefore returns the identifiers [line_id_0], [line_id_1], ...,
    which are pairwise distinct. *)
Theorem sentence_split_numbers (nlp : pipeline) (line line_id : str)
    (with_lemma with_ner with_pos : bool) :
  let parsed := if with_lemma then lemma nlp line else line in
  let n := length (sents (nlp parsed)) in
  let ids := map (λ idx, line_id ++ lit "_" ++ str_of_nat idx) (seq 0 n) in
  map fst (sentence_split nlp line with_lemma with_ner with_pos) = seq 0 n ∧
  (∃ sentences,
     parse_line
       (λ line, Sentences
                  (sentence_split nlp line with_lemma with_ner with_pos))
       line line_id
     = ([], Ok (sentences, join [LF] ids))) ∧
  NoDup ids.
Proof.
  intros parsed n ids.
  assert (Hfst : map fst (sentence_split nlp line with_lemma with_ner with_pos)
                 = seq 0 n).
  { unfold sentence_split. fold parsed.
    change (map fst ?l) with (fst <$> l). rewrite fmap_imap.
    rewrite (imap_ext _ (λ idx _, idx)) by done.
    rewrite (imap_seq_0 _ (λ idx, idx)).
    change (?f <$> ?l) with (map f l). by rewrite map_id. }
  split; [exact Hfst|]. split.
  - unfold parse_line. eexists. do 3 f_equal.
    subst ids. rewrite <- Hfst, map_map. reflexivity.
  - subst ids. apply NoDup_fmap_2_strong; [|apply NoDup_seq].
    intros i j _ _ Heq. apply app_inv_head in Heq.
    apply app_inv_head in Heq. by apply str_of_nat_inj.
Qed.

(** X29.  On a sentence in which spaCy marks no token as the beginning of
    an entity, [ner] returns the token texts joined by single blanks and
    [ner_pos] returns what [pos] returns. *)
Theorem without_entities (nlp : pipeline) (sentence : str) :
  Forall (λ token, ent_iob_ token ≠ lit "B") (tokens (nlp sentence)) →
  ner nlp sentence = join [SP] (map text (tokens (nlp sentence))) ∧
  ner_pos nlp sentence = pos nlp sentence.
Proof.
  intros Hall. unfold ner, ner_pos, pos. cbv zeta.
  by destruct (loop_without_entities (length (tokens (nlp sentence)))
                 (tokens (nlp sentence))) as [-> ->].
Qed.

(** The hypothesis is met by a pipeline that tags no entity. *)
Lemma without_entities_witness :
  let nlp : pipeline := λ s,
    {| tokens := map (λ w, Build_Token w w (lit "X") (lit "O") []) (split s);
       sents := [s] |} in
  ner nlp (lit "act fast")
    = join [SP] (map text (tokens (nlp (lit "act fast")))) ∧
  ner_pos nlp (lit "act fast") = pos nlp (lit "act fast").
Proof.
  intros nlp. apply (without_entities nlp (lit "act fast")).
  repeat constructor; discriminate.
Defined.

(** X30.  [ner] and [ner_pos] cut the tokens of the sentence into the
    same groups, without losing, repeating or reordering a token: a
    token tagged [B] together with all the tokens tagged [I] that follow
    it, or one token that is not tagged [B].  Each makes one item of
    every group, joined by single blanks: for an entity, the tag
    [[NER:type]] of its first token followed by the token texts joined
    by underscores; for another token its text, to which [ner_pos] adds
    the tag [[POS:tag]]. *)
Theorem ner_groups (nlp : pipeline) (sentence : str) :
  ∃ groups,
    concat groups = tokens (nlp sentence) ∧
    Forall token_group groups ∧ maximal groups ∧
    ner nlp sentence = join [SP] (map (item_of text) groups) ∧
    ner_pos nlp sentence = join [SP] (map (item_of tagged) groups).
Proof.
  destruct (loops_groups (length (tokens (nlp sentence)))
              (tokens (nlp sentence))) as (groups & Hcat & Hg & Hmax & Hn & Hp);
    [done|].
  exists groups. unfold ner, ner_pos. cbv zeta. by rewrite Hn, Hp.
Qed.

(** An entity of two tokens, and a token tagged [I] that follows no
    entity. *)
Example ner_example :
  let doc := [Build_Token (lit "to") (lit "to") (lit "ADP") (lit "O") [];
              Build_Token (lit "Stanford") (lit "Stanford") (lit "PROPN")
                (lit "B") (lit "ORG");
              Build_Token (lit "University") (lit "University") (lit "PROPN")
                (lit "I") (lit "ORG")] in
  let nlp : pipeline := λ _, {| tokens := doc; sents := [] |} in
  ner nlp [] = lit "to [NER:ORG]Stanford_University" ∧
  ner_pos nlp [] = lit "to[POS:ADP] [NER:ORG]Stanford_University" ∧
  ner (λ _, {| tokens := drop 2 doc; sents := [] |}) [] = lit "University".
Proof. vm_compute. auto. Qed.

End ParserFacts.

(* ===================================================================== *)
(** * The two users of the transformer keep the outputs aligned *)
(* ===================================================================== *)

Section UsersAligned.
Import Py Props file_process parse text_cleaning.

(** [parse_line] meets the condition of alignment on the items of a run
    whose identifiers hold no line feed and on whose lines the splitter,
    when it returns, returns sentences none of which is blank or holds a
    line feed between its ends. *)
Lemma parse_line_keeps_aligned (sentence_split : str → split_outcome)
    (items : list (str * str)) :
  Forall (λ item,
            (LF ∉ item.2) ∧
            ∀ sent, sentence_split item.1 = Sentences sent →
              Forall (λ s, strip s.2 ≠ [] ∧ LF ∉ strip_LF s.2) sent) items →
  aligned (parse_line sentence_split) items.
Proof.
  unfold aligned. intros Hitems. eapply Forall_impl; [exact Hitems|].
  intros [line line_id] [Hid Hsent].
  cbn [fst snd] in *. unfold parse_line.
  destruct (sentence_split line) as [sent|message]; [|done].
  specialize (Hsent sent eq_refl). cbn [snd].
  rewrite filter_all
    by (eapply Forall_impl; [exact Hsent|]; by intros ? [? _]).
  rewrite !count_LF_join_lines, !length_map; [done| |].
  - apply Forall_forall. intros x Hx.
    apply list_elem_of_fmap in Hx as (item & -> & Hitem).
    rewrite !elem_of_app. intros [?|[Hu|Hn]]; [done| |].
    + apply list_elem_of_singleton in Hu. discriminate.
    + by apply str_of_nat_no_LF in Hn.
  - apply Forall_forall. intros x Hx.
    apply list_elem_of_fmap in Hx as (item & -> & Hitem).
    by apply (proj1 (Forall_forall _ _) Hsent item).
Qed.

(** So does the per-line function of [clean_file], on the items of a run
    whose identifiers hold no line feed; the identifiers that
    [clean_file] makes up are such. *)
Lemma clean_keeps_aligned (a_text_cleaner : TextCleaner)
    (items : list (str * str)) :
  Forall (λ item, LF ∉ item.2) items →
  aligned (λ line _id, ([], Ok (clean a_text_cleaner line, _id))) items.
Proof.
  unfold aligned. intros Hitems. eapply Forall_impl; [exact Hitems|].
  intros [line line_id] Hid. cbn [fst snd] in *.
  by rewrite (count_LF_absent _ (clean_no_LF a_text_cleaner line)),
    (count_LF_absent _ Hid).
Qed.

End UsersAligned.
